(** * anono.fi-server: bin manager, revocation manager, message wire form,
      key vault helpers and the revocation endpoint

    A shallow embedding of the routing and trust code of the server
    ([internal/binmanager], [internal/certmanager], [internal/keystore],
    [pkg/crypto], [internal/server]) together with the properties of its
    specification.

    Conventions of the embedding.
    - [uint64] values are integers [Z]; the only operation of the code
      that can leave the 64-bit range, the left shift, is written with its
      wrap-around ([shl1]).
    - [time.Time] is an instant counted in nanoseconds from the zero
      instant of Go (January 1, year 1, 00:00:00 UTC) together with the
      offset of its location; [time.Duration] is a number of nanoseconds,
      an [int64] whose negation is written with its wrap-around
      ([Duration_neg]).  Instants are unbounded integers.  A function that reads the clock
      once takes the reading as its argument [now]; the recursive
      revocation, which reads it at every step, takes the clock.
    - Go maps are [gmap]s.  Where the code ranges over a map and the result
      depends on the order of the visit, that order is an explicit argument,
      a list of the entries.
    - [*Message] and [*Bin] values are embedded by value: every
      [*Message] handed to [AddMessage] by the connection handler is a
      fresh object, and [ContractBins] drops the old table.
    - A loop or a recursion whose end is not structural carries fuel and
      returns [None] when the fuel runs out; the properties state when it
      returns.
    - The primitives of the Go libraries (AES-GCM, HMAC-SHA256, argon2id)
      are parameters.
    - Locks are not modelled: every operation is one atomic step. *)

From Stdlib Require Import ZArith Lia Bool List Ascii String.
From Stdlib Require Import Strings.Byte.
From stdpp Require Import base tactics option list sorting gmap strings fin_maps pretty.

#[local] Open Scope Z_scope.

(** ** Machine integers *)

Definition u64_modulus : Z := 2 ^ 64.

Definition in_u64 (x : Z) : Prop := 0 ≤ x < u64_modulus.

(** [x <<= 1] on a [uint64]. *)
Definition shl1 (x : Z) : Z := Z.shiftl x 1 mod u64_modulus.

(** ** Instants and durations *)

Definition Duration : Type := Z.

Record Time : Type := mkTime {
  t_ns : Z;        (* nanoseconds since 0001-01-01T00:00:00Z *)
  t_offset : Z     (* seconds east of UTC of the location *)
}.

#[global] Instance Time_eq_dec : EqDecision Time.
Proof. solve_decision. Defined.

Definition zero_time : Time := mkTime 0 0.

Definition Time_IsZero (t : Time) : bool := t_ns t =? 0.

(** [t.After(u)]: strictly later. *)
Definition Time_After (t u : Time) : bool := t_ns u <? t_ns t.

(** [t.Add(d)]. *)
Definition Time_Add (t : Time) (d : Duration) : Time :=
  mkTime (t_ns t + d) (t_offset t).

(** [-d] on a [time.Duration], an [int64]: the negation wraps for the least
    value, [math.MinInt64], which is its own negation. *)
Definition MinInt64 : Z := - 2 ^ 63.

Definition Duration_neg (d : Duration) : Duration :=
  if d =? MinInt64 then MinInt64 else - d.

(** ** Messages ([binmanager.Message]) *)

Record Message : Type := mkMessage {
  BinID : Z;
  MessageID : string;
  Ciphertext : list byte;
  Timestamp : Time
}.

Definition NewMessage (binID : Z) (messageID : string) (ciphertext : list byte)
  : Message :=
  mkMessage binID messageID ciphertext zero_time.

Definition set_Timestamp (m : Message) (t : Time) : Message :=
  mkMessage (BinID m) (MessageID m) (Ciphertext m) t.

(** ** The [Client] interface

    [SendMessage c m = true] stands for a [nil] error. *)

Class Client (C : Type) : Type := SendMessage : C → Message → bool.

(** The client of the test suite: every send succeeds. *)
Record MockClient : Type := mkMockClient { mock_closed : bool }.

#[global] Instance MockClient_Client : Client MockClient := λ _ _, true.

(** The client of the server: a closed client refuses the send, an open one
    reports what the transport reports. *)
Record WsClient : Type := mkWsClient {
  isClosed : bool;
  conn_writable : bool
}.

#[global] Instance WsClient_Client : Client WsClient :=
  λ c _, if isClosed c then false else conn_writable c.

(** ** Bins ([binmanager.Bin]) *)

Record Bin (C : Type) : Type := mkBin {
  ID : Z;
  Messages : list Message;
  Clients : gmap string C
}.
Arguments mkBin {C} _ _ _.
Arguments ID {C} _.
Arguments Messages {C} _.
Arguments Clients {C} _.

Section bin.
Context {C : Type}.

Definition NewBin (id : Z) : Bin C := mkBin id [] ∅.

Definition Bin_AddMessage (b : Bin C) (msg : Message) : Bin C :=
  mkBin (ID b) (Messages b ++ [msg]) (Clients b).

(** The messages strictly newer than [now.Add(-retention)], in order. *)
Definition Bin_GetRecentMessages (b : Bin C) (retention : Duration)
    (now : Time) : list Message :=
  let cutoff := Time_Add now (Duration_neg retention) in
  filter (λ msg, Time_After (Timestamp msg) cutoff = true) (Messages b).

(** The loop of [RemoveMessagesBefore]: [idx] starts at 0 and is set to
    the position of the first message newer than the cutoff, where the
    loop breaks. *)
Fixpoint first_after (cutoff : Time) (i : nat) (msgs : list Message)
    (idx : nat) : nat :=
  match msgs with
  | [] => idx
  | msg :: rest =>
      if Time_After (Timestamp msg) cutoff then i
      else first_after cutoff (S i) rest idx
  end.

Definition Bin_RemoveMessagesBefore (b : Bin C) (cutoff : Time) : Bin C :=
  let idx := first_after cutoff 0 (Messages b) 0 in
  if (0 <? idx)%nat then mkBin (ID b) (drop idx (Messages b)) (Clients b)
  else b.

Definition AddClient (b : Bin C) (clientID : string) (client : C) : Bin C :=
  mkBin (ID b) (Messages b) (<[clientID := client]> (Clients b)).

Definition RemoveClient (b : Bin C) (clientID : string) : Bin C :=
  mkBin (ID b) (Messages b) (delete clientID (Clients b)).

(** Every subscriber of the snapshot is sent the message; the ones whose
    send fails are removed. *)
Definition BroadcastMessage `{!Client C} (b : Bin C) (msg : Message) : Bin C :=
  mkBin (ID b) (Messages b)
    (filter (λ kv, SendMessage kv.2 msg = true) (Clients b)).

(** [b.mergeFrom(other)]: the messages of [other] are appended, and each
    entry of [other.Clients] is stored into [b.Clients]. *)
Definition mergeFrom (b other : Bin C) : Bin C :=
  mkBin (ID b) (Messages b ++ Messages other) (Clients other ∪ Clients b).
End bin.

(** ** The bin manager ([binmanager.BinManager]) *)

Record BinManager (C : Type) : Type := mkBinManager {
  bins : gmap Z (Bin C);
  currentMask : Z;
  retention : Duration
}.
Arguments mkBinManager {C} _ _ _.
Arguments bins {C} _.
Arguments currentMask {C} _.
Arguments retention {C} _.

Section manager.
Context {C : Type}.

Definition NewBinManager (initialMask : Z) (retention : Duration)
  : BinManager C :=
  mkBinManager ∅ initialMask retention.

Definition GetBinID (bm : BinManager C) (channelID : Z) : Z :=
  Z.land channelID (currentMask bm).

Definition GetCurrentMask (bm : BinManager C) : Z := currentMask bm.

(** The scan of [ExpandBins]:
    [for (mask & newBit) != 0 && newBit != 0 { newBit <<= 1 }]. *)
Fixpoint expand_scan (fuel : nat) (mask newBit : Z) : option Z :=
  if negb (Z.land mask newBit =? 0) && negb (newBit =? 0) then
    match fuel with
    | O => None
    | S fuel' => expand_scan fuel' mask (shl1 newBit)
    end
  else Some newBit.

Definition ExpandBins (bm : BinManager C) : option (BinManager C) :=
  newBit ← expand_scan 64 (currentMask bm) 1;
  if newBit =? 0 then Some bm
  else Some (mkBinManager (bins bm) (Z.lor (currentMask bm) newBit)
               (retention bm)).

(** The scan of [ContractBins]:
    [for (mask & lowestBit) == 0 && lowestBit != 0 { lowestBit <<= 1 }]. *)
Fixpoint contract_scan (fuel : nat) (mask lowestBit : Z) : option Z :=
  if (Z.land mask lowestBit =? 0) && negb (lowestBit =? 0) then
    match fuel with
    | O => None
    | S fuel' => contract_scan fuel' mask (shl1 lowestBit)
    end
  else Some lowestBit.

(** One round of the rebuilding loop of [ContractBins]. *)
Definition rekey_step (newMask : Z) (newBins : gmap Z (Bin C))
    (entry : Z * Bin C) : gmap Z (Bin C) :=
  let newBinID := Z.land entry.1 newMask in
  match newBins !! newBinID with
  | Some existingBin => <[newBinID := mergeFrom existingBin entry.2]> newBins
  | None => <[newBinID := entry.2]> newBins
  end.

(** [order] is the order in which [range bm.bins] visits the table. *)
Definition ContractBins (order : list (Z * Bin C)) (bm : BinManager C)
  : option (BinManager C) :=
  lowestBit ← contract_scan 64 (currentMask bm) 1;
  if (lowestBit =? 0) || (currentMask bm =? lowestBit) then Some bm
  else
    let newMask := Z.ldiff (currentMask bm) lowestBit in
    let newBins := foldl (rekey_step newMask) ∅ order in
    Some (mkBinManager newBins newMask (retention bm)).

(** The look-up with lazy creation shared by [AddMessage] and [Subscribe]. *)
Definition get_or_create (bm : BinManager C) (binID : Z)
  : BinManager C * Bin C :=
  match bins bm !! binID with
  | Some bin => (bm, bin)
  | None =>
      let bin := NewBin binID in
      (mkBinManager (<[binID := bin]> (bins bm)) (currentMask bm)
         (retention bm), bin)
  end.

Definition store_bin (bm : BinManager C) (binID : Z) (bin : Bin C)
  : BinManager C :=
  mkBinManager (<[binID := bin]> (bins bm)) (currentMask bm) (retention bm).

(** [now] is the reading of [time.Now()]. *)
Definition AddMessage `{!Client C} (bm : BinManager C) (msg : Message)
    (now : Time) : BinManager C :=
  let binID := BinID msg in
  let '(bm1, bin) := get_or_create bm binID in
  let msg' := set_Timestamp msg now in
  let bin1 := Bin_AddMessage bin msg' in
  let bin2 := BroadcastMessage bin1 msg' in
  store_bin bm1 binID bin2.

Definition Subscribe (bm : BinManager C) (binID : Z) (clientID : string)
    (client : C) : BinManager C :=
  let '(bm1, bin) := get_or_create bm binID in
  store_bin bm1 binID (AddClient bin clientID client).

Definition Unsubscribe (bm : BinManager C) (binID : Z) (clientID : string)
  : BinManager C :=
  match bins bm !! binID with
  | Some bin => store_bin bm binID (RemoveClient bin clientID)
  | None => bm
  end.

Definition GetRecentMessages (bm : BinManager C) (binID : Z) (now : Time)
  : list Message :=
  match bins bm !! binID with
  | Some bin => Bin_GetRecentMessages bin (retention bm) now
  | None => []
  end.

(** One tick of the cleanup service. *)
Definition cleanup (bm : BinManager C) (now : Time) : BinManager C :=
  let cutoff := Time_Add now (Duration_neg (retention bm)) in
  mkBinManager ((λ bin, Bin_RemoveMessagesBefore bin cutoff) <$> bins bm)
    (currentMask bm) (retention bm).
End manager.

(** ** The bit that a reshard touches, as the specification words it *)

(** The positions of the bits of a [uint64], lowest first. *)
Definition bit_positions : list Z := seqZ 0 64.

(** The position of the lowest-order unset bit of a 64-bit mask. *)
Definition lowest_unset_bit (mask : Z) : option Z :=
  List.find (λ i, negb (Z.testbit mask i)) bit_positions.

(** The position of the lowest-order set bit of a 64-bit mask. *)
Definition lowest_set_bit (mask : Z) : option Z :=
  List.find (λ i, Z.testbit mask i) bit_positions.

(** The value of the scanning bit of both scans after [i] shifts. *)
Definition scan_bit (i : Z) : Z := 2 ^ i mod u64_modulus.

(** ** Invariant I1 *)

(** I1 on the stored [ID] field of the live bins: [b.ID & mask == b.ID]. *)
Definition I1_ids {C} (bm : BinManager C) : Prop :=
  map_Forall (λ _ b, Z.land (ID b) (currentMask bm) = ID b) (bins bm).

(** I1 on the keys under which the live bins are filed. *)
Definition I1_keys {C} (bm : BinManager C) : Prop :=
  map_Forall (λ k (_ : Bin C), Z.land k (currentMask bm) = k) (bins bm).

(** Scenario 1 of the specification: mask 0xFFFFFFFFFFFFF000 and one
    message published to bin 0x1000 at instant [1]. *)
Definition scenario1 : BinManager MockClient :=
  AddMessage (NewBinManager 0xFFFFFFFFFFFFF000 3600000000000)
    (NewMessage 0x1000 "m1" []) (mkTime 1 0).

(** ** Invariant I3 *)

(** The messages of a bin are in non-decreasing timestamp order. *)
Definition time_le (a b : Message) : Prop :=
  t_ns (Timestamp a) ≤ t_ns (Timestamp b).

Definition I3 {C} (b : Bin C) : Prop := StronglySorted time_le (Messages b).

(** A message is expired at [cutoff] when its timestamp is [<= cutoff]. *)
Definition expired (cutoff : Time) (msg : Message) : Prop :=
  Time_After (Timestamp msg) cutoff = false.

(** A bin holding one message stamped with instant 1. *)
Definition stale_bin : Bin MockClient :=
  Bin_AddMessage (NewBin 0x1000)
    (set_Timestamp (NewMessage 0x1000 "m1" []) (mkTime 1 0)).

(** A message that is not mask-consistent for mask 0xFFFFFFFFFFFFF000, as a
    client may send it. *)
Definition stray_message : Message := NewMessage 0x1001 "m2" [].

Definition fresh_manager : BinManager MockClient :=
  NewBinManager 0xFFFFFFFFFFFFF000 3600000000000.

(** ** Contraction, as the specification words it *)

(** The old bins whose identifier the new mask sends to [newID], in the
    order in which the rebuilding loop visits them. *)
Definition colliding {C} (newMask newID : Z) (order : list (Z * Bin C))
  : list (Bin C) :=
  (filter (λ e, Z.land e.1 newMask = newID) order).*2.

(** The bin found under a new key once the bins of [bs] have been visited,
    [start] being what the key held before. *)
Definition merge_into {C} (start : option (Bin C)) (bs : list (Bin C))
  : option (Bin C) :=
  foldl (λ acc b, Some (match acc with
                        | Some a => mergeFrom a b
                        | None => b
                        end)) start bs.

(** A table with the two bins 0x2000 and 0x3000, which collide once bit 12
    leaves the mask; both hold a message and a subscriber named "c". *)
Definition two_bins : BinManager MockClient :=
  let bm0 := fresh_manager in
  let bm1 := AddMessage bm0 (NewMessage 0x2000 "a" []) (mkTime 1 0) in
  let bm2 := AddMessage bm1 (NewMessage 0x3000 "b" []) (mkTime 2 0) in
  let bm3 := Subscribe bm2 0x2000 "c" (mkMockClient false) in
  Subscribe bm3 0x3000 "c" (mkMockClient true).

(** ** The revocation manager ([certmanager.RevocationManager]) *)

Record RevocationManager : Type := mkRevocationManager {
  revokedCerts : gmap string Time;            (* certificate ID -> revocation time *)
  referrerMapping : gmap string (list string) (* referrerID -> childIDs *)
}.

Definition NewRevocationManager : RevocationManager :=
  mkRevocationManager ∅ ∅.

Definition RegisterCertificate (rm : RevocationManager)
    (certID referrerID : string) : RevocationManager :=
  if decide (referrerID = "") then rm
  else
    mkRevocationManager (revokedCerts rm)
      (<[referrerID := default [] (referrerMapping rm !! referrerID) ++ [certID]]>
         (referrerMapping rm)).

(** Successive readings of [time.Now()] are the values [clock 0],
    [clock 1], ... of a clock; a state carries the number of readings made
    so far. *)
Definition Clock : Type := nat → Time.

Definition Revoke (clock : Clock) (rm : RevocationManager) (n : nat)
    (certID : string) : RevocationManager * nat :=
  (mkRevocationManager (<[certID := clock n]> (revokedCerts rm))
     (referrerMapping rm), S n).

(** The recursive helper of [RevokeWithChildren].  [fuel] bounds the depth
    of the recursion; [None] is a recursion that did not return within it. *)
Fixpoint revokeRecursive (fuel : nat) (children : gmap string (list string))
    (clock : Clock) (id : string) (st : gmap string Time * nat)
  : option (gmap string Time * nat) :=
  match fuel with
  | O => None
  | S fuel' =>
      let st1 := (<[id := clock st.2]> st.1, S st.2) in
      match children !! id with
      | Some cs =>
          foldl (λ acc childID,
                   acc ≫= revokeRecursive fuel' children clock childID)
            (Some st1) cs
      | None => Some st1
      end
  end.

Definition RevokeWithChildren (fuel : nat) (clock : Clock)
    (rm : RevocationManager) (n : nat) (certID : string)
  : option (RevocationManager * nat) :=
  st ← revokeRecursive fuel (referrerMapping rm) clock certID
         (revokedCerts rm, n);
  Some (mkRevocationManager st.1 (referrerMapping rm), st.2).

Definition IsRevoked (rm : RevocationManager) (certID : string) : bool :=
  bool_decide (is_Some (revokedCerts rm !! certID)).

Definition GetChildCount (rm : RevocationManager) (referrerID : string) : nat :=
  match referrerMapping rm !! referrerID with
  | Some children => length children
  | None => 0%nat
  end.

(** [referrer_of children p c]: [c] is registered as a child of [p]. *)
Definition referrer_of (children : gmap string (list string))
    (p c : string) : Prop :=
  ∃ cs, children !! p = Some cs ∧ c ∈ cs.

(** The serials reachable from [root] through the children mapping,
    [root] included. *)
Definition reachable (children : gmap string (list string))
    (root s : string) : Prop :=
  rtc (referrer_of children) root s.

(** The children mapping is a tree below [root]: no serial reachable from
    [root] is its own descendant. *)
Definition acyclic_below (children : gmap string (list string))
    (root : string) : Prop :=
  ∀ s, reachable children root s → ¬ tc (referrer_of children) s s.

(** The same, as a well-foundedness: no chain of children that starts at
    [root] goes on for ever. *)
Definition tree_below (children : gmap string (list string))
    (root : string) : Prop :=
  Acc (λ c p, referrer_of children p c) root.

(** Scenario 4 of the specification: root -> {c1, c2}, c1 -> {g1, g2}. *)
Definition scenario4 : RevocationManager :=
  let rm1 := RegisterCertificate NewRevocationManager "c1" "root" in
  let rm2 := RegisterCertificate rm1 "c2" "root" in
  let rm3 := RegisterCertificate rm2 "g1" "c1" in
  RegisterCertificate rm3 "g2" "c1".

(** A certificate registered as its own referrer. *)
Definition self_referred : RevocationManager :=
  RegisterCertificate NewRevocationManager "a" "a".

Definition unix_clock : Clock := λ n, mkTime (Z.of_nat n + 1) 0.

(** What one visit of [revokeRecursive] at [id] achieves, from every
    starting state: it returns once the fuel is large enough, every serial
    reachable from [id] is then revoked, every other serial keeps its entry,
    and no entry is ever removed. *)
Definition visit_spec (children : gmap string (list string)) (clock : Clock)
    (id : string) : Prop :=
  ∀ st : gmap string Time * nat, ∃ (fuel : nat) (st' : gmap string Time * nat),
    (∀ fuel', (fuel ≤ fuel')%nat →
       revokeRecursive fuel' children clock id st = Some st') ∧
    (∀ s, reachable children id s → is_Some (st'.1 !! s)) ∧
    (∀ s, ¬ reachable children id s → st'.1 !! s = st.1 !! s) ∧
    (∀ s, is_Some (st.1 !! s) → is_Some (st'.1 !! s)).

(** ** Certificates ([x509.Certificate], as far as the server reads it) *)

Record Extension : Type := mkExtension {
  Id : list Z;          (* asn1.ObjectIdentifier *)
  Critical : bool;
  Value : list byte
}.

Record Certificate : Type := mkCertificate {
  SerialNumber : Z;
  Extensions : list Extension
}.

Definition ReferrerOID : list Z := [1; 3; 6; 1; 4; 1; 99999; 1; 1].

(** [cert.SerialNumber.String()]: the serial in decimal. *)
Definition Serial_String (cert : Certificate) : string :=
  pretty (SerialNumber cert).

(** [ExtractReferrerID]: the value of the first extension carrying the
    referrer OID, as a string; [None] is the error "referrer ID not found". *)
Definition ExtractReferrerID (cert : Certificate) : option string :=
  (λ ext, string_of_list_byte (Value ext))
    <$> List.find (λ ext, bool_decide (Id ext = ReferrerOID)) (Extensions cert).

(** ** The revocation endpoint ([Server.handleCertificateRevoke]) *)

Record RevokeRequest : Type := mkRevokeRequest {
  CertificateID : string;
  RevokeChildren : bool
}.

Record Request : Type := mkRequest {
  Method : string;
  PeerCertificates : option (list Certificate);  (* [None]: [r.TLS == nil] *)
  Body : option RevokeRequest                    (* [None]: undecodable body *)
}.

Definition StatusOK : Z := 200.
Definition StatusBadRequest : Z := 400.
Definition StatusUnauthorized : Z := 401.
Definition StatusForbidden : Z := 403.
Definition StatusMethodNotAllowed : Z := 405.

(** The handler answers with a status and leaves the revocation manager in
    a new state; [None] is a handler that did not return within the fuel
    given to [RevokeWithChildren]. *)
Definition handleCertificateRevoke (fuel : nat) (clock : Clock)
    (rm : RevocationManager) (n : nat) (r : Request)
  : option (Z * (RevocationManager * nat)) :=
  if negb (String.eqb (Method r) "POST") then
    Some (StatusMethodNotAllowed, (rm, n))
  else
    match PeerCertificates r with
    | None | Some [] => Some (StatusUnauthorized, (rm, n))
    | Some (cert :: _) =>
        match Body r with
        | None => Some (StatusBadRequest, (rm, n))
        | Some revokeRequest =>
            let clientCertID := Serial_String cert in
            let targetCertID := CertificateID revokeRequest in
            if negb (String.eqb targetCertID clientCertID)
               && match ExtractReferrerID cert with
                  | None => true
                  | Some referrerID => negb (String.eqb referrerID clientCertID)
                  end
            then Some (StatusForbidden, (rm, n))
            else if RevokeChildren revokeRequest then
              st ← RevokeWithChildren fuel clock rm n targetCertID;
              Some (StatusOK, st)
            else Some (StatusOK, Revoke clock rm n targetCertID)
        end
    end.

(** The certificate with serial 200 was issued on the referral of the
    certificate with serial 100, a bootstrap certificate without referrer
    extension; the holder of 100 asks for the revocation of 200. *)
Definition referrer_cert : Certificate := mkCertificate 100 [].

Definition referred_registry : RevocationManager :=
  RegisterCertificate NewRevocationManager "200" "100".

Definition revoke_referred : Request :=
  mkRequest "POST" (Some [referrer_cert]) (Some (mkRevokeRequest "200" false)).

(** A stranger: the certificate 300, referred by 100 as well, asks for the
    revocation of 200. *)
Definition stranger_cert : Certificate :=
  mkCertificate 300
    [mkExtension ReferrerOID false (list_byte_of_string "100")].

Definition revoke_by_stranger : Request :=
  mkRequest "POST" (Some [stranger_cert]) (Some (mkRevokeRequest "200" false)).

(** ** [time.Time.Format(time.RFC3339Nano)]

    The layout is [2006-01-02T15:04:05.999999999Z07:00]: the civil date and
    the time of day in the location of the instant, the fraction of the
    second without its trailing zeros (and left out when zero), and [Z] for
    an offset of zero or the signed offset in hours and minutes.  The
    numbers are written by [appendInt]: a sign when negative and at least
    as many digits as the field is wide. *)

Definition digit_char (n : Z) : ascii := ascii_of_nat (48 + Z.to_nat (n mod 10)).

(** [n] in decimal on [w] digits, zero-padded. *)
Fixpoint fixed_digits (w : nat) (n : Z) : string :=
  match w with
  | O => ""
  | S w' => fixed_digits w' (n / 10) +:+ String (digit_char n) ""
  end.

(** [n] zeros. *)
Fixpoint zeros (n : nat) : string :=
  match n with
  | O => ""
  | S n' => String "0" (zeros n')
  end.

(** [appendInt(b, x, width)]: a minus sign for a negative [x], then the
    decimal digits of its absolute value, padded with zeros on the left up
    to [width] digits. *)
Definition appendInt (x : Z) (width : nat) : string :=
  let digits := pretty (Z.abs x) in
  (if x <? 0 then "-" else "")
    +:+ zeros (width - String.length digits) +:+ digits.

(** The [w] digits of a fraction without the trailing zeros. *)
Fixpoint trim_zeros (w : nat) (n : Z) : string :=
  match w with
  | O => ""
  | S w' => if n mod 10 =? 0 then trim_zeros w' (n / 10)
            else fixed_digits w n
  end.

(** Year, month and day of the day number [d] counted from 0001-01-01, in
    the proleptic Gregorian calendar. *)
Definition civil_from_days (d : Z) : Z * Z * Z :=
  let z := d + 306 in                     (* days since 0000-03-01 *)
  let era := z / 146097 in
  let doe := z mod 146097 in
  let yoe := (doe - doe / 1460 + doe / 36524 - doe / 146096) / 365 in
  let doy := doe - (365 * yoe + yoe / 4 - yoe / 100) in
  let mp := (5 * doy + 2) / 153 in
  let day := doy - (153 * mp + 2) / 5 + 1 in
  let month := if mp <? 10 then mp + 3 else mp - 9 in
  let year := yoe + era * 400 + (if month <=? 2 then 1 else 0) in
  (year, month, day).

(** The zone: [Z] for the offset zero; otherwise the offset is converted
    to minutes, rounding towards zero, and written with the sign of the
    minutes, so that an offset of less than a minute west is written
    [+00:00]. *)
Definition format_offset (offset : Z) : string :=
  if offset =? 0 then "Z"
  else
    let zone := Z.quot offset 60 in
    let minutes := Z.abs zone in
    (if zone <? 0 then "-" else "+")
      +:+ appendInt (minutes / 60) 2 +:+ ":" +:+ appendInt (minutes mod 60) 2.

Definition Format_RFC3339Nano (t : Time) : string :=
  let local := t_ns t + t_offset t * 1000000000 in
  let secs := local / 1000000000 in
  let nanos := local mod 1000000000 in
  let '(year, month, day) := civil_from_days (secs / 86400) in
  let sod := secs mod 86400 in
  appendInt year 4 +:+ "-" +:+ appendInt month 2 +:+ "-"
    +:+ appendInt day 2 +:+ "T"
    +:+ appendInt (sod / 3600) 2 +:+ ":"
    +:+ appendInt (sod mod 3600 / 60) 2 +:+ ":"
    +:+ appendInt (sod mod 60) 2
    +:+ (if nanos =? 0 then "" else "." +:+ trim_zeros 9 nanos)
    +:+ format_offset (t_offset t).

(** ** The wire form of a message ([Message.MarshalJSON]) *)

(** The values that occur in the wire frames; a byte slice is written in
    base64 by the encoder. *)
Inductive JSON : Type :=
  | JNumber (z : Z)
  | JString (s : string)
  | JBytes (bs : list byte).

(** An object as the encoder writes it: its fields, in order. *)
Definition JObject : Type := list (string * JSON).

(** A string field tagged [omitempty]. *)
Definition omitempty (name value : string) : JObject :=
  if String.eqb value "" then [] else [(name, JString value)].

(** The encoded struct embeds the message, whose own [timestamp] field is
    hidden by the outer field of the same name, a string: empty for the zero
    instant, the formatted instant otherwise. *)
Definition MarshalJSON (m : Message) : JObject :=
  let Timestamp_string :=
    if Time_IsZero (Timestamp m) then ""
    else Format_RFC3339Nano (Timestamp m) in
  [("bin_id", JNumber (BinID m));
   ("message_id", JString (MessageID m));
   ("ciphertext", JBytes (Ciphertext m))]
  ++ omitempty "timestamp" Timestamp_string.

Definition has_field (name : string) (o : JObject) : bool :=
  bool_decide (name ∈ o.*1).

(** What [handleWebSocket] writes to a subscriber for one requested bin: the
    recent messages of the bin, each through [conn.WriteJSON]. *)
Definition replay_frames {C} (bm : BinManager C) (binID : Z) (now : Time)
  : list JObject :=
  MarshalJSON <$> GetRecentMessages bm binID now.

(** What a subscriber is sent on a publish: the stamped message, through
    [Client.SendMessage] and [conn.WriteJSON]. *)
Definition fanout_frame (msg : Message) (now : Time) : JObject :=
  MarshalJSON (set_Timestamp msg now).

(** The instant of [TestMessageTimestampFormatting]:
    2023-01-01T12:34:56.789 UTC. *)
Definition test_instant : Time :=
  mkTime ((738520 * 86400 + 12 * 3600 + 34 * 60 + 56) * 1000000000 + 789000000) 0.

(** The message of the test suite, published at [test_instant]. *)
Definition test_message : Message :=
  NewMessage 0x1000 "test-msg-id" (list_byte_of_string "test-data").

Definition published_test : BinManager MockClient :=
  AddMessage fresh_manager test_message test_instant.

(** ** Key vault helpers ([internal/keystore], [pkg/crypto]) *)

#[global] Instance byte_eq_decision : EqDecision byte := Byte.byte_eq_dec.

(** A Go result: a value, or an error with its message. *)
Inductive Result (A : Type) : Type :=
  | Ok (a : A)
  | Err (e : string).
Arguments Ok {A} _.
Arguments Err {A} _.

(** The primitives of the Go libraries that the helpers call: AES-GCM
    sealing and opening without additional data ([cipher.AEAD]),
    HMAC-SHA256 and argon2id. *)
Class GoCrypto : Type := {
  gcm_seal : list byte → list byte → list byte → list byte;
      (* key, nonce, plaintext *)
  gcm_open : list byte → list byte → list byte → option (list byte);
      (* key, nonce, ciphertext *)
  hmac_sha256 : list byte → list byte → list byte;
      (* key, data *)
  argon2_IDKey : list byte → list byte → Z → Z → Z → nat → list byte
      (* password, salt, time, memory, threads, keyLen *)
}.

(** What the library documents of AES-256-GCM: opening what was sealed
    under the same 32-byte key and 12-byte nonce gives the plaintext back. *)
Definition gcm_open_seal `{GoCrypto} : Prop :=
  ∀ key nonce plaintext : list byte,
    length key = 32%nat → length nonce = 12%nat →
    gcm_open key nonce (gcm_seal key nonce plaintext) = Some plaintext.

(** What the library documents of argon2id: the derived key has the length
    asked for. *)
Definition argon2_IDKey_length `{GoCrypto} : Prop :=
  ∀ (password salt : list byte) (time memory threads : Z) (keyLen : nat),
    length (argon2_IDKey password salt time memory threads keyLen) = keyLen.

(** [crypto/rand.Reader], as the bytes it is going to deliver; reading past
    them is a failed read. *)
Definition RandReader : Type := list byte.

(** [io.ReadFull(rand.Reader, buf)] for a buffer of [n] bytes: the error
    is [io.EOF] when no byte could be read and [io.ErrUnexpectedEOF] when
    the source ends after some bytes but before the [n]-th; a failed read
    uses up what the source had. *)
Definition ReadFull (n : nat) (rand : RandReader)
  : Result (list byte) * RandReader :=
  if decide (n ≤ length rand)%nat then (Ok (take n rand), drop n rand)
  else
    match rand with
    | [] => (Err "EOF", [])
    | _ :: _ => (Err "unexpected EOF", [])
    end.

(** [aes.KeySizeError(k).Error()]. *)
Definition KeySizeError (k : nat) : string :=
  "crypto/aes: invalid key size " +:+ pretty k.

(** [aes.NewCipher]: the key must be 16, 24 or 32 bytes long. *)
Definition NewCipher (key : list byte) : Result (list byte) :=
  if bool_decide (length key ∈ [16; 24; 32]%nat) then Ok key
  else Err (KeySizeError (length key)).

(** [cipher.NewGCM] on an AES block never fails; its nonces are 12 bytes. *)
Definition NewGCM (block : list byte) : Result (list byte) := Ok block.

Definition NonceSize : nat := 12.

Record KeyPair : Type := mkKeyPair {
  EncryptionKey : list byte;
  HMACKey : list byte
}.

Section keystore.
Context `{GoCrypto}.

Definition AESGCMEncrypt (plaintext key : list byte) (rand : RandReader)
  : Result (list byte * list byte) * RandReader :=
  match NewCipher key with
  | Err e => (Err e, rand)
  | Ok block =>
      match ReadFull 12 rand with
      | (Err e, rand') => (Err e, rand')
      | (Ok nonce, rand') =>
          match NewGCM block with
          | Err e => (Err e, rand')
          | Ok aesgcm => (Ok (gcm_seal aesgcm nonce plaintext, nonce), rand')
          end
      end
  end.

Definition AESGCMDecrypt (ciphertext key nonce : list byte)
  : Result (list byte) :=
  match NewCipher key with
  | Err e => Err e
  | Ok block =>
      match NewGCM block with
      | Err e => Err e
      | Ok aesgcm =>
          if negb (length nonce =? NonceSize)%nat then Err "invalid nonce size"
          else
            match gcm_open aesgcm nonce ciphertext with
            | None => Err "cipher: message authentication failed"
            | Some plaintext => Ok plaintext
            end
      end
  end.

Definition DeriveKeyFromPassword (password : string) (salt : list byte)
  : KeyPair :=
  let derivedKey :=
    argon2_IDKey (list_byte_of_string password) salt 1 (64 * 1024) 4 64 in
  mkKeyPair (take 32 derivedKey) (drop 32 derivedKey).

Definition EncryptKey (keyData encryptionKey : list byte) (rand : RandReader)
  : Result (list byte * list byte) * RandReader :=
  AESGCMEncrypt keyData encryptionKey rand.

Definition DecryptKey (ciphertext nonce encryptionKey : list byte)
  : Result (list byte) :=
  AESGCMDecrypt ciphertext encryptionKey nonce.

(** [hmac.Equal]: a comparison in constant time, true on equal slices. *)
Definition hmac_Equal (mac1 mac2 : list byte) : bool :=
  bool_decide (mac1 = mac2).

Definition EncryptAndAuthenticate (data : list byte) (keypair : KeyPair)
    (rand : RandReader)
  : Result (list byte * list byte * list byte) * RandReader :=
  match EncryptKey data (EncryptionKey keypair) rand with
  | (Err e, rand') => (Err e, rand')
  | (Ok (ciphertext, nonce), rand') =>
      let mac := hmac_sha256 (HMACKey keypair) (ciphertext ++ nonce) in
      (Ok (ciphertext, nonce, mac), rand')
  end.

Definition VerifyAndDecrypt (ciphertext nonce mac : list byte)
    (keypair : KeyPair) : Result (list byte) :=
  let expectedMAC := hmac_sha256 (HMACKey keypair) (ciphertext ++ nonce) in
  if negb (hmac_Equal mac expectedMAC) then Err "HMAC verification failed"
  else DecryptKey ciphertext nonce (EncryptionKey keypair).
End keystore.

(** A stand-in for the primitives, to run the helpers on: sealing appends
    the first 16 bytes of nonce and key as a tag, opening checks the tag. *)
Definition toy_tag (key nonce : list byte) : list byte := take 16 (nonce ++ key).

Definition toy_seal (key nonce plaintext : list byte) : list byte :=
  plaintext ++ toy_tag key nonce.

Definition toy_open (key nonce ciphertext : list byte) : option (list byte) :=
  let n := (length ciphertext - 16)%nat in
  if bool_decide (drop n ciphertext = toy_tag key nonce ∧
                  (16 ≤ length ciphertext)%nat)
  then Some (take n ciphertext) else None.

Definition toy_hmac (key data : list byte) : list byte := take 32 (key ++ data).

Definition toy_argon2 (password salt : list byte) (time memory threads : Z)
    (keyLen : nat) : list byte :=
  take keyLen (password ++ salt ++ replicate keyLen Byte.x00).

Definition toy_crypto : GoCrypto :=
  Build_GoCrypto toy_seal toy_open toy_hmac toy_argon2.

Definition toy_keypair : KeyPair :=
  @DeriveKeyFromPassword toy_crypto "p" (list_byte_of_string "0123456789abcdef").

Definition toy_data : list byte := list_byte_of_string "secret key material".

Definition toy_rand : RandReader := list_byte_of_string "twelve bytes and more".

(** ** Inputs of the test suite *)

Definition hour : Duration := 3600000000000.
Definition minute : Duration := 60000000000.

(** The instant the tests call [now]. *)
Definition test_now : Time := test_instant.

(** The bin of [TestBinRemoveMessagesBefore]: four messages stamped three,
    two and one hour before [now], and [now]. *)
Definition four_messages : Bin MockClient :=
  let stamped id d := set_Timestamp (NewMessage 0x1000 id []) (Time_Add test_now d) in
  foldl Bin_AddMessage (NewBin 0x1000)
    [stamped "msg1" (-3 * hour); stamped "msg2" (-2 * hour);
     stamped "msg3" (-1 * hour); stamped "msg4" 0].

(** The two bins of [TestBinMergeFrom]. *)
Definition merge_bin1 : Bin MockClient :=
  AddClient
    (Bin_AddMessage (NewBin 0x1000)
       (set_Timestamp (NewMessage 0x1000 "msg1" []) (Time_Add test_now (- hour))))
    "client1" (mkMockClient false).

Definition merge_bin2 : Bin MockClient :=
  AddClient
    (Bin_AddMessage (NewBin 0x2000)
       (set_Timestamp (NewMessage 0x2000 "msg2" []) test_now))
    "client2" (mkMockClient false).

(** The manager of [TestBinManagerExpandContract] and
    [TestBinManagerMultipleExpand]: mask 0xFFFFFFFFFFFFF000, retention of
    one hour. *)
Definition expand_manager : BinManager MockClient :=
  NewBinManager 0xFFFFFFFFFFFFF000 hour.

(** ** Further notions on the bin table *)

(** I3 for every live bin. *)
Definition I3_all {C} (bm : BinManager C) : Prop :=
  map_Forall (λ _ b, I3 b) (bins bm).

(** Every message held by a table, bin after bin. *)
Definition all_messages {C} (table : gmap Z (Bin C)) : list Message :=
  concat (Messages <$> (map_to_list table).*2).

(** The table of [two_bins] seen ten instants later, for the examples. *)
Definition later_instant : Time := mkTime 12 0.

(** ** Sequences of revocation operations *)

(** The calls that change a revocation manager. *)
Inductive RevocationOp : Type :=
  | OpRegisterCertificate (certID referrerID : string)
  | OpRevoke (certID : string)
  | OpRevokeWithChildren (certID : string).

Definition apply_op (fuel : nat) (clock : Clock)
    (st : RevocationManager * nat) (op : RevocationOp)
  : option (RevocationManager * nat) :=
  match op with
  | OpRegisterCertificate certID referrerID =>
      Some (RegisterCertificate st.1 certID referrerID, st.2)
  | OpRevoke certID => Some (Revoke clock st.1 st.2 certID)
  | OpRevokeWithChildren certID =>
      RevokeWithChildren fuel clock st.1 st.2 certID
  end.

(** The calls of [ops] one after the other; [None] when one of them does
    not return. *)
Definition apply_ops (fuel : nat) (clock : Clock)
    (st : RevocationManager * nat) (ops : list RevocationOp)
  : option (RevocationManager * nat) :=
  foldl (λ acc op, acc ≫= λ st', apply_op fuel clock st' op) (Some st) ops.

(** ** The handshake hook ([VerifyPeerCertificate] of [setupTLSConfig]) *)

Definition ErrCertificateRevoked : string := "certificate is revoked".
Definition ErrReferrerRevoked : string := "referrer certificate is revoked".

(** [None] is a [nil] error: the handshake goes on. *)
Definition VerifyPeerCertificate (rm : RevocationManager)
    (verifiedChains : list (list Certificate)) : option string :=
  match verifiedChains with
  | [] | [] :: _ => None
  | (cert :: _) :: _ =>
      let certID := Serial_String cert in
      if IsRevoked rm certID then Some ErrCertificateRevoked
      else
        match ExtractReferrerID cert with
        | Some referrerID =>
            if negb (String.eqb referrerID "") && IsRevoked rm referrerID
            then Some ErrReferrerRevoked
            else None
        | None => None
        end
  end.

(** The certificate 200 of [referred_registry], as the authority issues it:
    with the referrer extension naming 100. *)
Definition referred_cert : Certificate :=
  mkCertificate 200
    [mkExtension ReferrerOID false (list_byte_of_string "100")].

(** ** The key store ([keystore.EncryptedKeyStore]) *)

Record EncryptedKeyData : Type := mkEncryptedKeyData {
  CertID : string;
  EncryptedKey : list byte;
  IV : list byte;
  HMAC : list byte;
  CreatedAt : Time;
  UpdatedAt : Time
}.

Record EncryptedKeyStore : Type := mkEncryptedKeyStore {
  store : gmap string EncryptedKeyData
}.

Definition NewEncryptedKeyStore : EncryptedKeyStore := mkEncryptedKeyStore ∅.

(** [StoreKey] returns its error ([None] for [nil]) and leaves the store in
    a new state; [now] is the reading of [time.Now()]. *)
Definition StoreKey (eks : EncryptedKeyStore) (certID : string)
    (encryptedKey iv hmac : list byte) (now : Time)
  : option string * EncryptedKeyStore :=
  if String.eqb certID "" then
    (Some "certificate ID cannot be empty", eks)
  else
    match store eks !! certID with
    | Some existing =>
        (None,
         mkEncryptedKeyStore
           (<[certID := mkEncryptedKeyData (CertID existing) encryptedKey iv
                          hmac (CreatedAt existing) now]> (store eks)))
    | None =>
        (None,
         mkEncryptedKeyStore
           (<[certID := mkEncryptedKeyData certID encryptedKey iv hmac now
                          now]> (store eks)))
    end.

Definition GetKey (eks : EncryptedKeyStore) (certID : string)
  : Result EncryptedKeyData :=
  match store eks !! certID with
  | Some keyData => Ok keyData
  | None => Err "key not found for certificate ID"
  end.

Definition DeleteKey (eks : EncryptedKeyStore) (certID : string)
  : option string * EncryptedKeyStore :=
  match store eks !! certID with
  | None => (Some "key not found for certificate ID", eks)
  | Some _ => (None, mkEncryptedKeyStore (delete certID (store eks)))
  end.

(** [order] is the order in which [range eks.store] visits the map. *)
Definition ListKeys (order : list (string * EncryptedKeyData)) : list string :=
  order.*1.

(** The calls that change a key store, with the clock reading of each. *)
Inductive StoreOp : Type :=
  | OpStoreKey (certID : string) (encryptedKey iv hmac : list byte) (now : Time)
  | OpDeleteKey (certID : string).

Definition apply_store_op (eks : EncryptedKeyStore) (op : StoreOp)
  : EncryptedKeyStore :=
  match op with
  | OpStoreKey certID encryptedKey iv hmac now =>
      (StoreKey eks certID encryptedKey iv hmac now).2
  | OpDeleteKey certID => (DeleteKey eks certID).2
  end.

(** Every record is filed under its own certificate identifier, which is
    not empty, and was not updated before it was created. *)
Definition store_consistent (eks : EncryptedKeyStore) : Prop :=
  map_Forall (λ k d, CertID d = k ∧ k ≠ "" ∧
                     t_ns (CreatedAt d) ≤ t_ns (UpdatedAt d)) (store eks).

(** The clock readings of a sequence of calls never go back. *)
Fixpoint clock_ordered (last : Z) (ops : list StoreOp) : Prop :=
  match ops with
  | [] => True
  | OpStoreKey _ _ _ _ now :: rest =>
      last ≤ t_ns now ∧ clock_ordered (t_ns now) rest
  | OpDeleteKey _ :: rest => clock_ordered last rest
  end.

(** A store holding one key, filed at instant 3 under "100". *)
Definition one_key_store : EncryptedKeyStore :=
  (StoreKey NewEncryptedKeyStore "100" (list_byte_of_string "ct")
     (list_byte_of_string "iv") (list_byte_of_string "mac") (mkTime 3 0)).2.

(** ** Padding and AES-CBC ([pkg/crypto]) *)

(** A call returns or stops the program with a run-time panic. *)
Inductive Outcome (A : Type) : Type :=
  | Returns (a : A)
  | Panics.
Arguments Returns {A} _.
Arguments Panics {A}.

(** The conversions [byte(n)] and [int(b)]. *)
Definition byte_of_Z (n : Z) : byte :=
  default Byte.x00 (Byte.of_N (Z.to_N (n mod 256))).

Definition Z_of_byte (b : byte) : Z := Z.of_N (Byte.to_N b).

(** [pkcs7Pad]: a block size of zero panics in the remainder, a negative
    one in the allocation of the padding. *)
Definition pkcs7Pad (data : list byte) (blockSize : Z) : Outcome (list byte) :=
  if blockSize =? 0 then Panics
  else
    let padding := blockSize - Z.rem (Z.of_nat (length data)) blockSize in
    if padding <? 0 then Panics
    else Returns (data ++ replicate (Z.to_nat padding) (byte_of_Z padding)).

(** [pkcs7Unpad]: the loop over the padding bytes starts at index
    [length - padding] and panics when that index is negative. *)
Definition pkcs7Unpad (data : list byte) (blockSize : Z)
  : Outcome (Result (list byte)) :=
  match last data with
  | None => Returns (Err "empty data")
  | Some b =>
      let len := Z.of_nat (length data) in
      let padding := Z_of_byte b in
      if (blockSize <? padding) || (padding =? 0) then
        Returns (Err "invalid padding")
      else if len <? padding then Panics
      else if forallb (λ x, Byte.eqb x (byte_of_Z padding))
                (drop (Z.to_nat (len - padding)) data)
      then Returns (Ok (take (Z.to_nat (len - padding)) data))
      else Returns (Err "invalid padding")
  end.

(** The CBC mode of the Go library over an AES block: what [CryptBlocks]
    writes for an encrypter and for a decrypter made from a key and an
    initialisation vector. *)
Class GoCBC : Type := {
  cbc_encrypt : list byte → list byte → list byte → list byte;
      (* key, iv, source *)
  cbc_decrypt : list byte → list byte → list byte → list byte
}.

(** What the library documents of CBC: the output has the length of the
    input, and decrypting whole blocks encrypted under the same AES key and
    16-byte vector gives them back. *)
Definition cbc_laws `{GoCBC} : Prop :=
  (∀ key iv src, length (cbc_encrypt key iv src) = length src) ∧
  (∀ key iv src, length (cbc_decrypt key iv src) = length src) ∧
  (∀ key iv src,
     length key ∈ [16; 24; 32]%nat → length iv = 16%nat →
     Z.of_nat (length src) mod 16 = 0 →
     cbc_decrypt key iv (cbc_encrypt key iv src) = src).

Definition BlockSize : Z := 16.

(** [mode.CryptBlocks(dst, src)] with [dst] as long as [src]: it panics on
    input that is not made of whole blocks. *)
Definition CryptBlocks (mode : list byte → list byte) (src : list byte)
  : Outcome (list byte) :=
  if Z.of_nat (length src) mod BlockSize =? 0 then Returns (mode src)
  else Panics.

Section cbc.
Context `{GoCBC}.

Definition AESCBCEncrypt (plaintext key iv : list byte)
  : Outcome (Result (list byte)) :=
  match NewCipher key with
  | Err e => Returns (Err e)
  | Ok block =>
      match pkcs7Pad plaintext BlockSize with
      | Panics => Panics
      | Returns padded =>
          if negb (Z.of_nat (length iv) =? BlockSize) then
            Returns (Err "iv length must equal block size")
          else
            match CryptBlocks (cbc_encrypt block iv) padded with
            | Panics => Panics
            | Returns ciphertext => Returns (Ok ciphertext)
            end
      end
  end.

Definition AESCBCDecrypt (ciphertext key iv : list byte)
  : Outcome (Result (list byte)) :=
  match NewCipher key with
  | Err e => Returns (Err e)
  | Ok block =>
      if negb (Z.of_nat (length iv) =? BlockSize) then
        Returns (Err "iv length must equal block size")
      else if negb (Z.of_nat (length ciphertext) mod BlockSize =? 0) then
        Returns (Err "ciphertext is not a multiple of the block size")
      else
        match CryptBlocks (cbc_decrypt block iv) ciphertext with
        | Panics => Panics
        | Returns plaintext => pkcs7Unpad plaintext BlockSize
        end
  end.
End cbc.

(** [GenerateRandomIV] and [GenerateSalt]: [size] bytes of the random
    source, or its error. *)
Definition GenerateRandomIV (size : nat) (rand : RandReader)
  : Result (list byte) * RandReader :=
  ReadFull size rand.

(** A stand-in for the CBC mode, to run the helpers on: every byte is
    exchanged with its complement to 255. *)
Definition toy_flip (b : byte) : byte :=
  byte_of_Z (255 - Z_of_byte b).

Definition toy_cbc : GoCBC :=
  Build_GoCBC (λ _ _ src, toy_flip <$> src) (λ _ _ src, toy_flip <$> src).

Definition toy_key16 : list byte := list_byte_of_string "0123456789abcdef".

(** ** The streaming endpoint ([Server.handleWebSocket])

    The handler is followed from the first frame of an upgraded connection
    to the acknowledgement, and at the end of its inbound loop.  It is
    followed alone: no other connection acts on the bin manager between two
    of its steps. *)

(** [time.Time.Format(time.RFC3339)]: as [RFC3339Nano] without the fraction
    of the second. *)
Definition Format_RFC3339 (t : Time) : string :=
  let local := t_ns t + t_offset t * 1000000000 in
  let secs := local / 1000000000 in
  let '(year, month, day) := civil_from_days (secs / 86400) in
  let sod := secs mod 86400 in
  appendInt year 4 +:+ "-" +:+ appendInt month 2 +:+ "-"
    +:+ appendInt day 2 +:+ "T"
    +:+ appendInt (sod / 3600) 2 +:+ ":"
    +:+ appendInt (sod mod 3600 / 60) 2 +:+ ":"
    +:+ appendInt (sod mod 60) 2
    +:+ format_offset (t_offset t).

(** The first frame of a connection, decoded. *)
Record SubscriptionMsg : Type := mkSubscriptionMsg {
  Type_ : string;
  BinIDs : list Z;
  ClientID : string
}.

(** The transport: [writes w] tells whether the write number [w] of the
    connection succeeds. *)
Definition Transport : Type := nat → bool.

(** Where the handler stands after the subscription: subscribed and
    acknowledged, about to read the inbound frames, or returned.  Both carry
    the bin manager as the handler leaves it and the frames written. *)
Inductive Phase (C : Type) : Type :=
  | Subscribed (bm : BinManager C) (clientID : string)
      (written : list JObject) (k w : nat)
  | Returned (bm : BinManager C) (written : list JObject).
Arguments Subscribed {C} _ _ _ _ _.
Arguments Returned {C} _ _.

(** [conn.WriteJSON] for each frame in turn, until one fails. *)
Fixpoint write_all (writes : Transport) (w : nat) (frames written : list JObject)
  : list JObject * nat * bool :=
  match frames with
  | [] => (written, w, true)
  | frame :: rest =>
      if writes w then write_all writes (S w) rest (written ++ [frame])
      else (written, S w, false)
  end.

Section websocket.
Context {C : Type}.

(** The loop over the requested bins: subscribe, read the recent messages,
    write them. *)
Fixpoint subscribe_each (clock : Clock) (writes : Transport)
    (clientID : string) (client : C) (binIDs : list Z) (bm : BinManager C)
    (k w : nat) (written : list JObject) : Phase C :=
  match binIDs with
  | [] => Subscribed bm clientID written k w
  | binID :: rest =>
      let bm1 := Subscribe bm binID clientID client in
      let recentMessages := GetRecentMessages bm1 binID (clock k) in
      match write_all writes w (MarshalJSON <$> recentMessages) written with
      | (written', w', true) =>
          subscribe_each clock writes clientID client rest bm1 (S k) w' written'
      | (written', _, false) => Returned bm1 written'
      end
  end.

(** The acknowledgement, a map, is written with its keys in order. *)
Definition subscribe_ack (clientID : string) (bin_count : nat) (now : Time)
  : JObject :=
  [("bin_count", JNumber (Z.of_nat bin_count));
   ("client_id", JString clientID);
   ("timestamp", JString (Format_RFC3339 now));
   ("type", JString "subscribe_ack")].

(** From the first frame to the acknowledgement.  [first] is the first
    frame ([None] when it cannot be read), [uuid] the identifier that
    [uuid.New()] would give. *)
Definition subscription_phase (clock : Clock) (writes : Transport)
    (uuid : string) (client : C) (bm : BinManager C) (k w : nat)
    (first : option SubscriptionMsg) : Phase C :=
  match first with
  | None => Returned bm []
  | Some subscriptionMsg =>
      if negb (String.eqb (Type_ subscriptionMsg) "subscribe") then
        Returned bm []
      else
        let clientID :=
          if String.eqb (ClientID subscriptionMsg) "" then uuid
          else ClientID subscriptionMsg in
        match subscribe_each clock writes clientID client
                (BinIDs subscriptionMsg) bm k w [] with
        | Returned bm' written => Returned bm' written
        | Subscribed bm' _ written k' w' =>
            let ack := subscribe_ack clientID
                         (length (BinIDs subscriptionMsg)) (clock k') in
            if writes w' then
              Subscribed bm' clientID (written ++ [ack]) (S k') (S w')
            else Returned bm' written
        end
  end.

(** The end of the inbound loop: every requested bin is unsubscribed. *)
Definition unsubscribe_all (bm : BinManager C) (binIDs : list Z)
    (clientID : string) : BinManager C :=
  foldl (λ bm' binID, Unsubscribe bm' binID clientID) bm binIDs.

(** The frames of a replay of [binIDs], the clock being read once for each
    bin. *)
Fixpoint replays (clock : Clock) (bm : BinManager C) (k : nat)
    (binIDs : list Z) : list JObject :=
  match binIDs with
  | [] => []
  | binID :: rest =>
      (MarshalJSON <$> GetRecentMessages bm binID (clock k))
        ++ replays clock bm (S k) rest
  end.

(** [clientID] is filed with the handle [client] in the bin [binID]. *)
Definition filed (bm : BinManager C) (binID : Z) (clientID : string)
    (client : C) : Prop :=
  (bins bm !! binID ≫= λ b, Clients b !! clientID) = Some client.
End websocket.

(** A transport whose write number [n] fails. *)
Definition breaks_at (n : nat) : Transport := λ w, negb (w =? n)%nat.

Definition subscribe_request : SubscriptionMsg :=
  mkSubscriptionMsg "subscribe" [0x2000; 0x3000] "".

Section websocket_states.
Context {C : Type}.

(** The bin manager after the subscriptions of the bins [binIDs]. *)
Definition subscribe_all (bm : BinManager C) (binIDs : list Z)
    (clientID : string) (client : C) : BinManager C :=
  foldl (λ bm' binID, Subscribe bm' binID clientID client) bm binIDs.

(** Two bin managers that hold the same messages under the same settings. *)
Definition same_messages (bm bm' : BinManager C) : Prop :=
  currentMask bm' = currentMask bm ∧ retention bm' = retention bm ∧
  ∀ binID, default [] (Messages <$> bins bm' !! binID)
           = default [] (Messages <$> bins bm !! binID).
End websocket_states.

(** A bin manager with two messages in the bin [0x2000]. *)
Definition replay_manager : BinManager WsClient :=
  AddMessage
    (AddMessage (NewBinManager 0xF000 (3600 * 1000000000))
       (NewMessage 0x2000 "m1" []) (mkTime 1000 0))
    (NewMessage 0x2000 "m2" []) (mkTime 2000 0).

Definition replay_clock : Clock := λ k, mkTime (3000 + Z.of_nat k) 0.

Definition open_client : WsClient := mkWsClient false true.

(** * Properties *)

(** ** Bit-level facts *)

Lemma land_pow2 (m i : Z) :
  0 ≤ i → Z.land m (2 ^ i) = if Z.testbit m i then 2 ^ i else 0.
Proof.
  intros Hi. apply Z.bits_inj'. intros n Hn.
  rewrite Z.land_spec, Z.pow2_bits_eqb by done.
  destruct (Z.eqb_spec i n) as [->|Hne].
  - destruct (Z.testbit m n) eqn:E; rewrite ?andb_true_r.
    + by rewrite Z.pow2_bits_true.
    + by rewrite Z.bits_0.
  - rewrite andb_false_r.
    destruct (Z.testbit m i); [|by rewrite Z.bits_0].
    rewrite Z.pow2_bits_false; [done|congruence].
Qed.

Lemma scan_bit_lt (i : Z) : 0 ≤ i < 64 → scan_bit i = 2 ^ i.
Proof.
  intros Hi. unfold scan_bit, u64_modulus. apply Z.mod_small.
  split; [apply Z.pow_nonneg; lia|]. apply Z.pow_lt_mono_r; lia.
Qed.

Lemma scan_bit_64 : scan_bit 64 = 0.
Proof. reflexivity. Qed.

Lemma shl1_scan_bit (i : Z) : 0 ≤ i < 64 → shl1 (scan_bit i) = scan_bit (i + 1).
Proof.
  intros Hi. rewrite scan_bit_lt by done. unfold shl1, scan_bit.
  rewrite Z.shiftl_mul_pow2 by lia.
  rewrite Z.pow_add_r by lia. done.
Qed.

Lemma pow2_nonzero (i : Z) : 0 ≤ i → 2 ^ i ≠ 0.
Proof. intros Hi. apply Z.pow_nonzero; lia. Qed.

Lemma expand_scan_find (mask : Z) (fuel i : nat) :
  (i + fuel = 64)%nat →
  expand_scan fuel mask (scan_bit (Z.of_nat i)) =
    Some (match List.find (λ j, negb (Z.testbit mask j))
                  (seqZ (Z.of_nat i) (Z.of_nat fuel)) with
          | Some k => 2 ^ k
          | None => 0
          end).
Proof.
  revert i. induction fuel as [|fuel IH]; intros i Hi.
  - replace i with 64%nat by lia. change (scan_bit (Z.of_nat 64)) with 0.
    cbn. by rewrite Z.land_0_r.
  - rewrite seqZ_cons by lia. cbn [List.find expand_scan].
    rewrite scan_bit_lt by lia. rewrite land_pow2 by lia.
    destruct (Z.testbit mask (Z.of_nat i)) eqn:Hbit; cbn [negb].
    + destruct (Z.eqb_spec (2 ^ Z.of_nat i) 0) as [H0|_];
        [by apply pow2_nonzero in H0; [|lia]|].
      cbn [negb andb]. rewrite <- scan_bit_lt by lia.
      rewrite shl1_scan_bit by lia.
      replace (Z.succ (Z.of_nat i)) with (Z.of_nat (S i)) by lia.
      replace (Z.pred (Z.of_nat (S fuel))) with (Z.of_nat fuel) by lia.
      replace (Z.of_nat i + 1) with (Z.of_nat (S i)) by lia.
      apply IH. lia.
    + done.
Qed.

Lemma contract_scan_find (mask : Z) (fuel i : nat) :
  (i + fuel = 64)%nat →
  contract_scan fuel mask (scan_bit (Z.of_nat i)) =
    Some (match List.find (λ j, Z.testbit mask j)
                  (seqZ (Z.of_nat i) (Z.of_nat fuel)) with
          | Some k => 2 ^ k
          | None => 0
          end).
Proof.
  revert i. induction fuel as [|fuel IH]; intros i Hi.
  - replace i with 64%nat by lia. change (scan_bit (Z.of_nat 64)) with 0.
    cbn. by rewrite Z.land_0_r.
  - rewrite seqZ_cons by lia. cbn [List.find contract_scan].
    rewrite scan_bit_lt by lia. rewrite land_pow2 by lia.
    destruct (Z.testbit mask (Z.of_nat i)) eqn:Hbit.
    + destruct (Z.eqb_spec (2 ^ Z.of_nat i) 0) as [H0|_];
        [by apply pow2_nonzero in H0; [|lia]|]. done.
    + destruct (Z.eqb_spec (2 ^ Z.of_nat i) 0) as [H0|_];
        [by apply pow2_nonzero in H0; [|lia]|].
      cbn [negb andb Z.eqb]. rewrite <- scan_bit_lt by lia.
      rewrite shl1_scan_bit by lia.
      replace (Z.succ (Z.of_nat i)) with (Z.of_nat (S i)) by lia.
      replace (Z.pred (Z.of_nat (S fuel))) with (Z.of_nat fuel) by lia.
      replace (Z.of_nat i + 1) with (Z.of_nat (S i)) by lia.
      apply IH. lia.
Qed.

Lemma find_seqZ_Some (P : Z → bool) (n : nat) (m k : Z) :
  List.find P (seqZ m (Z.of_nat n)) = Some k ↔
  m ≤ k < m + Z.of_nat n ∧ P k = true ∧ ∀ j, m ≤ j < k → P j = false.
Proof.
  revert m. induction n as [|n IH]; intros m.
  - cbn. split; [done|lia].
  - rewrite seqZ_cons by lia. cbn [List.find].
    replace (Z.pred (Z.of_nat (S n))) with (Z.of_nat n) by lia.
    destruct (P m) eqn:Hm.
    + split.
      * intros [= <-]. repeat split; [lia..|done|]. intros j Hj. lia.
      * intros (Hk & HP & Hlow). f_equal.
        destruct (decide (m = k)) as [|Hne]; [done|].
        specialize (Hlow m). rewrite Hm in Hlow. discriminate Hlow. lia.
    + rewrite IH. split.
      * intros (Hk & HP & Hlow). repeat split; [lia..|done|].
        intros j Hj. destruct (decide (j = m)) as [->|]; [done|].
        apply Hlow. lia.
      * intros (Hk & HP & Hlow).
        assert (m ≠ k) by (intros ->; congruence).
        repeat split; [lia..|done|]. intros j Hj. apply Hlow. lia.
Qed.

Lemma find_seqZ_None (P : Z → bool) (n : nat) (m : Z) :
  List.find P (seqZ m (Z.of_nat n)) = None ↔
  ∀ j, m ≤ j < m + Z.of_nat n → P j = false.
Proof.
  revert m. induction n as [|n IH]; intros m.
  - cbn. split; [intros _ j Hj; lia|done].
  - rewrite seqZ_cons by lia. cbn [List.find].
    replace (Z.pred (Z.of_nat (S n))) with (Z.of_nat n) by lia.
    destruct (P m) eqn:Hm.
    + split; [done|]. intros H. specialize (H m). rewrite Hm in H.
      discriminate H. lia.
    + rewrite IH. split.
      * intros H j Hj. destruct (decide (j = m)) as [->|]; [done|].
        apply H. lia.
      * intros H j Hj. apply H. lia.
Qed.

(** [lowest_unset_bit] names the least position below 64 whose bit is
    unset, and is undefined exactly when the 64 bits are all set. *)
Lemma lowest_unset_bit_Some (mask k : Z) :
  lowest_unset_bit mask = Some k ↔
  0 ≤ k < 64 ∧ Z.testbit mask k = false ∧
  ∀ j, 0 ≤ j < k → Z.testbit mask j = true.
Proof.
  unfold lowest_unset_bit, bit_positions.
  change 64 with (Z.of_nat 64) at 1. rewrite find_seqZ_Some.
  rewrite negb_true_iff. split.
  - intros (Hk & Hb & Hlow). repeat split; [lia..|done|].
    intros j Hj. specialize (Hlow j Hj). by apply negb_false_iff in Hlow.
  - intros (Hk & Hb & Hlow). repeat split; [lia..|done|].
    intros j Hj. apply negb_false_iff. by apply Hlow.
Qed.

Lemma lowest_unset_bit_None (mask : Z) :
  lowest_unset_bit mask = None ↔ ∀ j, 0 ≤ j < 64 → Z.testbit mask j = true.
Proof.
  unfold lowest_unset_bit, bit_positions.
  change 64 with (Z.of_nat 64) at 1. rewrite find_seqZ_None.
  split; intros H j Hj.
  - apply negb_false_iff, H. lia.
  - apply negb_false_iff, H. lia.
Qed.

Lemma lowest_set_bit_Some (mask k : Z) :
  lowest_set_bit mask = Some k ↔
  0 ≤ k < 64 ∧ Z.testbit mask k = true ∧
  ∀ j, 0 ≤ j < k → Z.testbit mask j = false.
Proof.
  unfold lowest_set_bit, bit_positions.
  change 64 with (Z.of_nat 64) at 1. rewrite find_seqZ_Some.
  split; intros (Hk & Hb & Hlow); (repeat split; [lia..|done|done]).
Qed.

Lemma lowest_set_bit_None (mask : Z) :
  lowest_set_bit mask = None ↔ ∀ j, 0 ≤ j < 64 → Z.testbit mask j = false.
Proof.
  unfold lowest_set_bit, bit_positions.
  change 64 with (Z.of_nat 64) at 1. rewrite find_seqZ_None.
  split; intros H j Hj; apply H; lia.
Qed.

(** ** Expansion *)

Lemma expand_scan_64 (mask : Z) :
  expand_scan 64 mask 1 =
    Some (match lowest_unset_bit mask with Some k => 2 ^ k | None => 0 end).
Proof. exact (expand_scan_find mask 64 0 eq_refl). Qed.

Lemma contract_scan_64 (mask : Z) :
  contract_scan 64 mask 1 =
    Some (match lowest_set_bit mask with Some k => 2 ^ k | None => 0 end).
Proof. exact (contract_scan_find mask 64 0 eq_refl). Qed.

Lemma lowest_unset_bit_range (mask k : Z) :
  lowest_unset_bit mask = Some k → 0 ≤ k < 64.
Proof. intros H. by apply lowest_unset_bit_Some in H as [? _]. Qed.

Lemma lowest_set_bit_range (mask k : Z) :
  lowest_set_bit mask = Some k → 0 ≤ k < 64.
Proof. intros H. by apply lowest_set_bit_Some in H as [? _]. Qed.

Lemma ExpandBins_eq {C} (bm : BinManager C) :
  ExpandBins bm =
    Some (match lowest_unset_bit (currentMask bm) with
          | Some k =>
              mkBinManager (bins bm) (Z.lor (currentMask bm) (2 ^ k))
                (retention bm)
          | None => bm
          end).
Proof.
  unfold ExpandBins. rewrite expand_scan_64. cbn [mbind option_bind].
  destruct (lowest_unset_bit (currentMask bm)) as [k|] eqn:Hk; [|done].
  apply lowest_unset_bit_range in Hk.
  destruct (Z.eqb_spec (2 ^ k) 0) as [H0|_]; [|done].
  apply pow2_nonzero in H0; [done|lia].
Qed.

(** C6, as the code has it: [ExpandBins] always returns; it sets the
    lowest-order unset bit of the 64-bit mask and changes neither the bin
    table nor the retention; when the 64 bits are all set it changes
    nothing.  From mask 0xFFFFFFFFFFFFF000 the lowest unset bit is bit 0, so
    one expansion yields 0xFFFFFFFFFFFFF001. *)
Theorem ExpandBins_sets_lowest_unset_bit {C} (bm : BinManager C) :
  ExpandBins bm =
    Some (match lowest_unset_bit (currentMask bm) with
          | Some k =>
              mkBinManager (bins bm) (Z.lor (currentMask bm) (2 ^ k))
                (retention bm)
          | None => bm
          end)
  ∧ lowest_unset_bit 0xFFFFFFFFFFFFFFFF = None
  ∧ ExpandBins (mkBinManager (bins bm) 0xFFFFFFFFFFFFF000 (retention bm)) =
      Some (mkBinManager (bins bm) 0xFFFFFFFFFFFFF001 (retention bm)).
Proof.
  split; [apply ExpandBins_eq|]. split; [reflexivity|].
  rewrite ExpandBins_eq. reflexivity.
Qed.

(** C6, as the specification states it, fails on its example: one expansion
    of mask 0xFFFFFFFFFFFFF000 does not yield 0xFFFFFFFFFFFFF800. *)
Lemma ExpandBins_example_not_F800 :
  currentMask <$> ExpandBins (NewBinManager (C:=MockClient) 0xFFFFFFFFFFFFF000 0)
    ≠ Some 0xFFFFFFFFFFFFF800.
Proof. vm_compute. discriminate. Qed.

(** C6, at the input where the code departs from it: the manager of the
    specification's example and of [TestBinManagerExpandContract] and
    [TestBinManagerMultipleExpand], mask 0xFFFFFFFFFFFFF000 with a retention
    of one hour.  The scan of [ExpandBins] starts at bit 0, which is unset,
    so one expansion yields 0xFFFFFFFFFFFFF001: not 0xFFFFFFFFFFFFF800 as
    the example has it, and not 0xFFFFFFFFFFFF8000 as the first test
    expects; four expansions in a row yield the masks ending in F001, F003,
    F007 and F00F, where the second test expects those ending in 8000, C000,
    E000 and F000. *)
Theorem ExpandBins_from_F000 :
  currentMask <$> ExpandBins expand_manager = Some 0xFFFFFFFFFFFFF001 ∧
  currentMask <$> ExpandBins expand_manager ≠ Some 0xFFFFFFFFFFFFF800 ∧
  currentMask <$> ExpandBins expand_manager ≠ Some 0xFFFFFFFFFFFF8000 ∧
  currentMask <$> (ExpandBins expand_manager ≫= ExpandBins)
    = Some 0xFFFFFFFFFFFFF003 ∧
  currentMask <$> ((ExpandBins expand_manager ≫= ExpandBins) ≫= ExpandBins)
    = Some 0xFFFFFFFFFFFFF007 ∧
  currentMask <$>
    (((ExpandBins expand_manager ≫= ExpandBins) ≫= ExpandBins) ≫= ExpandBins)
    = Some 0xFFFFFFFFFFFFF00F.
Proof. repeat split; vm_compute; congruence. Qed.

(** ** Invariant I1 under resharding *)

Lemma land_lor_keep (k mask b : Z) :
  Z.land k mask = k → Z.land k (Z.lor mask b) = k.
Proof.
  intros Hk. rewrite Z.land_lor_distr_r, Hk.
  apply Z.bits_inj'. intros n Hn.
  rewrite Z.lor_spec, Z.land_spec. by destruct (Z.testbit k n).
Qed.

Lemma land_land_same (k mask : Z) :
  Z.land (Z.land k mask) mask = Z.land k mask.
Proof. by rewrite <- Z.land_assoc, Z.land_diag. Qed.

Lemma rekey_step_keys {C} (newMask : Z) (acc : gmap Z (Bin C)) (e : Z * Bin C) :
  map_Forall (λ k _, Z.land k newMask = k) acc →
  map_Forall (λ k _, Z.land k newMask = k) (rekey_step newMask acc e).
Proof.
  intros Hacc. unfold rekey_step.
  destruct (acc !! Z.land e.1 newMask);
    (apply map_Forall_insert_2; [apply land_land_same|done]).
Qed.

Lemma rekey_fold_keys {C} (newMask : Z) (order : list (Z * Bin C))
    (acc : gmap Z (Bin C)) :
  map_Forall (λ k _, Z.land k newMask = k) acc →
  map_Forall (λ k _, Z.land k newMask = k) (foldl (rekey_step newMask) acc order).
Proof.
  revert acc. induction order as [|e order IH]; intros acc Hacc; [done|].
  cbn. apply IH. by apply rekey_step_keys.
Qed.

Lemma ContractBins_eq {C} (order : list (Z * Bin C)) (bm : BinManager C) :
  ContractBins order bm =
    Some (match lowest_set_bit (currentMask bm) with
          | None => bm
          | Some k =>
              if currentMask bm =? 2 ^ k then bm
              else
                let newMask := Z.ldiff (currentMask bm) (2 ^ k) in
                mkBinManager (foldl (rekey_step newMask) ∅ order) newMask
                  (retention bm)
          end).
Proof.
  unfold ContractBins. rewrite contract_scan_64. cbn [mbind option_bind].
  destruct (lowest_set_bit (currentMask bm)) as [k|] eqn:Hk; [|done].
  apply lowest_set_bit_range in Hk.
  destruct (Z.eqb_spec (2 ^ k) 0) as [H0|_];
    [apply pow2_nonzero in H0; [done|lia]|].
  cbn [orb]. by destruct (currentMask bm =? 2 ^ k).
Qed.

(** C7, as the code has it: when every key of the bin table satisfies
    [key & mask == key], then after one [ExpandBins] and after one
    [ContractBins] (whatever the order of its visit) every key of the new
    table satisfies it for the new mask; [ExpandBins] also keeps the form
    [b.ID & mask == b.ID] of the stored [ID] fields.  [ContractBins] files a
    bin under its new key without rewriting its [ID] field. *)
Theorem reshard_preserves_I1_keys {C} (bm : BinManager C)
    (order : list (Z * Bin C)) :
  I1_keys bm →
  (∃ bm', ExpandBins bm = Some bm' ∧ I1_keys bm' ∧ (I1_ids bm → I1_ids bm')) ∧
  (∃ bm', ContractBins order bm = Some bm' ∧ I1_keys bm').
Proof.
  intros HI. split.
  - eexists. split; [apply ExpandBins_eq|].
    destruct (lowest_unset_bit (currentMask bm)) as [k|]; [|done].
    split.
    + intros key b Hb. cbn. apply land_lor_keep. exact (HI key b Hb).
    + intros Hids key b Hb. cbn. apply land_lor_keep. exact (Hids key b Hb).
  - eexists. split; [apply ContractBins_eq|].
    destruct (lowest_set_bit (currentMask bm)) as [k|]; [|done].
    destruct (currentMask bm =? 2 ^ k); [done|].
    unfold I1_keys. cbn. apply rekey_fold_keys. apply map_Forall_empty.
Qed.

Lemma reshard_preserves_I1_keys_witness :
  I1_keys scenario1 ∧
  (∃ bm', ExpandBins scenario1 = Some bm' ∧ I1_keys bm' ∧
          (I1_ids scenario1 → I1_ids bm')) ∧
  (∃ bm', ContractBins (map_to_list (bins scenario1)) scenario1 = Some bm' ∧
          I1_keys bm').
Proof.
  assert (H : I1_keys scenario1).
  { apply (bool_decide_unpack _). vm_compute. exact I. }
  split; [exact H|].
  exact (reshard_preserves_I1_keys scenario1 (map_to_list (bins scenario1)) H).
Defined.

(** C7, as the specification states it, fails for [ContractBins]: in
    scenario 1 every bin satisfies [b.ID & mask == b.ID], and after the
    contraction the bin is filed under key 0 with [ID] still 0x1000, which
    the new mask 0xFFFFFFFFFFFFE000 does not cover. *)
Lemma ContractBins_breaks_I1_ids :
  I1_ids scenario1 ∧
  ∃ bm', ContractBins (map_to_list (bins scenario1)) scenario1 = Some bm' ∧
         currentMask bm' = 0xFFFFFFFFFFFFE000 ∧
         ID <$> bins bm' !! 0 = Some 0x1000 ∧
         ¬ I1_ids bm'.
Proof.
  split.
  { apply (bool_decide_unpack _). vm_compute. exact I. }
  eexists. split; [vm_compute; reflexivity|].
  split; [reflexivity|]. split; [vm_compute; reflexivity|].
  apply (bool_decide_eq_false_1 _). vm_compute. reflexivity.
Qed.

(** ** Publishing *)

Lemma get_or_create_lookup {C} (bm : BinManager C) (binID : Z) :
  get_or_create bm binID =
    (mkBinManager
       (<[binID := default (NewBin binID) (bins bm !! binID)]> (bins bm))
       (currentMask bm) (retention bm),
     default (NewBin binID) (bins bm !! binID)).
Proof.
  unfold get_or_create. destruct (bins bm !! binID) as [b|] eqn:Hb; [|done].
  cbn. rewrite insert_id by done. by destruct bm.
Qed.

Lemma AddMessage_bins {C} `{!Client C} (bm : BinManager C) (msg : Message)
    (now : Time) :
  bins (AddMessage bm msg now) =
    <[BinID msg :=
        BroadcastMessage
          (Bin_AddMessage (default (NewBin (BinID msg)) (bins bm !! BinID msg))
             (set_Timestamp msg now))
          (set_Timestamp msg now)]> (bins bm).
Proof.
  unfold AddMessage. rewrite get_or_create_lookup. cbn.
  by rewrite insert_insert_eq.
Qed.

Lemma AddMessage_mask {C} `{!Client C} (bm : BinManager C) (msg : Message)
    (now : Time) :
  currentMask (AddMessage bm msg now) = currentMask bm.
Proof. unfold AddMessage. by rewrite get_or_create_lookup. Qed.

Lemma AddMessage_retention {C} `{!Client C} (bm : BinManager C) (msg : Message)
    (now : Time) :
  retention (AddMessage bm msg now) = retention bm.
Proof. unfold AddMessage. by rewrite get_or_create_lookup. Qed.

(** C10: [AddMessage] files the message under the key [msg.BinID] exactly
    as supplied and never applies or changes the mask: the bin under that
    key (the existing one, or a new bin with that [ID]) receives the stamped
    message and is the one whose subscribers are served, and no other key
    changes.  In particular, when [msg.BinID] is not mask-consistent the
    bin of the masked identifier is left alone and the table breaks
    invariant I1; when moreover no bin had that key, the bin is created with
    [ID] [msg.BinID] and holds exactly that message. *)
Theorem AddMessage_files_under_unmasked_BinID {C} `{!Client C}
    (bm : BinManager C) (msg : Message) (now : Time) :
  currentMask (AddMessage bm msg now) = currentMask bm ∧
  (∀ k, k ≠ BinID msg → bins (AddMessage bm msg now) !! k = bins bm !! k) ∧
  bins (AddMessage bm msg now) !! BinID msg =
    Some (BroadcastMessage
            (Bin_AddMessage
               (default (NewBin (BinID msg)) (bins bm !! BinID msg))
               (set_Timestamp msg now))
            (set_Timestamp msg now)) ∧
  (Z.land (BinID msg) (currentMask bm) ≠ BinID msg →
   bins (AddMessage bm msg now) !! GetBinID bm (BinID msg) =
     bins bm !! GetBinID bm (BinID msg) ∧
   ¬ I1_keys (AddMessage bm msg now) ∧
   (bins bm !! BinID msg = None →
    bins (AddMessage bm msg now) !! BinID msg =
      Some (mkBin (BinID msg) [set_Timestamp msg now] ∅) ∧
    ¬ I1_ids (AddMessage bm msg now))).
Proof.
  assert (Hm : currentMask (AddMessage bm msg now) = currentMask bm)
    by apply AddMessage_mask.
  assert (Hb : bins (AddMessage bm msg now) !! BinID msg =
    Some (BroadcastMessage
            (Bin_AddMessage
               (default (NewBin (BinID msg)) (bins bm !! BinID msg))
               (set_Timestamp msg now))
            (set_Timestamp msg now))).
  { by rewrite AddMessage_bins, lookup_insert_eq. }
  split; [done|]. split.
  { intros k Hk. by rewrite AddMessage_bins, lookup_insert_ne. }
  split; [done|]. intros Hmask. split.
  { unfold GetBinID. rewrite AddMessage_bins, lookup_insert_ne; done. }
  split.
  { intros HI. specialize (HI _ _ Hb). cbn in HI. by rewrite Hm in HI. }
  intros Hnone.
  assert (Hnew : bins (AddMessage bm msg now) !! BinID msg =
                 Some (mkBin (BinID msg) [set_Timestamp msg now] ∅)).
  { rewrite Hb, Hnone. cbn. unfold BroadcastMessage. cbn.
    by rewrite map_filter_empty. }
  split; [done|].
  intros HI. specialize (HI _ _ Hnew). cbn in HI. by rewrite Hm in HI.
Qed.

(** The general form: whatever the key and the mask, the bin under
    [msg.BinID] is the one that stores and serves the message. *)
Lemma AddMessage_lookup {C} `{!Client C} (bm : BinManager C) (msg : Message)
    (now : Time) :
  ∃ b, bins (AddMessage bm msg now) !! BinID msg = Some b ∧
       Messages b =
         Messages (default (NewBin (BinID msg)) (bins bm !! BinID msg))
           ++ [set_Timestamp msg now] ∧
       ID b = ID (default (NewBin (BinID msg)) (bins bm !! BinID msg)).
Proof.
  eexists. rewrite AddMessage_bins, lookup_insert_eq. done.
Qed.

Lemma AddMessage_files_under_unmasked_BinID_witness :
  Z.land (BinID stray_message) (currentMask fresh_manager)
    ≠ BinID stray_message ∧
  bins fresh_manager !! BinID stray_message = None ∧
  bins (AddMessage fresh_manager stray_message (mkTime 7 0)) !! 0x1001 =
    Some (mkBin 0x1001 [set_Timestamp stray_message (mkTime 7 0)] ∅) ∧
  bins (AddMessage fresh_manager stray_message (mkTime 7 0)) !! 0x1000 = None ∧
  ¬ I1_keys (AddMessage fresh_manager stray_message (mkTime 7 0)) ∧
  ¬ I1_ids (AddMessage fresh_manager stray_message (mkTime 7 0)).
Proof.
  assert (H1 : Z.land (BinID stray_message) (currentMask fresh_manager)
               ≠ BinID stray_message) by (vm_compute; discriminate).
  assert (H2 : bins fresh_manager !! BinID stray_message = None)
    by reflexivity.
  split; [exact H1|]. split; [exact H2|].
  destruct (AddMessage_files_under_unmasked_BinID fresh_manager stray_message
              (mkTime 7 0)) as (_ & _ & _ & H).
  destruct (H H1) as (Hmasked & Hkeys & Hnew).
  destruct (Hnew H2) as (Hbin & Hids).
  split; [exact Hbin|]. split; [exact Hmasked|]. split; [exact Hkeys|].
  exact Hids.
Defined.

(** ** Recent messages *)

(** The wrapped negation of a duration is never above the negation. *)
Lemma Duration_neg_le (d : Duration) : Duration_neg d ≤ - d.
Proof.
  unfold Duration_neg, MinInt64. destruct (Z.eqb_spec d (- 2 ^ 63)); lia.
Qed.

Lemma Duration_neg_opp (d : Duration) : d ≠ MinInt64 → Duration_neg d = - d.
Proof. unfold Duration_neg. intros Hd. by destruct (Z.eqb_spec d MinInt64). Qed.

Lemma Time_After_Duration_neg (now1 now2 : Time) (d : Duration) :
  Time_After now1 (Time_Add now2 (- d)) = true →
  Time_After now1 (Time_Add now2 (Duration_neg d)) = true.
Proof.
  unfold Time_After, Time_Add. cbn. intros H%Z.ltb_lt. apply Z.ltb_lt.
  pose proof (Duration_neg_le d). lia.
Qed.

Lemma GetRecentMessages_after_AddMessage {C} `{!Client C} (bm : BinManager C)
    (p : Message) (now1 now2 : Time) :
  GetRecentMessages (AddMessage bm p now1) (BinID p) now2 =
    GetRecentMessages bm (BinID p) now2 ++
    (if Time_After now1 (Time_Add now2 (Duration_neg (retention bm)))
     then [set_Timestamp p now1] else []).
Proof.
  unfold GetRecentMessages.
  rewrite AddMessage_bins, lookup_insert_eq, AddMessage_retention.
  unfold Bin_GetRecentMessages. cbn [Messages BroadcastMessage Bin_AddMessage].
  rewrite filter_app. f_equal.
  - destruct (bins bm !! BinID p); done.
  - rewrite filter_cons, filter_nil. cbn [Timestamp set_Timestamp].
    destruct (Time_After now1 (Time_Add now2 (Duration_neg (retention bm))));
      by case_decide.
Qed.

(** What [RemoveMessagesBefore] removes is expired at its cutoff. *)
Lemma first_after_none (cutoff : Time) (msgs : list Message) (i idx : nat) :
  Forall (expired cutoff) msgs → first_after cutoff i msgs idx = idx.
Proof.
  revert i. induction msgs as [|m msgs IH]; intros i H; [done|].
  apply Forall_cons in H as [Hm H]. cbn. unfold expired in Hm.
  rewrite Hm. by apply IH.
Qed.

Lemma first_after_split (cutoff : Time) (l1 l2 : list Message) (m : Message)
    (i idx : nat) :
  Forall (expired cutoff) l1 → Time_After (Timestamp m) cutoff = true →
  first_after cutoff i (l1 ++ m :: l2) idx = (i + length l1)%nat.
Proof.
  revert i. induction l1 as [|a l1 IH]; intros i H Hm.
  - cbn. rewrite Hm. lia.
  - apply Forall_cons in H as [Ha H]. cbn. unfold expired in Ha.
    rewrite Ha, IH by done. lia.
Qed.

(** Every list splits at its first message newer than the cutoff. *)
Lemma split_at_first_after (cutoff : Time) (msgs : list Message) :
  Forall (expired cutoff) msgs ∨
  ∃ l1 m l2, msgs = l1 ++ m :: l2 ∧ Forall (expired cutoff) l1 ∧
             Time_After (Timestamp m) cutoff = true.
Proof.
  induction msgs as [|a msgs IH]; [by left|].
  destruct (Time_After (Timestamp a) cutoff) eqn:Ha.
  - right. exists [], a, msgs. by repeat split.
  - destruct IH as [IH|(l1 & m & l2 & -> & Hl1 & Hm)].
    + left. by constructor.
    + right. exists (a :: l1), m, l2. repeat split; [|done]. by constructor.
Qed.

Lemma RemoveMessagesBefore_split {C} (b : Bin C) (cutoff : Time)
    (l1 l2 : list Message) (m : Message) :
  Messages b = l1 ++ m :: l2 → Forall (expired cutoff) l1 →
  Time_After (Timestamp m) cutoff = true →
  Messages (Bin_RemoveMessagesBefore b cutoff) = m :: l2.
Proof.
  intros Hb Hl1 Hm. unfold Bin_RemoveMessagesBefore.
  rewrite Hb, first_after_split by done. cbn [Nat.add].
  destruct l1 as [|a l1]; cbn; [done|].
  by rewrite drop_app_length.
Qed.

Lemma RemoveMessagesBefore_none {C} (b : Bin C) (cutoff : Time) :
  Forall (expired cutoff) (Messages b) → Bin_RemoveMessagesBefore b cutoff = b.
Proof.
  intros H. unfold Bin_RemoveMessagesBefore. by rewrite first_after_none.
Qed.

Lemma RemoveMessagesBefore_keeps_newer {C} (b : Bin C) (cutoff : Time)
    (m : Message) :
  m ∈ Messages b → Time_After (Timestamp m) cutoff = true →
  m ∈ Messages (Bin_RemoveMessagesBefore b cutoff).
Proof.
  intros Hin Hm.
  destruct (split_at_first_after cutoff (Messages b))
    as [Hall|(l1 & m' & l2 & Hb & Hl1 & Hm')].
  - by rewrite RemoveMessagesBefore_none.
  - rewrite (RemoveMessagesBefore_split b cutoff l1 l2 m') by done.
    rewrite Hb in Hin. apply elem_of_app in Hin as [Hin|Hin]; [|done].
    rewrite Forall_forall in Hl1. specialize (Hl1 m Hin).
    unfold expired in Hl1. congruence.
Qed.

(** C4: a message published at instant [now1] is among the recent messages
    of its bin at every instant [now2] for which [now1] is still within the
    retention window, whether or not the bin existed before the publish;
    a cleanup tick at an instant no later than the query does not change
    this. *)
Theorem recent_contains_published {C} `{!Client C} (bm : BinManager C)
    (p : Message) (now1 now2 : Time) :
  Time_After now1 (Time_Add now2 (- retention bm)) = true →
  (∃ m, m ∈ GetRecentMessages (AddMessage bm p now1) (BinID p) now2 ∧
        MessageID m = MessageID p ∧ Timestamp m = now1) ∧
  (∀ tick, t_ns tick ≤ t_ns now2 →
     ∃ m, m ∈ GetRecentMessages (cleanup (AddMessage bm p now1) tick)
                (BinID p) now2 ∧
          MessageID m = MessageID p ∧ Timestamp m = now1).
Proof.
  intros Hin%Time_After_Duration_neg. split.
  - exists (set_Timestamp p now1). split; [|done].
    rewrite GetRecentMessages_after_AddMessage, Hin.
    apply elem_of_app. right. by apply list_elem_of_singleton.
  - intros tick Htick. exists (set_Timestamp p now1). split; [|done].
    unfold GetRecentMessages, cleanup. cbn [bins retention].
    rewrite lookup_fmap, AddMessage_bins, lookup_insert_eq.
    cbn [fmap option_fmap option_map]. rewrite AddMessage_retention.
    unfold Bin_GetRecentMessages. apply list_elem_of_filter. split; [done|].
    apply RemoveMessagesBefore_keeps_newer.
    + cbn. apply elem_of_app. right. by apply list_elem_of_singleton.
    + cbn. unfold Time_After, Time_Add in *. cbn in *.
      apply Z.ltb_lt in Hin. apply Z.ltb_lt. lia.
Qed.

Lemma recent_contains_published_witness :
  Time_After (mkTime 10 0)
    (Time_Add (mkTime 50 0) (- retention fresh_manager)) = true ∧
  (∃ m, m ∈ GetRecentMessages
              (AddMessage fresh_manager stray_message (mkTime 10 0))
              (BinID stray_message) (mkTime 50 0) ∧
        MessageID m = MessageID stray_message ∧ Timestamp m = mkTime 10 0) ∧
  (∀ tick, t_ns tick ≤ t_ns (mkTime 50 0) →
     ∃ m, m ∈ GetRecentMessages
                (cleanup (AddMessage fresh_manager stray_message (mkTime 10 0))
                   tick)
                (BinID stray_message) (mkTime 50 0) ∧
          MessageID m = MessageID stray_message ∧ Timestamp m = mkTime 10 0).
Proof.
  assert (H1 : Time_After (mkTime 10 0)
                 (Time_Add (mkTime 50 0) (- retention fresh_manager)) = true)
    by reflexivity.
  split; [exact H1|].
  exact (recent_contains_published fresh_manager stray_message
           (mkTime 10 0) (mkTime 50 0) H1).
Defined.

(** ** Cleanup *)

Lemma filter_all_expired (cutoff : Time) (l : list Message) :
  Forall (expired cutoff) l →
  filter (λ m, Time_After (Timestamp m) cutoff = true) l = [].
Proof.
  induction 1 as [|a l Ha _ IH]; [done|].
  rewrite filter_cons, IH. unfold expired in Ha. case_decide; congruence.
Qed.

Lemma filter_all_newer (cutoff : Time) (l : list Message) :
  Forall (λ m, Time_After (Timestamp m) cutoff = true) l →
  filter (λ m, Time_After (Timestamp m) cutoff = true) l = l.
Proof.
  induction 1 as [|a l Ha _ IH]; [done|].
  rewrite filter_cons, IH. case_decide; congruence.
Qed.

Lemma sorted_tail_newer (cutoff : Time) (l1 l2 : list Message) (m : Message) :
  StronglySorted time_le (l1 ++ m :: l2) →
  Time_After (Timestamp m) cutoff = true →
  Forall (λ x, Time_After (Timestamp x) cutoff = true) (m :: l2).
Proof.
  intros Hs Hm. apply StronglySorted_app_1_r in Hs.
  apply StronglySorted_cons in Hs as [Hle _].
  constructor; [done|].
  eapply Forall_impl; [exact Hle|]. intros x Hx. unfold time_le in Hx.
  unfold Time_After in *. apply Z.ltb_lt in Hm. apply Z.ltb_lt. lia.
Qed.

(** On a bin in timestamp order that holds at least one message newer than
    the cutoff, [RemoveMessagesBefore] removes exactly the prefix of the
    expired messages. *)
Lemma RemoveMessagesBefore_sorted_some_newer {C} (b : Bin C) (cutoff : Time) :
  I3 b → ¬ Forall (expired cutoff) (Messages b) →
  Messages b =
    filter (λ m, ¬ Time_After (Timestamp m) cutoff = true) (Messages b)
    ++ Messages (Bin_RemoveMessagesBefore b cutoff) ∧
  Messages (Bin_RemoveMessagesBefore b cutoff) =
    filter (λ m, Time_After (Timestamp m) cutoff = true) (Messages b).
Proof.
  intros Hs Hsome.
  destruct (split_at_first_after cutoff (Messages b))
    as [Hall|(l1 & m & l2 & Hb & Hl1 & Hm)]; [done|].
  rewrite (RemoveMessagesBefore_split b cutoff l1 l2 m) by done.
  unfold I3 in Hs. rewrite Hb in *.
  pose proof (sorted_tail_newer cutoff l1 l2 m Hs Hm) as Hnew.
  rewrite !filter_app, filter_all_expired, (filter_all_newer _ (m :: l2))
    by done.
  split; [|done]. f_equal.
  assert (Hf1 : filter (λ x, ¬ Time_After (Timestamp x) cutoff = true) l1 = l1).
  { clear -Hl1. induction Hl1 as [|a l Ha _ IH]; [done|].
    rewrite filter_cons, IH. unfold expired in Ha. case_decide; [done|congruence]. }
  assert (Hf2 : filter (λ x, ¬ Time_After (Timestamp x) cutoff = true)
                  (m :: l2) = []).
  { clear -Hnew. induction Hnew as [|a l Ha _ IH]; [done|].
    rewrite filter_cons, IH. case_decide; [done|done]. }
  rewrite Hf1, Hf2. by rewrite app_nil_r.
Qed.

(** C1, at the input where the code departs from it: a bin in timestamp
    order all of whose messages are expired at the cutoff keeps every
    message, both under [RemoveMessagesBefore] and under a whole cleanup
    tick, although nothing of it is reported as recent any more. *)
Theorem cleanup_keeps_fully_expired_bin :
  I3 stale_bin ∧ Forall (expired (mkTime 5 0)) (Messages stale_bin) ∧
  Messages (Bin_RemoveMessagesBefore stale_bin (mkTime 5 0)) =
    [set_Timestamp (NewMessage 0x1000 "m1" []) (mkTime 1 0)] ∧
  Messages <$> bins (cleanup scenario1 (mkTime 7200000000001 0)) !! 0x1000 =
    Some [set_Timestamp (NewMessage 0x1000 "m1" []) (mkTime 1 0)] ∧
  GetRecentMessages scenario1 0x1000 (mkTime 7200000000001 0) = [].
Proof.
  split.
  { unfold I3. cbn. repeat constructor. }
  split.
  { cbn. repeat constructor. }
  split; [reflexivity|]. split; [vm_compute; reflexivity|].
  vm_compute. reflexivity.
Qed.

(** The general form of the departure: when every message is expired at
    the cutoff, [RemoveMessagesBefore] changes nothing. *)
Lemma RemoveMessagesBefore_all_expired {C} (b : Bin C) (cutoff : Time) :
  Forall (expired cutoff) (Messages b) →
  Messages (Bin_RemoveMessagesBefore b cutoff) = Messages b.
Proof. intros H. by rewrite RemoveMessagesBefore_none. Qed.

(** ** Contraction *)

Lemma lowest_set_bit_None_zero (mask : Z) :
  in_u64 mask → lowest_set_bit mask = None ↔ mask = 0.
Proof.
  intros [Hlo Hhi]. rewrite lowest_set_bit_None. split.
  - intros Hbits. rewrite <- (Z.mod_small mask (2 ^ 64)) by done.
    rewrite <- Z.land_ones by lia. apply Z.bits_inj'. intros n Hn.
    rewrite Z.land_spec, Z.bits_0.
    destruct (decide (n < 64)) as [Hlt|Hge].
    + rewrite Hbits by lia. done.
    + rewrite Z.ones_spec_high by lia. apply andb_false_r.
  - intros -> j _. apply Z.bits_0.
Qed.

Section merging.
Context {C : Type}.
Implicit Types (b o : Bin C) (bs rest : list (Bin C)).

Lemma foldl_mergeFrom_ID b rest : ID (foldl mergeFrom b rest) = ID b.
Proof.
  revert b. induction rest as [|o rest IH]; intros b; [done|].
  cbn. by rewrite IH.
Qed.

Lemma foldl_mergeFrom_Messages b rest :
  Messages (foldl mergeFrom b rest) = concat (Messages <$> (b :: rest)).
Proof.
  revert b. induction rest as [|o rest IH]; intros b.
  - cbn. by rewrite app_nil_r.
  - cbn [foldl]. rewrite IH. cbn. by rewrite app_assoc.
Qed.

Lemma mergeFrom_Clients_lookup b o (cid : string) :
  Clients (mergeFrom b o) !! cid =
    match Clients o !! cid with
    | Some c => Some c
    | None => Clients b !! cid
    end.
Proof.
  cbn. rewrite lookup_union. by destruct (Clients o !! cid), (Clients b !! cid).
Qed.

Lemma foldl_mergeFrom_Clients b rest (cid : string) :
  Clients (foldl mergeFrom b rest) !! cid =
    last (omap (λ x, Clients x !! cid) (b :: rest)).
Proof.
  revert b. induction rest as [|o rest IH]; intros b.
  - cbn. by destruct (Clients b !! cid).
  - cbn [foldl]. rewrite IH. cbn [omap list_omap].
    rewrite mergeFrom_Clients_lookup.
    destruct (Clients o !! cid) as [c|]; [|done].
    destruct (Clients b !! cid) as [c'|]; [|done].
    cbn. by destruct (omap (λ x, Clients x !! cid) rest).
Qed.

Lemma rekey_fold_lookup (newMask k : Z) (order : list (Z * Bin C))
    (acc : gmap Z (Bin C)) :
  foldl (rekey_step newMask) acc order !! k =
    merge_into (acc !! k) (colliding newMask k order).
Proof.
  revert acc. induction order as [|e order IH]; intros acc; [done|].
  cbn [foldl]. rewrite IH. unfold colliding. rewrite filter_cons.
  unfold rekey_step. case_decide as Hk.
  - cbn. rewrite Hk.
    by destruct (acc !! k); rewrite lookup_insert_eq.
  - by destruct (acc !! Z.land e.1 newMask); rewrite lookup_insert_ne.
Qed.

Lemma merge_into_Some b bs :
  merge_into (Some b) bs = Some (foldl mergeFrom b bs).
Proof. revert b. induction bs as [|o bs IH]; intros b; [done|]. apply IH. Qed.

Lemma rekey_lookup (newMask k : Z) (order : list (Z * Bin C)) :
  foldl (rekey_step newMask) ∅ order !! k =
    match colliding newMask k order with
    | [] => None
    | b :: rest => Some (foldl mergeFrom b rest)
    end.
Proof.
  rewrite rekey_fold_lookup, lookup_empty.
  destruct (colliding newMask k order) as [|b rest]; [done|].
  apply merge_into_Some.
Qed.
End merging.

Lemma lowest_set_bit_pow2 (k : Z) : 0 ≤ k < 64 → lowest_set_bit (2 ^ k) = Some k.
Proof.
  intros Hk. apply lowest_set_bit_Some. split; [done|]. split.
  - apply Z.pow2_bits_true. lia.
  - intros j Hj. apply Z.pow2_bits_false. lia.
Qed.

Lemma elem_of_colliding {C} (newMask newID : Z) (order : list (Z * Bin C))
    (b : Bin C) :
  b ∈ colliding newMask newID order ↔
  ∃ old_id, (old_id, b) ∈ order ∧ Z.land old_id newMask = newID.
Proof.
  unfold colliding. rewrite list_elem_of_fmap. split.
  - intros ([old_id b'] & -> & Hin). apply list_elem_of_filter in Hin as [Hk Hin].
    by exists old_id.
  - intros (old_id & Hin & Hk). exists (old_id, b). split; [done|].
    by apply list_elem_of_filter.
Qed.

(** C5: for every order in which the rebuilding loop may visit the table,
    [ContractBins] returns; it changes nothing when no bit of the mask is
    set (mask zero) or when the mask is its lowest set bit alone; otherwise
    the new mask is the old one without its lowest set bit, every old bin
    is sent to [old_id & newMask], and the bin found under a new key is the
    first colliding bin visited with the later ones merged into it: its
    messages are the concatenation of the message sequences of the colliding
    bins in the order of the visit, and each client identifier maps to the
    subscriber of the last colliding bin that has it. *)
Theorem ContractBins_merges {C} (bm : BinManager C) (order : list (Z * Bin C)) :
  order ≡ₚ map_to_list (bins bm) →
  ∃ bm', ContractBins order bm = Some bm' ∧
    (currentMask bm = 0 ∨ (∃ k, 0 ≤ k < 64 ∧ currentMask bm = 2 ^ k) →
     bm' = bm) ∧
    match lowest_set_bit (currentMask bm) with
    | None => bm' = bm
    | Some k =>
        if currentMask bm =? 2 ^ k then bm' = bm
        else
          let newMask := Z.ldiff (currentMask bm) (2 ^ k) in
          currentMask bm' = newMask ∧ retention bm' = retention bm ∧
          (∀ old_id b, bins bm !! old_id = Some b →
             b ∈ colliding newMask (Z.land old_id newMask) order) ∧
          (∀ newID b, b ∈ colliding newMask newID order →
             ∃ old_id, bins bm !! old_id = Some b ∧
                       Z.land old_id newMask = newID) ∧
          (∀ newID,
             match colliding newMask newID order with
             | [] => bins bm' !! newID = None
             | b :: rest =>
                 ∃ b', bins bm' !! newID = Some b' ∧ ID b' = ID b ∧
                   Messages b' = concat (Messages <$> (b :: rest)) ∧
                   ∀ cid : string,
                     Clients b' !! cid =
                       last (omap (λ x, Clients x !! cid) (b :: rest))
             end)
    end.
Proof.
  intros Hperm. eexists. split; [apply ContractBins_eq|]. split.
  { intros [H0|(k & Hk & Hpow)].
    - rewrite H0. reflexivity.
    - rewrite Hpow, lowest_set_bit_pow2 by done. by rewrite Z.eqb_refl. }
  destruct (lowest_set_bit (currentMask bm)) as [k|]; [|done].
  destruct (currentMask bm =? 2 ^ k); [done|].
  cbn zeta. cbn [currentMask retention bins].
  split; [done|]. split; [done|]. split; [|split].
  - intros old_id b Hb. apply elem_of_colliding. exists old_id. split; [|done].
    rewrite Hperm. by apply elem_of_map_to_list.
  - intros newID b Hin. apply elem_of_colliding in Hin as (old_id & Hin & Hk).
    exists old_id. split; [|done]. rewrite Hperm in Hin.
    by apply elem_of_map_to_list in Hin.
  - intros newID. rewrite rekey_lookup.
    destruct (colliding _ newID order) as [|b rest]; [done|].
    eexists. split; [done|]. split; [apply foldl_mergeFrom_ID|].
    split; [apply foldl_mergeFrom_Messages|].
    intros cid. apply foldl_mergeFrom_Clients.
Qed.

Lemma ContractBins_merges_witness :
  map_to_list (bins two_bins) ≡ₚ map_to_list (bins two_bins) ∧
  ∃ bm', ContractBins (map_to_list (bins two_bins)) two_bins = Some bm' ∧
         currentMask bm' = 0xFFFFFFFFFFFFE000 ∧
         ∃ b', bins bm' !! 0x2000 = Some b' ∧ length (Messages b') = 2%nat.
Proof.
  split; [reflexivity|].
  destruct (ContractBins_merges two_bins (map_to_list (bins two_bins))
              (reflexivity _)) as (bm' & Hc & _ & H).
  exists bm'. split; [exact Hc|].
  change (lowest_set_bit (currentMask two_bins)) with (Some 12) in H.
  change (currentMask two_bins =? 2 ^ 12) with false in H.
  cbn iota zeta in H. destruct H as (Hm & _ & _ & _ & Hb).
  split; [exact Hm|].
  specialize (Hb 0x2000).
  assert (Hcol : ∃ b1 b2, colliding (Z.ldiff (currentMask two_bins) (2 ^ 12))
                   0x2000 (map_to_list (bins two_bins)) = [b1; b2] ∧
                   length (Messages b1) = 1%nat ∧ length (Messages b2) = 1%nat).
  { vm_compute. eexists _, _. split; [reflexivity|]. split; reflexivity. }
  destruct Hcol as (b1 & b2 & Hcol & Hl1 & Hl2). rewrite Hcol in Hb.
  destruct Hb as (b' & Hb' & _ & Hmsgs & _).
  exists b'. split; [exact Hb'|]. rewrite Hmsgs. cbn.
  rewrite app_nil_r, length_app, Hl1, Hl2. reflexivity.
Defined.

(** ** Recursive revocation *)

Section revocation.
Context (children : gmap string (list string)) (clock : Clock).

Lemma visit_children (cs : list string) :
  Forall (visit_spec children clock) cs →
  ∀ st1 : gmap string Time * nat, ∃ (fuel : nat) (st' : gmap string Time * nat),
    (∀ fuel', (fuel ≤ fuel')%nat →
       foldl (λ acc childID,
                acc ≫= revokeRecursive fuel' children clock childID)
         (Some st1) cs = Some st') ∧
    (∀ s, (∃ c, c ∈ cs ∧ reachable children c s) → is_Some (st'.1 !! s)) ∧
    (∀ s, (∀ c, c ∈ cs → ¬ reachable children c s) → st'.1 !! s = st1.1 !! s) ∧
    (∀ s, is_Some (st1.1 !! s) → is_Some (st'.1 !! s)).
Proof.
  induction 1 as [|c cs Hc _ IH]; intros st1.
  - exists 0%nat, st1. split; [done|]. split; [|done].
    intros s (c & Hin & _). by apply elem_of_nil in Hin.
  - destruct (Hc st1) as (fc & st2 & Hrun & Hreach & Hkeep & Hmono).
    destruct (IH st2) as (fr & st' & Hrun' & Hreach' & Hkeep' & Hmono').
    exists (fc `max` fr)%nat, st'. split; [|split; [|split]].
    + intros fuel' Hf. cbn [foldl mbind option_bind].
      rewrite Hrun by lia. apply Hrun'. lia.
    + intros s (c' & Hin & Hs). apply elem_of_cons in Hin as [->|Hin].
      * apply Hmono', Hreach, Hs.
      * apply Hreach'. by exists c'.
    + intros s Hnone. rewrite Hkeep'.
      * apply Hkeep, Hnone. by left.
      * intros c' Hin. apply Hnone. by right.
    + intros s Hs. by apply Hmono', Hmono.
Qed.

Lemma visit_tree (id : string) :
  tree_below children id → visit_spec children clock id.
Proof.
  induction 1 as [id _ IH]. intros st.
  set (st1 := (<[id := clock st.2]> st.1, S st.2)).
  assert (Hst1 : ∀ s, is_Some (st.1 !! s) → is_Some (st1.1 !! s)).
  { intros s Hs. cbn. apply lookup_insert_is_Some.
    destruct (decide (id = s)); [by left|by right]. }
  assert (Hid : is_Some (st1.1 !! id)).
  { cbn. rewrite lookup_insert_eq. by eexists. }
  destruct (children !! id) as [cs|] eqn:Hcs.
  - assert (Hall : Forall (visit_spec children clock) cs).
    { apply Forall_forall. intros c Hin. apply IH. by exists cs. }
    destruct (visit_children cs Hall st1)
      as (fuel & st' & Hrun & Hreach & Hkeep & Hmono).
    exists (S fuel), st'. split; [|split; [|split]].
    + intros [|fuel'] Hf; [lia|]. cbn [revokeRecursive]. rewrite Hcs.
      apply Hrun. lia.
    + intros s Hs. apply rtc_inv in Hs as [->|(c & (cs' & Hcs' & Hin) & Hs)].
      * by apply Hmono.
      * apply Hreach. exists c. split; [congruence|done].
    + intros s Hs. rewrite Hkeep.
      * cbn. apply lookup_insert_ne. intros ->. apply Hs. apply rtc_refl.
      * intros c Hin Hc. apply Hs. eapply rtc_l; [|exact Hc]. by exists cs.
    + intros s Hs. by apply Hmono, Hst1.
  - exists 1%nat, st1. split; [|split; [|split]].
    + intros [|fuel'] Hf; [lia|]. cbn [revokeRecursive]. by rewrite Hcs.
    + intros s Hs. apply rtc_inv in Hs as [->|(c & (cs' & Hcs' & _) & _)].
      * done.
      * congruence.
    + intros s Hs. cbn. apply lookup_insert_ne. intros ->. apply Hs.
      apply rtc_refl.
    + done.
Qed.
End revocation.

(** *** When the children mapping is a tree below a certificate *)

(** A mapping in which every child ranks below its referrer, as is the case
    when a referrer is always registered before its descendants, is a tree
    below every certificate. *)
Lemma ranked_tree_below (children : gmap string (list string))
    (rank : string → nat) (root : string) :
  (∀ p c, referrer_of children p c → (rank c < rank p)%nat) →
  tree_below children root.
Proof.
  intros Hrank.
  assert (Hwf : ∀ m x, (rank x < m)%nat → tree_below children x).
  { induction m as [|m IHm]; intros x Hx; [lia|].
    constructor. intros y Hy. apply IHm.
    pose proof (Hrank x y Hy). lia. }
  apply (Hwf (S (rank root))). lia.
Qed.

Lemma tree_below_reachable (children : gmap string (list string))
    (root s : string) :
  tree_below children root → reachable children root s →
  tree_below children s.
Proof.
  intros Htree Hs. induction Hs as [|x y z Hxy _ IH]; [done|].
  apply IH. by apply (Acc_inv Htree).
Qed.

(** Below a certificate whose subtree is a tree, no serial is its own
    descendant. *)
Lemma tree_below_no_cycle (children : gmap string (list string))
    (root : string) :
  tree_below children root → acyclic_below children root.
Proof.
  intros Htree s Hs.
  pose proof (tree_below_reachable children root s Htree Hs) as Hacc.
  clear Htree Hs. induction Hacc as [s _ IH]. intros Hcyc.
  inversion Hcyc as [? ? Hss|? c ? Hsc Hcs]; subst.
  - exact (IH s Hss Hcyc).
  - apply (IH c Hsc). eapply tc_r; [exact Hcs|exact Hsc].
Qed.

Lemma acyclic_tree_below_aux (children : gmap string (list string))
    (root : string) :
  acyclic_below children root →
  ∀ (n : nat) (V : gset string) (x : string),
    (size (dom children ∖ V) ≤ n)%nat →
    (∀ v, v ∈ V → tc (referrer_of children) v x) →
    reachable children root x →
    tree_below children x.
Proof.
  intros Hacyc n. induction n as [|n IH]; intros V x Hsize HV Hx;
    constructor; intros c Hc.
  - exfalso. assert (Hdom : x ∈ dom children).
    { destruct Hc as (cs & Hcs & _). apply elem_of_dom. by eexists. }
    assert (Hempty : dom children ∖ V = ∅).
    { apply leibniz_equiv, size_empty_iff. lia. }
    assert (HxV : x ∈ V) by set_solver.
    exact (Hacyc x Hx (HV x HxV)).
  - assert (Hdom : x ∈ dom children).
    { destruct Hc as (cs & Hcs & _). apply elem_of_dom. by eexists. }
    destruct (decide (x ∈ V)) as [HxV|HxV].
    { exfalso. exact (Hacyc x Hx (HV x HxV)). }
    apply (IH (V ∪ {[x]})).
    + assert (Heq : dom children ∖ (V ∪ {[x]}) = (dom children ∖ V) ∖ {[x]}).
      { apply set_eq. intros y.
        rewrite !elem_of_difference, elem_of_union. tauto. }
      rewrite Heq, size_difference.
      * rewrite size_singleton. lia.
      * apply singleton_subseteq_l, elem_of_difference. done.
    + intros v Hv. apply elem_of_union in Hv as [Hv|Hv].
      * eapply tc_r; [apply HV, Hv|exact Hc].
      * apply elem_of_singleton in Hv as ->. by apply tc_once.
    + eapply rtc_r; [exact Hx|exact Hc].
Qed.

(** Conversely, a finite children mapping without a cycle below a
    certificate is a tree below it. *)
Lemma acyclic_tree_below (children : gmap string (list string))
    (root : string) :
  acyclic_below children root → tree_below children root.
Proof.
  intros Hacyc.
  apply (acyclic_tree_below_aux children root Hacyc
           (size (dom children)) ∅ root).
  - apply subseteq_size. intros y Hy.
    by apply elem_of_difference in Hy as [? _].
  - intros v Hv. by apply elem_of_empty in Hv.
  - apply rtc_refl.
Qed.

(** C8: on a referrer tree (a children mapping in which no serial
    reachable from the certificate is its own descendant),
    [RevokeWithChildren] returns; it leaves the children mapping alone,
    every serial reachable from the certificate through the children
    mapping is revoked afterwards, and every other serial keeps the entry,
    and so the revocation status, it had before. *)
Theorem RevokeWithChildren_revokes_subtree (clock : Clock)
    (rm : RevocationManager) (n : nat) (root : string) :
  acyclic_below (referrerMapping rm) root →
  ∃ (fuel : nat) (rm' : RevocationManager) (n' : nat),
    (∀ fuel', (fuel ≤ fuel')%nat →
       RevokeWithChildren fuel' clock rm n root = Some (rm', n')) ∧
    referrerMapping rm' = referrerMapping rm ∧
    (∀ s, reachable (referrerMapping rm) root s → IsRevoked rm' s = true) ∧
    (∀ s, ¬ reachable (referrerMapping rm) root s →
       revokedCerts rm' !! s = revokedCerts rm !! s ∧
       IsRevoked rm' s = IsRevoked rm s).
Proof.
  intros Htree. apply acyclic_tree_below in Htree.
  destruct (visit_tree (referrerMapping rm) clock root Htree (revokedCerts rm, n))
    as (fuel & st' & Hrun & Hreach & Hkeep & _).
  exists fuel, (mkRevocationManager st'.1 (referrerMapping rm)), st'.2.
  split; [|split; [done|split]].
  - intros fuel' Hf. unfold RevokeWithChildren. by rewrite Hrun.
  - intros s Hs. unfold IsRevoked. cbn. apply bool_decide_eq_true.
    by apply Hreach.
  - intros s Hs. cbn. unfold IsRevoked. cbn.
    specialize (Hkeep s Hs). cbn in Hkeep. by rewrite Hkeep.
Qed.

(** In scenario 4 every referrer is registered before its descendants. *)
Lemma scenario4_acyclic (root : string) :
  acyclic_below (referrerMapping scenario4) root.
Proof.
  apply tree_below_no_cycle.
  apply (ranked_tree_below _
           (λ s, if decide (s = "root") then 2
                 else if decide (s = "c1") then 1 else 0)%nat).
  intros p c (cs & Hcs & Hin).
  destruct (decide (p = "root")) as [->|Hp1].
  { vm_compute in Hcs. injection Hcs as <-.
    repeat (apply elem_of_cons in Hin as [->|Hin]; [vm_compute; lia|]).
    by apply elem_of_nil in Hin. }
  destruct (decide (p = "c1")) as [->|Hp2].
  { vm_compute in Hcs. injection Hcs as <-.
    repeat (apply elem_of_cons in Hin as [->|Hin]; [vm_compute; lia|]).
    by apply elem_of_nil in Hin. }
  exfalso.
  assert (Hdom : dom (referrerMapping scenario4)
                 = ({["root"; "c1"]} : gset string)) by (by vm_compute).
  apply elem_of_dom_2 in Hcs. rewrite Hdom in Hcs.
  apply elem_of_union in Hcs as [Hcs|Hcs];
    apply elem_of_singleton in Hcs; done.
Qed.

Lemma RevokeWithChildren_revokes_subtree_witness :
  acyclic_below (referrerMapping scenario4) "c1" ∧
  ∃ (fuel : nat) (rm' : RevocationManager) (n' : nat),
    (∀ fuel', (fuel ≤ fuel')%nat →
       RevokeWithChildren fuel' unix_clock scenario4 0 "c1" = Some (rm', n')) ∧
    referrerMapping rm' = referrerMapping scenario4 ∧
    (∀ s, reachable (referrerMapping scenario4) "c1" s →
       IsRevoked rm' s = true) ∧
    (∀ s, ¬ reachable (referrerMapping scenario4) "c1" s →
       revokedCerts rm' !! s = revokedCerts scenario4 !! s ∧
       IsRevoked rm' s = IsRevoked scenario4 s).
Proof.
  split; [exact (scenario4_acyclic "c1")|].
  exact (RevokeWithChildren_revokes_subtree unix_clock scenario4 0 "c1"
           (scenario4_acyclic "c1")).
Defined.

(** Scenario 4, evaluated: after [RevokeWithChildren "c1"] the serials c1,
    g1 and g2 are revoked while root and c2 are not. *)
Lemma scenario4_evaluated :
  (λ rm, IsRevoked rm <$> ["root"; "c1"; "c2"; "g1"; "g2"]) ∘ fst
    <$> RevokeWithChildren 2 unix_clock scenario4 0 "c1"
  = Some [false; true; false; true; true].
Proof. vm_compute. reflexivity. Qed.

(** The recursion has no guard against a children mapping with a cycle: on
    a certificate registered as its own referrer it never returns. *)
Lemma RevokeWithChildren_cycle_diverges (fuel : nat) (n : nat) :
  RevokeWithChildren fuel unix_clock self_referred n "a" = None.
Proof.
  unfold RevokeWithChildren.
  assert (H : ∀ st, revokeRecursive fuel (referrerMapping self_referred)
                      unix_clock "a" st = None).
  { induction fuel as [|fuel IH]; intros st; [done|].
    cbn [revokeRecursive].
    change (referrerMapping self_referred !! "a") with (Some ["a"]).
    cbn [foldl mbind option_bind]. apply IH. }
  by rewrite H.
Qed.

(** ** The revocation endpoint *)

(** Which requests the handler lets through to the revocation: those that
    name the requester's own serial, and those of a requester whose own
    certificate carries its own serial as referrer. *)
Lemma handleCertificateRevoke_authorization (fuel : nat) (clock : Clock)
    (rm : RevocationManager) (n : nat) (cert : Certificate)
    (rest : list Certificate) (req : RevokeRequest) :
  CertificateID req ≠ Serial_String cert →
  ExtractReferrerID cert ≠ Some (Serial_String cert) →
  handleCertificateRevoke fuel clock rm n
    (mkRequest "POST" (Some (cert :: rest)) (Some req))
  = Some (StatusForbidden, (rm, n)).
Proof.
  intros Hself Href. unfold handleCertificateRevoke. cbn.
  destruct (String.eqb_spec (CertificateID req) (Serial_String cert));
    [done|]. cbn.
  destruct (ExtractReferrerID cert) as [referrerID|]; [|done].
  destruct (String.eqb_spec referrerID (Serial_String cert)); [|done].
  congruence.
Qed.

Lemma handleCertificateRevoke_self (clock : Clock)
    (rm : RevocationManager) (n : nat) (cert : Certificate)
    (rest : list Certificate) :
  handleCertificateRevoke 0 clock rm n
    (mkRequest "POST" (Some (cert :: rest))
       (Some (mkRevokeRequest (Serial_String cert) false)))
  = Some (StatusOK, Revoke clock rm n (Serial_String cert)).
Proof.
  unfold handleCertificateRevoke. cbn. by rewrite String.eqb_refl.
Qed.

(** C3, at the input where the code departs from it: the holder of
    certificate 100, the registered referrer of certificate 200, asks for
    the revocation of 200; the handler answers 403 and revokes nothing,
    because it reads the referrer extension of the requester's own
    certificate and not the referrer of the target. *)
Theorem handleCertificateRevoke_refuses_referrer :
  referrer_of (referrerMapping referred_registry)
    (Serial_String referrer_cert) (CertificateID (mkRevokeRequest "200" false)) ∧
  CertificateID (mkRevokeRequest "200" false) ≠ Serial_String referrer_cert ∧
  ∀ fuel, handleCertificateRevoke fuel unix_clock referred_registry 0
            revoke_referred
          = Some (StatusForbidden, (referred_registry, 0%nat)).
Proof.
  split.
  { exists ["200"]. split; [reflexivity|]. by apply list_elem_of_singleton. }
  split; [by vm_compute|].
  intros fuel. reflexivity.
Qed.

(** A requester that is neither the target nor its referrer is refused, as
    the specification asks. *)
Example handleCertificateRevoke_refuses_stranger (fuel : nat) :
  handleCertificateRevoke fuel unix_clock referred_registry 0 revoke_by_stranger
  = Some (StatusForbidden, (referred_registry, 0%nat)).
Proof. reflexivity. Qed.

(** ** The wire form of a message *)

Example Format_test_instant :
  Format_RFC3339Nano test_instant = "2023-01-01T12:34:56.789Z".
Proof. vm_compute. reflexivity. Qed.

Example Format_offset_instant :
  Format_RFC3339Nano (mkTime (t_ns test_instant - 789000000) 7200)
  = "2023-01-01T14:34:56+02:00".
Proof. vm_compute. reflexivity. Qed.

(** A year past 9999 is written with all its digits. *)
Example Format_year_10000 :
  Format_RFC3339Nano (mkTime (3652059 * 86400 * 1000000000) 0)
  = "10000-01-01T00:00:00Z".
Proof. vm_compute. reflexivity. Qed.

(** An offset of less than a minute is written as [+00:00], west as east. *)
Example Format_offset_below_a_minute :
  Format_RFC3339Nano (mkTime (t_ns test_instant) (-30))
  = "2023-01-01T12:34:26.789+00:00" ∧
  Format_RFC3339Nano (mkTime (t_ns test_instant) (-90))
  = "2023-01-01T12:33:26.789-00:01".
Proof. split; vm_compute; reflexivity. Qed.

Lemma append_String_nonempty (s r : string) (c : ascii) :
  s +:+ String c r ≠ "".
Proof. by destruct s. Qed.

Lemma append_nonempty_l (s1 s2 : string) : s1 ≠ "" → s1 +:+ s2 ≠ "".
Proof. by destruct s1. Qed.

Lemma Format_RFC3339Nano_nonempty (t : Time) : Format_RFC3339Nano t ≠ "".
Proof.
  unfold Format_RFC3339Nano.
  destruct (civil_from_days _) as [[year month] day].
  exact (append_String_nonempty (appendInt year 4) _ "-").
Qed.

(** The wire form carries a [timestamp] field exactly when the timestamp of
    the message is not the zero instant. *)
Lemma MarshalJSON_timestamp_field (m : Message) :
  has_field "timestamp" (MarshalJSON m) = negb (Time_IsZero (Timestamp m)).
Proof.
  unfold MarshalJSON, omitempty.
  destruct (Time_IsZero (Timestamp m)) eqn:Hz; [by vm_compute|].
  destruct (String.eqb_spec (Format_RFC3339Nano (Timestamp m)) "") as [He|_].
  { by apply Format_RFC3339Nano_nonempty in He. }
  unfold has_field. apply bool_decide_eq_true. cbn.
  do 3 apply list_elem_of_further. apply list_elem_of_here.
Qed.

(** Every frame of a fan-out carries the admission instant, unless the clock
    reads the zero instant. *)
Lemma fanout_frame_has_timestamp (msg : Message) (now : Time) :
  has_field "timestamp" (fanout_frame msg now) = negb (Time_IsZero now).
Proof. unfold fanout_frame. by rewrite MarshalJSON_timestamp_field. Qed.

(** C2, at the input where the code departs from it: the message of the
    test suite, admitted at 2023-01-01T12:34:56.789Z, is written to a
    subscriber, in the fan-out and in a replay one second later, with a
    [timestamp] field holding the admission instant; only a message whose
    timestamp is the zero instant is written without it. *)
Theorem wire_form_carries_timestamp :
  fanout_frame test_message test_instant =
    [("bin_id", JNumber 4096); ("message_id", JString "test-msg-id");
     ("ciphertext", JBytes (list_byte_of_string "test-data"));
     ("timestamp", JString "2023-01-01T12:34:56.789Z")] ∧
  replay_frames published_test 0x1000 (Time_Add test_instant 1000000000) =
    [[("bin_id", JNumber 4096); ("message_id", JString "test-msg-id");
      ("ciphertext", JBytes (list_byte_of_string "test-data"));
      ("timestamp", JString "2023-01-01T12:34:56.789Z")]] ∧
  MarshalJSON test_message =
    [("bin_id", JNumber 4096); ("message_id", JString "test-msg-id");
     ("ciphertext", JBytes (list_byte_of_string "test-data"))].
Proof. repeat split; vm_compute; reflexivity. Qed.

(** ** Encrypt-then-MAC round trip *)

Section keystore_props.
Context `{GoCrypto} (Hgcm : gcm_open_seal).

Lemma NewCipher_32 (key : list byte) : length key = 32%nat → NewCipher key = Ok key.
Proof. intros Hk. unfold NewCipher. by rewrite Hk. Qed.

Lemma ReadFull_Ok (n : nat) (rand rand' : RandReader) (buf : list byte) :
  ReadFull n rand = (Ok buf, rand') →
  buf = take n rand ∧ rand' = drop n rand ∧ length buf = n.
Proof.
  unfold ReadFull. case_decide as Hn; [|by destruct rand].
  intros [= <- <-]. repeat split. rewrite length_take. lia.
Qed.

Lemma AESGCMDecrypt_AESGCMEncrypt (plaintext key : list byte)
    (rand rand' : RandReader) (ciphertext nonce : list byte) :
  length key = 32%nat →
  AESGCMEncrypt plaintext key rand = (Ok (ciphertext, nonce), rand') →
  length nonce = 12%nat ∧ AESGCMDecrypt ciphertext key nonce = Ok plaintext.
Proof.
  intros Hk. unfold AESGCMEncrypt, AESGCMDecrypt.
  rewrite NewCipher_32 by done. cbn [NewGCM].
  destruct (ReadFull 12 rand) as [[buf|e] r] eqn:Hread; [|done].
  apply ReadFull_Ok in Hread as (_ & _ & Hlen).
  intros [= <- <- <-]. split; [done|].
  rewrite Hlen. cbn. by rewrite Hgcm.
Qed.

Lemma VerifyAndDecrypt_of_Ok (d : list byte) (kp : KeyPair)
    (rand rand' : RandReader) (ct nonce mac : list byte) :
  length (EncryptionKey kp) = 32%nat →
  EncryptAndAuthenticate d kp rand = (Ok (ct, nonce, mac), rand') →
  VerifyAndDecrypt ct nonce mac kp = Ok d.
Proof.
  intros Hk. unfold EncryptAndAuthenticate, VerifyAndDecrypt, EncryptKey,
    DecryptKey.
  destruct (AESGCMEncrypt d (EncryptionKey kp) rand) as [[[c nn]|e] r] eqn:He;
    [|done].
  intros [= <- <- <- <-].
  apply AESGCMDecrypt_AESGCMEncrypt in He as [_ Hdec]; [|done].
  unfold hmac_Equal. by rewrite bool_decide_eq_true_2.
Qed.

Lemma EncryptAndAuthenticate_returns (d : list byte) (kp : KeyPair)
    (rand : RandReader) :
  length (EncryptionKey kp) = 32%nat → (12 ≤ length rand)%nat →
  ∃ ct nonce mac,
    EncryptAndAuthenticate d kp rand = (Ok (ct, nonce, mac), drop 12 rand).
Proof.
  intros Hk Hr. unfold EncryptAndAuthenticate, EncryptKey, AESGCMEncrypt.
  rewrite NewCipher_32 by done. unfold ReadFull.
  rewrite decide_True by done. cbn [NewGCM]. by eexists _, _, _.
Qed.

Lemma DeriveKeyFromPassword_lengths (password : string) (salt : list byte) :
  argon2_IDKey_length →
  length (EncryptionKey (DeriveKeyFromPassword password salt)) = 32%nat ∧
  length (HMACKey (DeriveKeyFromPassword password salt)) = 32%nat.
Proof.
  intros Hlen. unfold DeriveKeyFromPassword. cbn [EncryptionKey HMACKey].
  rewrite length_take, length_drop, Hlen. lia.
Qed.
End keystore_props.

(** C9: with AES-GCM opening what it sealed, under a key pair with a
    32-byte encryption key and a 32-byte HMAC key, whatever
    [EncryptAndAuthenticate] returns for the data [d] is accepted by
    [VerifyAndDecrypt] under the same key pair, which returns exactly [d];
    and [EncryptAndAuthenticate] does return whenever the random source
    delivers the 12 bytes of the nonce. *)
Theorem VerifyAndDecrypt_EncryptAndAuthenticate `{GoCrypto} (d : list byte)
    (kp : KeyPair) (rand : RandReader) :
  gcm_open_seal →
  length (EncryptionKey kp) = 32%nat → length (HMACKey kp) = 32%nat →
  (∀ ct nonce mac rand',
     EncryptAndAuthenticate d kp rand = (Ok (ct, nonce, mac), rand') →
     VerifyAndDecrypt ct nonce mac kp = Ok d) ∧
  ((12 ≤ length rand)%nat →
   ∃ ct nonce mac,
     EncryptAndAuthenticate d kp rand = (Ok (ct, nonce, mac), drop 12 rand) ∧
     VerifyAndDecrypt ct nonce mac kp = Ok d).
Proof.
  intros Hgcm Hk _. split.
  - intros ct nonce mac rand' He. by eapply VerifyAndDecrypt_of_Ok.
  - intros Hr.
    destruct (EncryptAndAuthenticate_returns d kp rand Hk Hr)
      as (ct & nonce & mac & He).
    exists ct, nonce, mac. split; [done|]. by eapply VerifyAndDecrypt_of_Ok.
Qed.

(** Scenario 6, first half: with the key pair derived from a password and a
    salt on both sides, the round trip gives the data back. *)
Lemma round_trip_with_derived_keys `{GoCrypto} (password : string)
    (salt d : list byte) (rand rand' : RandReader) (ct nonce mac : list byte) :
  gcm_open_seal → argon2_IDKey_length →
  EncryptAndAuthenticate d (DeriveKeyFromPassword password salt) rand
    = (Ok (ct, nonce, mac), rand') →
  VerifyAndDecrypt ct nonce mac (DeriveKeyFromPassword password salt) = Ok d.
Proof.
  intros Hgcm Hlen. apply VerifyAndDecrypt_of_Ok; [done|].
  by apply DeriveKeyFromPassword_lengths.
Qed.

Lemma toy_open_seal : @gcm_open_seal toy_crypto.
Proof.
  intros key nonce plaintext Hk Hn. cbn. unfold toy_open, toy_seal.
  assert (Ht : length (toy_tag key nonce) = 16%nat).
  { unfold toy_tag. rewrite length_take, length_app. lia. }
  rewrite length_app, Ht.
  replace (length plaintext + 16 - 16)%nat with (length plaintext) by lia.
  rewrite drop_app_length, take_app_length.
  rewrite bool_decide_eq_true_2; [done|]. split; [done|lia].
Qed.

Lemma toy_argon2_length : @argon2_IDKey_length toy_crypto.
Proof.
  intros password salt time memory threads keyLen. cbn. unfold toy_argon2.
  rewrite length_take, !length_app, length_replicate. lia.
Qed.

Lemma VerifyAndDecrypt_EncryptAndAuthenticate_witness :
  @gcm_open_seal toy_crypto ∧
  length (EncryptionKey toy_keypair) = 32%nat ∧
  length (HMACKey toy_keypair) = 32%nat ∧
  (∀ ct nonce mac rand',
     @EncryptAndAuthenticate toy_crypto toy_data toy_keypair toy_rand
       = (Ok (ct, nonce, mac), rand') →
     @VerifyAndDecrypt toy_crypto ct nonce mac toy_keypair = Ok toy_data) ∧
  ((12 ≤ length toy_rand)%nat →
   ∃ ct nonce mac,
     @EncryptAndAuthenticate toy_crypto toy_data toy_keypair toy_rand
       = (Ok (ct, nonce, mac), drop 12 toy_rand) ∧
     @VerifyAndDecrypt toy_crypto ct nonce mac toy_keypair = Ok toy_data).
Proof.
  assert (H1 : length (EncryptionKey toy_keypair) = 32%nat) by reflexivity.
  assert (H2 : length (HMACKey toy_keypair) = 32%nat) by reflexivity.
  split; [exact toy_open_seal|]. split; [exact H1|]. split; [exact H2|].
  exact (@VerifyAndDecrypt_EncryptAndAuthenticate toy_crypto toy_data
           toy_keypair toy_rand toy_open_seal H1 H2).
Defined.

(** ** The test suite and the scenarios, replayed on the embedding *)

(** [TestBinRemoveMessagesBefore], first half: with a cutoff 90 minutes
    before [now], msg3 and msg4 are left. *)
Example test_RemoveMessagesBefore_first_half :
  MessageID <$> Messages (Bin_RemoveMessagesBefore four_messages
                            (Time_Add test_now (-90 * minute)))
  = ["msg3"; "msg4"].
Proof. vm_compute. reflexivity. Qed.

(** [TestBinRemoveMessagesBefore], second half: with a cutoff one hour after
    [now] the test expects no message; both are still there. *)
Example test_RemoveMessagesBefore_second_half :
  MessageID <$> Messages
    (Bin_RemoveMessagesBefore
       (Bin_RemoveMessagesBefore four_messages (Time_Add test_now (-90 * minute)))
       (Time_Add test_now hour))
  = ["msg3"; "msg4"].
Proof. vm_compute. reflexivity. Qed.

(** [TestBinMergeFrom]: both messages and both clients after the merge. *)
Example test_mergeFrom :
  MessageID <$> Messages (mergeFrom merge_bin1 merge_bin2) = ["msg1"; "msg2"] ∧
  dom (Clients (mergeFrom merge_bin1 merge_bin2))
    = ({["client1"; "client2"]} : gset string).
Proof. split; [reflexivity|]. by vm_compute. Qed.

(** [TestBinManagerBasicFunctionality]: the bin of a channel. *)
Example test_GetBinID :
  GetBinID fresh_manager 0x1234567890ABCDEF = 0x1234567890ABC000.
Proof. reflexivity. Qed.

(** [TestBinManagerEdgeCases]: a mask of one bit does not contract, a mask of
    64 bits does not expand. *)
Example test_edge_cases :
  ContractBins [] (NewBinManager (C:=MockClient) 1 hour)
    = Some (NewBinManager 1 hour) ∧
  ExpandBins (NewBinManager (C:=MockClient) 0xFFFFFFFFFFFFFFFF hour)
    = Some (NewBinManager 0xFFFFFFFFFFFFFFFF hour).
Proof. split; vm_compute; reflexivity. Qed.

(** Scenario 1: contracting mask 0xFFFFFFFFFFFFF000 clears its lowest set
    bit, and channel 0x9000 then belongs to bin 0x8000. *)
Example scenario1_contract :
  currentMask <$> ContractBins (map_to_list (bins scenario1)) scenario1
    = Some 0xFFFFFFFFFFFFE000 ∧
  Z.land 0x9000 0xFFFFFFFFFFFFE000 = 0x8000.
Proof. split; vm_compute; reflexivity. Qed.

(** Scenario 3: a message published at instant 0 with a retention of 100 ms
    is not recent any more at 250 ms. *)
Example scenario3_recent_empty :
  GetRecentMessages
    (AddMessage (NewBinManager (C:=MockClient) 0xFFFFFFFFFFFFF000 100000000)
       (NewMessage 0x1000 "m1" []) (mkTime 0 0))
    0x1000 (mkTime 250000000 0)
  = [].
Proof. vm_compute. reflexivity. Qed.

(** The two colliding bins of [two_bins] after a contraction: one bin under
    key 0x2000 with both messages, and the subscriber "c" of the bin visited
    last. *)
Example two_bins_contracted :
  (λ bm', (MessageID <$> Messages (default (NewBin 0) (bins bm' !! 0x2000)),
           mock_closed <$> Clients (default (NewBin 0) (bins bm' !! 0x2000)) !! "c",
           bins bm' !! 0x3000))
    <$> ContractBins [(0x2000, default (NewBin 0) (bins two_bins !! 0x2000));
                      (0x3000, default (NewBin 0) (bins two_bins !! 0x3000))]
          two_bins
  = Some (["a"; "b"], Some true, None).
Proof. vm_compute. reflexivity. Qed.

(** * Further properties of the code *)

(** ** Readers and the cleanup service *)

Lemma expired_mono (c1 c2 : Time) (m : Message) :
  t_ns c1 ≤ t_ns c2 → expired c1 m → expired c2 m.
Proof.
  unfold expired, Time_After. intros Hc Hm.
  apply Z.ltb_ge in Hm. apply Z.ltb_ge. lia.
Qed.

Lemma recent_after_RemoveMessagesBefore {C} (b : Bin C) (c1 c2 : Time) :
  t_ns c1 ≤ t_ns c2 →
  filter (λ m, Time_After (Timestamp m) c2 = true)
    (Messages (Bin_RemoveMessagesBefore b c1))
  = filter (λ m, Time_After (Timestamp m) c2 = true) (Messages b).
Proof.
  intros Hc.
  destruct (split_at_first_after c1 (Messages b))
    as [Hall|(l1 & m & l2 & Hb & Hl1 & Hm)].
  - by rewrite RemoveMessagesBefore_none.
  - rewrite (RemoveMessagesBefore_split b c1 l1 l2 m) by done.
    rewrite Hb, filter_app, (filter_all_expired c2 l1); [done|].
    eapply Forall_impl; [exact Hl1|]. intros x. by apply expired_mono.
Qed.

(** X1.  A cleanup tick is invisible to readers: at every instant not earlier
    than the tick, every bin reports the same recent messages with and
    without the tick. *)
Theorem cleanup_invisible_to_readers {C} (bm : BinManager C) (tick now : Time)
    (binID : Z) :
  t_ns tick ≤ t_ns now →
  GetRecentMessages (cleanup bm tick) binID now = GetRecentMessages bm binID now.
Proof.
  intros Ht. unfold GetRecentMessages, cleanup. cbn [bins retention].
  rewrite lookup_fmap. destruct (bins bm !! binID) as [b|]; cbn; [|done].
  unfold Bin_GetRecentMessages. apply recent_after_RemoveMessagesBefore.
  cbn. lia.
Qed.

Lemma cleanup_invisible_to_readers_witness :
  t_ns (mkTime 5 0) ≤ t_ns later_instant ∧
  GetRecentMessages (cleanup two_bins (mkTime 5 0)) 0x2000 later_instant
    = GetRecentMessages two_bins 0x2000 later_instant.
Proof.
  assert (H : t_ns (mkTime 5 0) ≤ t_ns later_instant) by (cbn; lia).
  split; [exact H|].
  exact (cleanup_invisible_to_readers two_bins (mkTime 5 0) later_instant
           0x2000 H).
Defined.

(** X2.  What a reader gets: messages of the bin, in the order of the bin, each
    newer than the cutoff [now.Add(-retention)] that the code computes, the
    negation being the one of [int64]; for every retention but
    [math.MinInt64], whose negation wraps, that is: newer than
    [now - retention].  And the later the reading, the fewer. *)
Theorem GetRecentMessages_shrinks {C} (bm : BinManager C) (binID : Z)
    (now1 now2 : Time) :
  t_ns now1 ≤ t_ns now2 →
  GetRecentMessages bm binID now2 `sublist_of` GetRecentMessages bm binID now1 ∧
  GetRecentMessages bm binID now1
    `sublist_of` default [] (Messages <$> bins bm !! binID) ∧
  Forall (λ m, t_ns now2 + Duration_neg (retention bm) < t_ns (Timestamp m))
    (GetRecentMessages bm binID now2) ∧
  (retention bm ≠ MinInt64 →
   Forall (λ m, t_ns now2 - retention bm < t_ns (Timestamp m))
     (GetRecentMessages bm binID now2)).
Proof.
  intros Hn. unfold GetRecentMessages.
  destruct (bins bm !! binID) as [b|]; cbn; [|done].
  unfold Bin_GetRecentMessages.
  assert (Hcut : Forall
            (λ m, t_ns now2 + Duration_neg (retention bm) < t_ns (Timestamp m))
            (filter (λ m, Time_After (Timestamp m)
                            (Time_Add now2 (Duration_neg (retention bm))) = true)
               (Messages b))).
  { apply Forall_forall. intros m Hm. apply list_elem_of_filter in Hm as [Hm _].
    unfold Time_After, Time_Add in Hm. cbn in Hm. by apply Z.ltb_lt in Hm. }
  split; [|split; [|split]].
  - rewrite <- (list_filter_filter_l
                  (λ m, Time_After (Timestamp m)
                          (Time_Add now2 (Duration_neg (retention bm))) = true)
                  (λ m, Time_After (Timestamp m)
                          (Time_Add now1 (Duration_neg (retention bm))) = true)).
    + apply sublist_filter.
    + intros m. unfold Time_After, Time_Add. cbn. rewrite !Z.ltb_lt. lia.
  - apply sublist_filter.
  - exact Hcut.
  - intros Hr. eapply Forall_impl; [exact Hcut|]. intros m Hm. cbn in Hm.
    rewrite (Duration_neg_opp _ Hr) in Hm. lia.
Qed.

Lemma GetRecentMessages_shrinks_witness :
  t_ns (mkTime 5 0) ≤ t_ns later_instant ∧
  GetRecentMessages two_bins 0x2000 later_instant
    `sublist_of` GetRecentMessages two_bins 0x2000 (mkTime 5 0).
Proof.
  assert (H : t_ns (mkTime 5 0) ≤ t_ns later_instant) by (cbn; lia).
  split; [exact H|].
  exact (proj1 (GetRecentMessages_shrinks two_bins 0x2000 (mkTime 5 0)
                  later_instant H)).
Defined.

(** At the retention [math.MinInt64] the negation wraps and the cutoff lies
    [2 ^ 63] nanoseconds before the reading: a message published 40
    nanoseconds before the reading is reported. *)
Example GetRecentMessages_at_MinInt64 :
  MessageID <$>
    GetRecentMessages
      (AddMessage (NewBinManager (C:=MockClient) 0xFFFFFFFFFFFFF000 MinInt64)
         (NewMessage 0x1000 "m1" []) (mkTime 10 0))
      0x1000 (mkTime 50 0)
  = ["m1"].
Proof. reflexivity. Qed.

(** ** Invariant I3 under publishing and cleanup *)

Lemma StronglySorted_drop (n : nat) (l : list Message) :
  StronglySorted time_le l → StronglySorted time_le (drop n l).
Proof.
  intros Hs. rewrite <- (take_drop n l) in Hs.
  by apply StronglySorted_app_1_r in Hs.
Qed.

Lemma RemoveMessagesBefore_keeps_I3 {C} (b : Bin C) (cutoff : Time) :
  I3 b → I3 (Bin_RemoveMessagesBefore b cutoff).
Proof.
  intros Hs. unfold Bin_RemoveMessagesBefore.
  destruct (0 <? first_after cutoff 0 (Messages b) 0)%nat; [|done].
  unfold I3. cbn. by apply StronglySorted_drop.
Qed.

(** X3.  Messages stay in timestamp order: a publish whose clock reading is not
    earlier than the timestamps already in the destination bin keeps I3 in
    every bin, and so does every cleanup tick. *)
Theorem I3_kept {C} `{!Client C} (bm : BinManager C) (msg : Message)
    (now tick : Time) :
  I3_all bm →
  (∀ b m, bins bm !! BinID msg = Some b → m ∈ Messages b →
          t_ns (Timestamp m) ≤ t_ns now) →
  I3_all (AddMessage bm msg now) ∧ I3_all (cleanup bm tick).
Proof.
  intros HI Hclock. split.
  - unfold I3_all. rewrite AddMessage_bins.
    apply map_Forall_insert_2; [|done].
    unfold I3. cbn [Messages BroadcastMessage Bin_AddMessage].
    apply StronglySorted_app_2.
    + intros m1 m2 Hm1 Hm2. apply list_elem_of_singleton in Hm2 as ->.
      unfold time_le. cbn.
      destruct (bins bm !! BinID msg) as [b|] eqn:Hb; cbn in Hm1.
      * by eapply Hclock.
      * by apply elem_of_nil in Hm1.
    + destruct (bins bm !! BinID msg) as [b|] eqn:Hb; cbn.
      * exact (HI _ _ Hb).
      * constructor.
    + repeat constructor.
  - unfold I3_all, cleanup. cbn [bins]. apply map_Forall_fmap.
    intros k b Hb. cbn. apply RemoveMessagesBefore_keeps_I3. exact (HI k b Hb).
Qed.

Lemma I3_kept_witness :
  I3_all two_bins ∧
  I3_all (AddMessage two_bins (NewMessage 0x2000 "c" []) later_instant) ∧
  I3_all (cleanup two_bins later_instant).
Proof.
  assert (H1 : I3_all two_bins).
  { apply (map_Forall_to_list _ _). vm_compute. repeat constructor. }
  assert (H2 : ∀ b m, bins two_bins !! BinID (NewMessage 0x2000 "c" [])
                        = Some b → m ∈ Messages b →
                      t_ns (Timestamp m) ≤ t_ns later_instant).
  { intros b m Hb Hm. vm_compute in Hb. injection Hb as <-. cbn in Hm.
    apply list_elem_of_singleton in Hm as ->. cbn. lia. }
  split; [exact H1|].
  exact (I3_kept two_bins (NewMessage 0x2000 "c" []) later_instant
           later_instant H1 H2).
Defined.

(** ** Invariant I1 under masked publishing and subscribing *)

Lemma get_or_create_store {C} (bm : BinManager C) (binID : Z)
    (f : Bin C → Bin C) :
  bins (let '(bm1, bin) := get_or_create bm binID in store_bin bm1 binID (f bin))
  = <[binID := f (default (NewBin binID) (bins bm !! binID))]> (bins bm).
Proof. rewrite get_or_create_lookup. cbn. by rewrite insert_insert_eq. Qed.

Lemma Subscribe_bins {C} (bm : BinManager C) (binID : Z) (clientID : string)
    (client : C) :
  bins (Subscribe bm binID clientID client) =
    <[binID := AddClient (default (NewBin binID) (bins bm !! binID))
                 clientID client]> (bins bm).
Proof.
  unfold Subscribe.
  exact (get_or_create_store bm binID (λ b, AddClient b clientID client)).
Qed.

Lemma Subscribe_mask {C} (bm : BinManager C) (binID : Z) (clientID : string)
    (client : C) :
  currentMask (Subscribe bm binID clientID client) = currentMask bm ∧
  retention (Subscribe bm binID clientID client) = retention bm.
Proof. unfold Subscribe. by rewrite get_or_create_lookup. Qed.

(** X4.  A caller that masks the channel with [GetBinID], as [AddMessage]
    expects, keeps invariant I1 in both its forms, when publishing and when
    subscribing. *)
Theorem masked_calls_keep_I1 {C} `{!Client C} (bm : BinManager C)
    (channelID : Z) (messageID clientID : string) (ciphertext : list byte)
    (client : C) (now : Time) :
  (I1_keys bm →
   I1_keys (AddMessage bm
              (NewMessage (GetBinID bm channelID) messageID ciphertext) now) ∧
   I1_keys (Subscribe bm (GetBinID bm channelID) clientID client)) ∧
  (I1_ids bm →
   I1_ids (AddMessage bm
             (NewMessage (GetBinID bm channelID) messageID ciphertext) now) ∧
   I1_ids (Subscribe bm (GetBinID bm channelID) clientID client)).
Proof.
  assert (Hmasked : Z.land (GetBinID bm channelID) (currentMask bm)
                    = GetBinID bm channelID) by apply land_land_same.
  split; intros HI; split.
  - unfold I1_keys. rewrite AddMessage_mask, AddMessage_bins.
    by apply map_Forall_insert_2.
  - unfold I1_keys. rewrite (proj1 (Subscribe_mask _ _ _ _)), Subscribe_bins.
    by apply map_Forall_insert_2.
  - unfold I1_ids. rewrite AddMessage_mask, AddMessage_bins.
    apply map_Forall_insert_2; [|done]. cbn.
    destruct (bins bm !! GetBinID bm channelID) as [b|] eqn:Hb; cbn; [|done].
    exact (HI _ _ Hb).
  - unfold I1_ids. rewrite (proj1 (Subscribe_mask _ _ _ _)), Subscribe_bins.
    apply map_Forall_insert_2; [|done]. cbn.
    destruct (bins bm !! GetBinID bm channelID) as [b|] eqn:Hb; cbn; [|done].
    exact (HI _ _ Hb).
Qed.

Lemma masked_calls_keep_I1_witness :
  I1_keys two_bins ∧
  I1_keys (AddMessage two_bins
             (NewMessage (GetBinID two_bins 0x1234567890ABCDEF) "x" [])
             later_instant) ∧
  I1_keys (Subscribe two_bins (GetBinID two_bins 0x1234567890ABCDEF) "x"
             (mkMockClient false)).
Proof.
  assert (H : I1_keys two_bins).
  { apply (bool_decide_unpack _). vm_compute. exact I. }
  split; [exact H|].
  exact (proj1 (masked_calls_keep_I1 two_bins 0x1234567890ABCDEF "x" "x" []
                  (mkMockClient false) later_instant) H).
Defined.

(** ** Subscribing and unsubscribing *)

(** X5.  [Subscribe] files the handle under the client identifier in the bin of
    the given key, replacing a handle already filed under that identifier
    and creating the bin when absent; it touches no other subscriber, no
    other bin, no message and not the mask, so that every bin reports the
    same recent messages as before, none for a bin it created. *)
Theorem Subscribe_upserts {C} (bm : BinManager C) (binID : Z)
    (clientID : string) (client : C) :
  (∃ b', bins (Subscribe bm binID clientID client) !! binID = Some b' ∧
         Clients b' !! clientID = Some client ∧
         (∀ other, other ≠ clientID →
            Clients b' !! other = bins bm !! binID ≫= λ b, Clients b !! other) ∧
         Messages b' = default [] (Messages <$> bins bm !! binID)) ∧
  (∀ k, k ≠ binID →
     bins (Subscribe bm binID clientID client) !! k = bins bm !! k) ∧
  currentMask (Subscribe bm binID clientID client) = currentMask bm ∧
  (∀ k now, GetRecentMessages (Subscribe bm binID clientID client) k now
            = GetRecentMessages bm k now).
Proof.
  split; [|split; [|split]].
  - eexists. rewrite Subscribe_bins, lookup_insert_eq. split; [done|].
    cbn. rewrite lookup_insert_eq. split; [done|]. split.
    + intros other Hne. rewrite lookup_insert_ne by done.
      by destruct (bins bm !! binID).
    + by destruct (bins bm !! binID).
  - intros k Hk. by rewrite Subscribe_bins, lookup_insert_ne.
  - apply Subscribe_mask.
  - intros k now. unfold GetRecentMessages.
    rewrite (proj2 (Subscribe_mask _ _ _ _)), Subscribe_bins.
    destruct (decide (k = binID)) as [->|Hk].
    + rewrite lookup_insert_eq. by destruct (bins bm !! binID).
    + by rewrite lookup_insert_ne.
Qed.

Lemma Subscribe_upserts_witness :
  ∃ b', bins (Subscribe replay_manager 0x2000 "c-1" open_client) !! 0x2000
          = Some b' ∧
        Clients b' !! "c-1" = Some open_client ∧
        length (Messages b') = 2%nat.
Proof.
  destruct (Subscribe_upserts replay_manager 0x2000 "c-1" open_client)
    as [(b' & Hb & Hc & _ & Hm) _].
  exists b'. split; [exact Hb|]. split; [exact Hc|]. by rewrite Hm.
Defined.

(** X6.  [Unsubscribe] undoes the subscription of a client identifier that was
    not subscribed before, except that a bin created by the subscription
    stays, empty; on a key without bin it does nothing. *)
Theorem Unsubscribe_undoes_Subscribe {C} (bm : BinManager C) (binID : Z)
    (clientID : string) (client : C) :
  (bins bm !! binID ≫= λ b, Clients b !! clientID) = None →
  bins (Unsubscribe (Subscribe bm binID clientID client) binID clientID)
    = <[binID := default (NewBin binID) (bins bm !! binID)]> (bins bm) ∧
  (is_Some (bins bm !! binID) →
   Unsubscribe (Subscribe bm binID clientID client) binID clientID = bm) ∧
  (bins bm !! binID = None → Unsubscribe bm binID clientID = bm).
Proof.
  intros Hfresh.
  assert (Hbins :
    bins (Unsubscribe (Subscribe bm binID clientID client) binID clientID)
    = <[binID := default (NewBin binID) (bins bm !! binID)]> (bins bm)).
  { unfold Unsubscribe. rewrite Subscribe_bins, lookup_insert_eq.
    cbn [bins store_bin]. rewrite Subscribe_bins, insert_insert_eq.
    f_equal. unfold RemoveClient, AddClient. cbn.
    rewrite delete_insert_eq.
    destruct (bins bm !! binID) as [b|]; cbn in *.
    - rewrite delete_id by done. by destruct b.
    - by rewrite delete_empty. }
  split; [exact Hbins|]. split.
  - intros [b Hb].
    pose proof (Subscribe_mask bm binID clientID client) as [Hm Hr].
    assert (Heq : ∀ x y : BinManager C,
              bins x = bins y → currentMask x = currentMask y →
              retention x = retention y → x = y).
    { intros [] [] ???. cbn in *. by subst. }
    apply Heq.
    + rewrite Hbins, Hb. cbn. by rewrite insert_id.
    + unfold Unsubscribe. rewrite Subscribe_bins, lookup_insert_eq. done.
    + unfold Unsubscribe. rewrite Subscribe_bins, lookup_insert_eq. done.
  - intros Hnone. unfold Unsubscribe. by rewrite Hnone.
Qed.

Lemma Unsubscribe_undoes_Subscribe_witness :
  (bins two_bins !! 0x2000 ≫= λ b, Clients b !! "d") = None ∧
  Unsubscribe (Subscribe two_bins 0x2000 "d" (mkMockClient false)) 0x2000 "d"
    = two_bins.
Proof.
  assert (H : (bins two_bins !! 0x2000 ≫= λ b, Clients b !! "d") = None)
    by (by vm_compute).
  split; [exact H|].
  destruct (Unsubscribe_undoes_Subscribe two_bins 0x2000 "d"
              (mkMockClient false) H) as (_ & Hsame & _).
  apply Hsame. vm_compute. by eexists.
Defined.

(** ** Fan-out *)

(** X7.  A publish serves the subscribers of the destination bin and of no other
    bin: afterwards a handle is filed in the destination bin exactly when it
    was filed there before and its send succeeded; no subscriber is ever
    added. *)
Theorem publish_prunes_failed_sends {C} `{!Client C} (bm : BinManager C)
    (msg : Message) (now : Time) (clientID : string) (client : C) :
  (bins (AddMessage bm msg now) !! BinID msg ≫= λ b, Clients b !! clientID)
    = Some client ↔
  (bins bm !! BinID msg ≫= λ b, Clients b !! clientID) = Some client ∧
  SendMessage client (set_Timestamp msg now) = true.
Proof.
  rewrite AddMessage_bins, lookup_insert_eq. cbn.
  rewrite map_lookup_filter_Some. cbn.
  destruct (bins bm !! BinID msg) as [b|]; cbn; [done|].
  rewrite lookup_empty. naive_solver.
Qed.

Lemma publish_prunes_failed_sends_witness :
  (bins (AddMessage
           (Subscribe replay_manager 0x2000 "c-1" (mkWsClient true true))
           (NewMessage 0x2000 "m3" []) (mkTime 3000 0)) !! 0x2000
     ≫= λ b, Clients b !! "c-1") ≠ Some (mkWsClient true true).
Proof.
  intros H.
  apply (proj1 (publish_prunes_failed_sends
                  (Subscribe replay_manager 0x2000 "c-1" (mkWsClient true true))
                  (NewMessage 0x2000 "m3" []) (mkTime 3000 0) "c-1"
                  (mkWsClient true true))) in H.
  destruct H as [_ Hsend]. discriminate Hsend.
Defined.

(** ** Expanding, then contracting *)

Lemma lor_1_ldiff_1 (mask : Z) :
  Z.testbit mask 0 = false → Z.ldiff (Z.lor mask 1) 1 = mask.
Proof.
  intros Hb. apply Z.bits_inj'. intros n Hn.
  rewrite Z.ldiff_spec, Z.lor_spec.
  destruct (decide (n = 0)) as [->|Hne].
  - rewrite Hb. reflexivity.
  - replace (Z.testbit 1 n) with false.
    + by rewrite orb_false_r, andb_true_r.
    + symmetry. apply (Z.pow2_bits_false 0 n). lia.
Qed.

Lemma lor_1_not_1 (mask : Z) :
  Z.testbit mask 0 = false → mask ≠ 0 → Z.lor mask 1 ≠ 1.
Proof.
  intros Hb Hne Heq. apply Hne. apply Z.bits_inj'. intros n Hn.
  rewrite Z.bits_0.
  destruct (decide (n = 0)) as [->|Hn0]; [done|].
  assert (Hbit : Z.testbit (Z.lor mask 1) n = Z.testbit 1 n) by by rewrite Heq.
  rewrite Z.lor_spec in Hbit.
  replace (Z.testbit 1 n) with false in Hbit.
  - by apply orb_false_iff in Hbit as [? _].
  - symmetry. apply (Z.pow2_bits_false 0 n). lia.
Qed.

Lemma lowest_set_bit_lor_1 (mask : Z) : lowest_set_bit (Z.lor mask 1) = Some 0.
Proof.
  apply lowest_set_bit_Some. split; [lia|]. split; [|intros j Hj; lia].
  rewrite Z.lor_spec. apply orb_true_r.
Qed.

Lemma filter_key_NoDup {A} (k : Z) (l : list (Z * A)) :
  NoDup l.*1 →
  (filter (λ e, e.1 = k) l).*2 =
    match list_to_map (M:=gmap Z A) l !! k with
    | Some v => [v]
    | None => []
    end.
Proof.
  induction l as [|[k' v] l IH]; intros Hnd; [done|].
  cbn in Hnd. apply NoDup_cons in Hnd as [Hnotin Hnd].
  rewrite filter_cons. cbn. case_decide as Hk.
  - subst k'. rewrite lookup_insert_eq. cbn. f_equal.
    rewrite IH by done.
    rewrite (not_elem_of_list_to_map_1 _ k); [done|exact Hnotin].
  - rewrite lookup_insert_ne by done. by apply IH.
Qed.

Lemma colliding_consistent {C} (mask k : Z) (table : gmap Z (Bin C))
    (order : list (Z * Bin C)) :
  order ≡ₚ map_to_list table →
  map_Forall (λ key _, Z.land key mask = key) table →
  colliding mask k order =
    match table !! k with
    | Some b => [b]
    | None => []
    end.
Proof.
  intros Hperm HI. unfold colliding.
  assert (Hnd : NoDup order.*1).
  { rewrite Hperm. apply NoDup_fst_map_to_list. }
  assert (Hmap : list_to_map (M:=gmap Z (Bin C)) order = table).
  { rewrite <- (list_to_map_to_list table).
    apply list_to_map_proper; [done|exact Hperm]. }
  rewrite <- Hmap. rewrite <- filter_key_NoDup by done. f_equal.
  assert (Hall : Forall (λ e, Z.land e.1 mask = e.1) order).
  { apply Forall_forall. intros [key b] Hin. rewrite Hperm in Hin.
    apply elem_of_map_to_list in Hin. exact (HI key b Hin). }
  clear -Hall. induction Hall as [|e l He _ IH]; [done|].
  rewrite !filter_cons, IH, He. done.
Qed.

(** X8.  When bit 0 of the mask is unset and the mask is not zero (as for
    0xFFFFFFFFFFFFF000) and every bin is filed under a mask-consistent key,
    an expansion followed by a contraction gives the manager back: same
    mask, same table. *)
Theorem ExpandBins_then_ContractBins {C} (bm : BinManager C)
    (order : list (Z * Bin C)) :
  Z.testbit (currentMask bm) 0 = false → currentMask bm ≠ 0 →
  I1_keys bm → order ≡ₚ map_to_list (bins bm) →
  ExpandBins bm ≫= ContractBins order = Some bm.
Proof.
  intros Hb Hne HI Hperm. rewrite ExpandBins_eq.
  assert (Hk : lowest_unset_bit (currentMask bm) = Some 0).
  { apply lowest_unset_bit_Some. split; [lia|]. split; [done|].
    intros j Hj. lia. }
  rewrite Hk. cbn [mbind option_bind]. rewrite ContractBins_eq.
  cbn [currentMask bins retention].
  change (2 ^ 0) with 1. rewrite lowest_set_bit_lor_1.
  change (2 ^ 0) with 1.
  destruct (Z.eqb_spec (Z.lor (currentMask bm) 1) 1) as [Heq|_].
  { by apply lor_1_not_1 in Heq. }
  cbn zeta. rewrite lor_1_ldiff_1 by done. f_equal.
  destruct bm as [table mask r]. cbn in *. f_equal.
  apply map_eq. intros k. rewrite rekey_lookup.
  rewrite (colliding_consistent mask k table order Hperm HI).
  by destruct (table !! k).
Qed.

Lemma ExpandBins_then_ContractBins_witness :
  Z.testbit (currentMask two_bins) 0 = false ∧ currentMask two_bins ≠ 0 ∧
  I1_keys two_bins ∧
  ExpandBins two_bins ≫= ContractBins (map_to_list (bins two_bins))
    = Some two_bins.
Proof.
  assert (H1 : Z.testbit (currentMask two_bins) 0 = false) by reflexivity.
  assert (H2 : currentMask two_bins ≠ 0) by (vm_compute; discriminate).
  assert (H3 : I1_keys two_bins).
  { apply (bool_decide_unpack _). vm_compute. exact I. }
  split; [exact H1|]. split; [exact H2|]. split; [exact H3|].
  exact (ExpandBins_then_ContractBins two_bins (map_to_list (bins two_bins))
           H1 H2 H3 (reflexivity _)).
Defined.

(** ** What a contraction keeps *)

Lemma concat_fmap_Permutation {A B} (f : A → list B) (l1 l2 : list A) :
  l1 ≡ₚ l2 → concat (f <$> l1) ≡ₚ concat (f <$> l2).
Proof.
  induction 1 as [|x l1 l2 _ IH|x y l|l1 l2 l3 _ IH1 _ IH2]; cbn.
  - done.
  - by rewrite IH.
  - rewrite !app_assoc. f_equiv. apply Permutation_app_comm.
  - by rewrite IH1.
Qed.

Lemma all_messages_insert_new {C} (table : gmap Z (Bin C)) (k : Z) (b : Bin C) :
  table !! k = None →
  all_messages (<[k := b]> table) ≡ₚ all_messages table ++ Messages b.
Proof.
  intros Hk. unfold all_messages.
  rewrite (concat_fmap_Permutation Messages _ (b :: (map_to_list table).*2)).
  - cbn. apply Permutation_app_comm.
  - rewrite (map_to_list_insert table k b Hk). done.
Qed.

Lemma all_messages_rekey_step {C} (newMask : Z) (acc : gmap Z (Bin C))
    (e : Z * Bin C) :
  all_messages (rekey_step newMask acc e) ≡ₚ all_messages acc ++ Messages e.2.
Proof.
  unfold rekey_step.
  destruct (acc !! Z.land e.1 newMask) as [a|] eqn:Ha.
  - rewrite <- (insert_delete_id acc (Z.land e.1 newMask) a Ha) at 1.
    rewrite insert_insert_eq.
    rewrite all_messages_insert_new by apply lookup_delete_eq.
    rewrite <- (insert_delete_id acc (Z.land e.1 newMask) a Ha) at 2.
    rewrite (all_messages_insert_new (delete _ acc) _ a)
      by apply lookup_delete_eq.
    cbn. by rewrite app_assoc.
  - by apply all_messages_insert_new.
Qed.

Lemma all_messages_rekey_fold {C} (newMask : Z) (order : list (Z * Bin C))
    (acc : gmap Z (Bin C)) :
  all_messages (foldl (rekey_step newMask) acc order)
  ≡ₚ all_messages acc ++ concat (Messages <$> order.*2).
Proof.
  revert acc. induction order as [|e order IH]; intros acc; cbn.
  - by rewrite app_nil_r.
  - rewrite IH, all_messages_rekey_step. by rewrite <- app_assoc.
Qed.

Lemma last_omap_is_Some {A B} (f : A → option B) (l : list A) (x : A) :
  x ∈ l → is_Some (f x) → is_Some (last (omap f l)).
Proof.
  intros Hin [y Hy].
  assert (Hne : omap f l ≠ []).
  { intros Hnil. assert (Hy' : y ∈ omap f l).
    { apply list_elem_of_omap. by exists x. }
    rewrite Hnil in Hy'. by apply elem_of_nil in Hy'. }
  destruct (omap f l) as [|z t] using rev_ind; [done|].
  rewrite last_snoc. by eexists.
Qed.

(** X9.  A contraction loses nothing: whatever the order of its visit, the
    messages held by the table afterwards are those held before, each as
    often as before, and every client identifier subscribed in some bin
    before is subscribed in some bin afterwards. *)
Theorem ContractBins_loses_nothing {C} (bm : BinManager C)
    (order : list (Z * Bin C)) :
  order ≡ₚ map_to_list (bins bm) →
  ∃ bm', ContractBins order bm = Some bm' ∧
    all_messages (bins bm') ≡ₚ all_messages (bins bm) ∧
    ∀ binID b clientID,
      bins bm !! binID = Some b → is_Some (Clients b !! clientID) →
      ∃ newID b', bins bm' !! newID = Some b' ∧ is_Some (Clients b' !! clientID).
Proof.
  intros Hperm. rewrite ContractBins_eq. eexists. split; [reflexivity|].
  destruct (lowest_set_bit (currentMask bm)) as [k|]; [|by eauto].
  destruct (currentMask bm =? 2 ^ k); [by eauto|].
  cbn zeta. cbn [bins]. split.
  - rewrite all_messages_rekey_fold. unfold all_messages at 1.
    rewrite map_to_list_empty. cbn. unfold all_messages.
    apply concat_fmap_Permutation. by rewrite Hperm.
  - intros binID b clientID Hb Hc.
    set (newMask := Z.ldiff (currentMask bm) (2 ^ k)).
    exists (Z.land binID newMask).
    assert (Hin : b ∈ colliding newMask (Z.land binID newMask) order).
    { apply elem_of_colliding. exists binID. split; [|done].
      rewrite Hperm. by apply elem_of_map_to_list. }
    rewrite rekey_lookup.
    destruct (colliding newMask (Z.land binID newMask) order) as [|b0 rest].
    { by apply elem_of_nil in Hin. }
    eexists. split; [done|]. rewrite foldl_mergeFrom_Clients.
    by apply (last_omap_is_Some (λ x, Clients x !! clientID) _ b).
Qed.

Lemma ContractBins_loses_nothing_witness :
  map_to_list (bins two_bins) ≡ₚ map_to_list (bins two_bins) ∧
  ∃ bm', ContractBins (map_to_list (bins two_bins)) two_bins = Some bm' ∧
         all_messages (bins bm') ≡ₚ all_messages (bins two_bins).
Proof.
  assert (H : map_to_list (bins two_bins) ≡ₚ map_to_list (bins two_bins))
    by reflexivity.
  split; [exact H|].
  destruct (ContractBins_loses_nothing two_bins
              (map_to_list (bins two_bins)) H) as (bm' & Hc & Hm & _).
  by exists bm'.
Defined.

(** ** Revocation is for good *)

Lemma visit_fold_None {A B} (f : B → A → option A) (cs : list B) :
  foldl (λ acc c, acc ≫= f c) None cs = None.
Proof. induction cs as [|c cs IH]; [done|]. apply IH. Qed.

Lemma visit_fold_keeps (children : gmap string (list string)) (clock : Clock)
    (fuel : nat) (cs : list string) (st1 st' : gmap string Time * nat)
    (s : string) :
  (∀ id st st', revokeRecursive fuel children clock id st = Some st' →
                is_Some (st.1 !! s) → is_Some (st'.1 !! s)) →
  foldl (λ acc c, acc ≫= revokeRecursive fuel children clock c) (Some st1) cs
    = Some st' →
  is_Some (st1.1 !! s) → is_Some (st'.1 !! s).
Proof.
  intros Hkeep. revert st1. induction cs as [|c cs IH]; intros st1 Hrun Hs.
  - by injection Hrun as <-.
  - cbn [foldl mbind option_bind] in Hrun.
    destruct (revokeRecursive fuel children clock c st1) as [st2|] eqn:Hc.
    + apply (IH st2 Hrun). by eapply Hkeep.
    + by rewrite visit_fold_None in Hrun.
Qed.

Lemma revokeRecursive_keeps (fuel : nat) (children : gmap string (list string))
    (clock : Clock) (id : string) (st st' : gmap string Time * nat) (s : string) :
  revokeRecursive fuel children clock id st = Some st' →
  is_Some (st.1 !! s) → is_Some (st'.1 !! s).
Proof.
  revert id st st'. induction fuel as [|fuel IH]; intros id st st'; [done|].
  cbn [revokeRecursive].
  set (st1 := (<[id := clock st.2]> st.1, S st.2)).
  intros Hrun Hs.
  assert (Hs1 : is_Some (st1.1 !! s)).
  { cbn. apply lookup_insert_is_Some.
    destruct (decide (id = s)); [by left|by right]. }
  clearbody st1.
  destruct (children !! id) as [cs|]; [|by injection Hrun as <-].
  by eapply visit_fold_keeps.
Qed.

Lemma apply_op_keeps (fuel : nat) (clock : Clock)
    (st st' : RevocationManager * nat) (op : RevocationOp) (s : string) :
  apply_op fuel clock st op = Some st' →
  IsRevoked st.1 s = true → IsRevoked st'.1 s = true.
Proof.
  unfold IsRevoked. rewrite !bool_decide_eq_true.
  destruct op as [certID referrerID|certID|certID]; cbn.
  - intros [= <-]. cbn. unfold RegisterCertificate. by case_decide.
  - intros [= <-]. cbn. intros Hs. apply lookup_insert_is_Some.
    destruct (decide (certID = s)); [by left|by right].
  - unfold RevokeWithChildren.
    destruct (revokeRecursive fuel (referrerMapping st.1) clock certID
                (revokedCerts st.1, st.2)) as [r|] eqn:Hr; [|done].
    cbn. intros [= <-]. cbn. intros Hs.
    by apply (revokeRecursive_keeps _ _ _ _ _ _ _ Hr).
Qed.

(** X10.  Once revoked, always revoked: no sequence of registrations and
    revocations that returns makes [IsRevoked] go back from true to
    false. *)
Theorem IsRevoked_monotone (fuel : nat) (clock : Clock)
    (ops : list RevocationOp) (st st' : RevocationManager * nat) (s : string) :
  IsRevoked st.1 s = true →
  apply_ops fuel clock st ops = Some st' →
  IsRevoked st'.1 s = true.
Proof.
  unfold apply_ops. revert st.
  induction ops as [|op ops IH]; intros st Hs Hrun.
  - by injection Hrun as <-.
  - cbn [foldl mbind option_bind] in Hrun.
    destruct (apply_op fuel clock st op) as [st1|] eqn:Hop.
    + apply (IH st1); [|done]. by eapply apply_op_keeps.
    + by rewrite visit_fold_None in Hrun.
Qed.

Lemma IsRevoked_monotone_witness :
  IsRevoked (Revoke unix_clock scenario4 0 "c2").1 "c2" = true ∧
  ∃ st', apply_ops 3 unix_clock (Revoke unix_clock scenario4 0 "c2")
           [OpRegisterCertificate "h1" "c2"; OpRevokeWithChildren "c1";
            OpRevoke "root"] = Some st' ∧
         IsRevoked st'.1 "c2" = true.
Proof.
  assert (H1 : IsRevoked (Revoke unix_clock scenario4 0 "c2").1 "c2" = true)
    by (by vm_compute).
  split; [exact H1|].
  destruct (apply_ops 3 unix_clock (Revoke unix_clock scenario4 0 "c2")
              [OpRegisterCertificate "h1" "c2"; OpRevokeWithChildren "c1";
               OpRevoke "root"]) as [st'|] eqn:Hrun; [|by vm_compute in Hrun].
  exists st'. split; [reflexivity|].
  exact (IsRevoked_monotone 3 unix_clock _ _ st' "c2" H1 Hrun).
Defined.

(** ** Registration *)

(** X11.  A registration under a non-empty referrer appends the certificate to
    the children of that referrer, once more even when it is already among
    them: the child count of the referrer grows by one, the certificate is a
    child of the referrer afterwards, and neither the other referrers nor
    the revocations change.  Under the empty referrer nothing changes. *)
Theorem RegisterCertificate_appends (rm : RevocationManager)
    (certID referrerID : string) :
  referrerID ≠ "" →
  GetChildCount (RegisterCertificate rm certID referrerID) referrerID
    = S (GetChildCount rm referrerID) ∧
  referrer_of (referrerMapping (RegisterCertificate rm certID referrerID))
    referrerID certID ∧
  (∀ other, other ≠ referrerID →
     referrerMapping (RegisterCertificate rm certID referrerID) !! other
       = referrerMapping rm !! other) ∧
  revokedCerts (RegisterCertificate rm certID referrerID) = revokedCerts rm ∧
  RegisterCertificate rm certID "" = rm.
Proof.
  intros Hne. unfold RegisterCertificate, GetChildCount.
  rewrite decide_False by done. cbn [referrerMapping revokedCerts].
  rewrite lookup_insert_eq. split; [|split; [|split; [|split]]].
  - destruct (referrerMapping rm !! referrerID); cbn.
    + rewrite length_app. cbn. lia.
    + done.
  - eexists. rewrite lookup_insert_eq. split; [done|].
    apply elem_of_app. right. by apply list_elem_of_singleton.
  - intros other Ho. by rewrite lookup_insert_ne.
  - done.
  - done.
Qed.

Lemma RegisterCertificate_appends_witness :
  "c1" ≠ "" ∧
  GetChildCount (RegisterCertificate scenario4 "g1" "c1") "c1" = 3%nat.
Proof.
  assert (H : "c1" ≠ "") by discriminate.
  split; [exact H|].
  exact (proj1 (RegisterCertificate_appends scenario4 "g1" "c1" H)).
Defined.

(** ** Revocation at the handshake *)

Lemma revokeRecursive_reaches (fuel : nat)
    (children : gmap string (list string)) (clock : Clock) (id : string)
    (st st' : gmap string Time * nat) (s : string) :
  revokeRecursive fuel children clock id st = Some st' →
  reachable children id s → is_Some (st'.1 !! s).
Proof.
  revert id st st'. induction fuel as [|fuel IH]; intros id st st'; [done|].
  cbn [revokeRecursive].
  set (st1 := (<[id := clock st.2]> st.1, S st.2)).
  assert (Hid : is_Some (st1.1 !! id)).
  { cbn. rewrite lookup_insert_eq. by eexists. }
  clearbody st1. intros Hrun Hs.
  assert (Hkeep : ∀ id st st',
            revokeRecursive fuel children clock id st = Some st' →
            is_Some (st.1 !! s) → is_Some (st'.1 !! s)).
  { intros ???. apply revokeRecursive_keeps. }
  apply rtc_inv in Hs as [->|(c & (cs & Hcs & Hin) & Hs)].
  - destruct (children !! s) as [cs|]; [|by injection Hrun as <-].
    by eapply visit_fold_keeps.
  - rewrite Hcs in Hrun. clear Hcs Hid.
    revert st1 Hrun. induction cs as [|c' cs IHcs]; intros st1 Hrun.
    + by apply elem_of_nil in Hin.
    + cbn [foldl mbind option_bind] in Hrun.
      destruct (revokeRecursive fuel children clock c' st1) as [st2|] eqn:Hc.
      * apply elem_of_cons in Hin as [->|Hin].
        -- eapply visit_fold_keeps; [exact Hkeep|exact Hrun|]. by eapply IH.
        -- by apply (IHcs Hin st2).
      * by rewrite visit_fold_None in Hrun.
Qed.

(** X12.  After a [RevokeWithChildren] that returned, the handshake hook refuses
    every certificate whose serial is reachable from the revoked one through
    the children mapping, as revoked. *)
Theorem handshake_refuses_revoked_subtree (fuel : nat) (clock : Clock)
    (rm rm' : RevocationManager) (n n' : nat) (root : string)
    (cert : Certificate) (rest : list Certificate)
    (chains : list (list Certificate)) :
  RevokeWithChildren fuel clock rm n root = Some (rm', n') →
  reachable (referrerMapping rm) root (Serial_String cert) →
  VerifyPeerCertificate rm' ((cert :: rest) :: chains)
    = Some ErrCertificateRevoked.
Proof.
  unfold RevokeWithChildren.
  destruct (revokeRecursive fuel (referrerMapping rm) clock root
              (revokedCerts rm, n)) as [st|] eqn:Hrun; [|done].
  cbn. intros [= <- <-] Hreach. unfold IsRevoked. cbn.
  rewrite bool_decide_eq_true_2; [done|].
  by eapply revokeRecursive_reaches.
Qed.

Lemma handshake_refuses_revoked_subtree_witness :
  ∃ rm' n', RevokeWithChildren 2 unix_clock referred_registry 0 "100"
              = Some (rm', n') ∧
            reachable (referrerMapping referred_registry) "100"
              (Serial_String referred_cert) ∧
            VerifyPeerCertificate rm' [[referred_cert]]
              = Some ErrCertificateRevoked.
Proof.
  destruct (RevokeWithChildren 2 unix_clock referred_registry 0 "100")
    as [[rm' n']|] eqn:Hrun; [|by vm_compute in Hrun].
  assert (Hreach : reachable (referrerMapping referred_registry) "100"
                     (Serial_String referred_cert)).
  { eapply rtc_l; [|apply rtc_refl]. exists ["200"]. split; [reflexivity|].
    by apply list_elem_of_singleton. }
  exists rm', n'. split; [reflexivity|]. split; [exact Hreach|].
  exact (handshake_refuses_revoked_subtree 2 unix_clock referred_registry rm'
           0 n' "100" referred_cert [] [] Hrun Hreach).
Defined.

(** X13.  A plain [Revoke] changes the verdict of the handshake hook for the
    revoked certificate, which is refused as revoked, and for the
    certificates that carry its identifier, when that is not the empty
    string, as referrer, which are refused; for every other certificate,
    further descendants included, the verdict is what it was. *)
Theorem handshake_after_Revoke (clock : Clock) (rm : RevocationManager)
    (n : nat) (certID : string) (cert : Certificate)
    (rest : list Certificate) (chains : list (list Certificate)) :
  (Serial_String cert = certID →
   VerifyPeerCertificate (Revoke clock rm n certID).1 ((cert :: rest) :: chains)
     = Some ErrCertificateRevoked) ∧
  (ExtractReferrerID cert = Some certID → certID ≠ "" →
   is_Some (VerifyPeerCertificate (Revoke clock rm n certID).1
              ((cert :: rest) :: chains))) ∧
  (Serial_String cert ≠ certID → ExtractReferrerID cert ≠ Some certID →
   VerifyPeerCertificate (Revoke clock rm n certID).1 ((cert :: rest) :: chains)
     = VerifyPeerCertificate rm ((cert :: rest) :: chains)).
Proof.
  assert (Hrev : ∀ s, IsRevoked (Revoke clock rm n certID).1 s
                      = if decide (s = certID) then true else IsRevoked rm s).
  { intros s. unfold IsRevoked, Revoke. cbn. case_decide as Hs.
    - subst. rewrite lookup_insert_eq. by apply bool_decide_eq_true_2.
    - by rewrite lookup_insert_ne. }
  unfold VerifyPeerCertificate. split; [|split].
  - intros <-. by rewrite Hrev, decide_True.
  - intros Href Hne. rewrite Href, !Hrev.
    destruct (decide (Serial_String cert = certID)); [by eexists|].
    destruct (IsRevoked rm (Serial_String cert)); [by eexists|].
    rewrite decide_True by done.
    destruct (String.eqb_spec certID ""); [done|]. by eexists.
  - intros Hs Href. rewrite !Hrev, decide_False by done.
    destruct (IsRevoked rm (Serial_String cert)); [done|].
    destruct (ExtractReferrerID cert) as [r|]; [|done].
    rewrite Hrev, decide_False; [done|congruence].
Qed.

Lemma handshake_after_Revoke_witness :
  ExtractReferrerID referred_cert = Some "100" ∧ "100" ≠ "" ∧
  VerifyPeerCertificate (Revoke unix_clock referred_registry 0 "100").1
    [[referred_cert]] = Some ErrReferrerRevoked ∧
  VerifyPeerCertificate (Revoke unix_clock referred_registry 0 "100").1
    [[stranger_cert]] = Some ErrReferrerRevoked ∧
  VerifyPeerCertificate (Revoke unix_clock referred_registry 0 "200").1
    [[stranger_cert]] = VerifyPeerCertificate referred_registry [[stranger_cert]].
Proof.
  assert (H1 : ExtractReferrerID referred_cert = Some "100") by reflexivity.
  assert (H2 : "100" ≠ "") by discriminate.
  split; [exact H1|]. split; [exact H2|].
  split; [reflexivity|]. split; [reflexivity|].
  destruct (handshake_after_Revoke unix_clock referred_registry 0 "200"
              stranger_cert [] []) as (_ & _ & Hsame).
  apply Hsame; vm_compute; discriminate.
Defined.

(** ** The key store *)

(** X14.  [StoreKey] refuses the empty certificate identifier and leaves the
    store alone; under any other identifier it succeeds, and [GetKey] then
    returns a record with the key material just given, updated now and
    created now or, when the identifier was already in use, created when the
    earlier record was; the records of the other identifiers are not
    touched. *)
Theorem StoreKey_upserts (eks : EncryptedKeyStore) (certID : string)
    (encryptedKey iv hmac : list byte) (now : Time) :
  (certID = "" →
   StoreKey eks certID encryptedKey iv hmac now
     = (Some "certificate ID cannot be empty", eks)) ∧
  (certID ≠ "" →
   (StoreKey eks certID encryptedKey iv hmac now).1 = None ∧
   (∃ d, GetKey (StoreKey eks certID encryptedKey iv hmac now).2 certID = Ok d ∧
         EncryptedKey d = encryptedKey ∧ IV d = iv ∧ HMAC d = hmac ∧
         UpdatedAt d = now ∧
         CreatedAt d = default now (CreatedAt <$> store eks !! certID) ∧
         CertID d = default certID (CertID <$> store eks !! certID)) ∧
   (∀ other, other ≠ certID →
      GetKey (StoreKey eks certID encryptedKey iv hmac now).2 other
        = GetKey eks other)).
Proof.
  unfold StoreKey, GetKey. split.
  - by intros ->.
  - intros Hne. destruct (String.eqb_spec certID ""); [done|].
    destruct (store eks !! certID) as [existing|] eqn:He; cbn.
    + split; [done|]. split.
      * eexists. rewrite lookup_insert_eq. by repeat split.
      * intros other Ho. by rewrite lookup_insert_ne.
    + split; [done|]. split.
      * eexists. rewrite lookup_insert_eq. by repeat split.
      * intros other Ho. by rewrite lookup_insert_ne.
Qed.

Lemma StoreKey_upserts_witness :
  "100" ≠ "" ∧
  ∃ d, GetKey (StoreKey one_key_store "100" (list_byte_of_string "ct2")
                 (list_byte_of_string "iv2") (list_byte_of_string "mac2")
                 (mkTime 9 0)).2 "100" = Ok d ∧
       EncryptedKey d = list_byte_of_string "ct2" ∧
       UpdatedAt d = mkTime 9 0 ∧ CreatedAt d = mkTime 3 0.
Proof.
  assert (H : "100" ≠ "") by discriminate.
  split; [exact H|].
  destruct (StoreKey_upserts one_key_store "100" (list_byte_of_string "ct2")
              (list_byte_of_string "iv2") (list_byte_of_string "mac2")
              (mkTime 9 0)) as [_ Hok].
  destruct (Hok H) as (_ & (d & Hd & Hk & _ & _ & Hu & Hc & _) & _).
  exists d. split; [exact Hd|]. split; [exact Hk|]. split; [exact Hu|].
  exact Hc.
Defined.

(** X15.  [DeleteKey] fails on an identifier without record and leaves the store
    alone; otherwise it removes that record and no other, so that [GetKey]
    fails on the identifier afterwards.  Deleting a key just stored under a
    fresh identifier gives the store back. *)
Theorem DeleteKey_removes (eks : EncryptedKeyStore) (certID : string)
    (encryptedKey iv hmac : list byte) (now : Time) :
  (store eks !! certID = None →
   DeleteKey eks certID = (Some "key not found for certificate ID", eks) ∧
   (certID ≠ "" →
    DeleteKey (StoreKey eks certID encryptedKey iv hmac now).2 certID
      = (None, eks))) ∧
  (is_Some (store eks !! certID) →
   (DeleteKey eks certID).1 = None ∧
   GetKey (DeleteKey eks certID).2 certID
     = Err "key not found for certificate ID" ∧
   (∀ other, other ≠ certID →
      GetKey (DeleteKey eks certID).2 other = GetKey eks other)).
Proof.
  unfold DeleteKey, GetKey. split.
  - intros Hnone. rewrite Hnone. split; [done|]. intros Hne.
    unfold StoreKey. destruct (String.eqb_spec certID ""); [done|].
    rewrite Hnone. cbn. rewrite lookup_insert_eq. f_equal.
    rewrite delete_insert_id by done. by destruct eks.
  - intros [d Hd]. rewrite Hd. cbn. split; [done|]. split.
    + by rewrite lookup_delete_eq.
    + intros other Ho. by rewrite lookup_delete_ne.
Qed.

Lemma DeleteKey_removes_witness :
  is_Some (store one_key_store !! "100") ∧
  store NewEncryptedKeyStore !! "100" = None ∧
  GetKey (DeleteKey one_key_store "100").2 "100"
    = Err "key not found for certificate ID" ∧
  DeleteKey one_key_store "100" = (None, NewEncryptedKeyStore).
Proof.
  assert (H1 : is_Some (store one_key_store !! "100")) by (by eexists).
  assert (H2 : store NewEncryptedKeyStore !! "100" = None) by reflexivity.
  assert (H3 : "100" ≠ "") by discriminate.
  split; [exact H1|]. split; [exact H2|].
  destruct (DeleteKey_removes one_key_store "100" [] [] [] (mkTime 0 0))
    as [_ Hsome].
  destruct (Hsome H1) as (_ & Hget & _).
  split; [exact Hget|].
  destruct (DeleteKey_removes NewEncryptedKeyStore "100"
              (list_byte_of_string "ct") (list_byte_of_string "iv")
              (list_byte_of_string "mac") (mkTime 3 0)) as [Hnone _].
  exact (proj2 (Hnone H2) H3).
Defined.

(** X16.  [ListKeys] returns every certificate identifier that has a record,
    each once, and nothing else, whatever the order of the visit. *)
Theorem ListKeys_lists_the_keys (eks : EncryptedKeyStore)
    (order : list (string * EncryptedKeyData)) :
  order ≡ₚ map_to_list (store eks) →
  NoDup (ListKeys order) ∧
  length (ListKeys order) = size (store eks) ∧
  ∀ certID, certID ∈ ListKeys order ↔ ∃ d, GetKey eks certID = Ok d.
Proof.
  intros Hperm. unfold ListKeys. split; [|split].
  - rewrite Hperm. apply NoDup_fst_map_to_list.
  - rewrite length_fmap, Hperm. apply length_map_to_list.
  - intros certID. rewrite Hperm, list_elem_of_fmap. unfold GetKey. split.
    + intros ([k d] & -> & Hin). apply elem_of_map_to_list in Hin.
      cbn. rewrite Hin. by eexists.
    + intros [d Hd]. destruct (store eks !! certID) as [d'|] eqn:He; [|done].
      exists (certID, d'). split; [done|]. by apply elem_of_map_to_list.
Qed.

Lemma ListKeys_lists_the_keys_witness :
  map_to_list (store one_key_store) ≡ₚ map_to_list (store one_key_store) ∧
  NoDup (ListKeys (map_to_list (store one_key_store))) ∧
  length (ListKeys (map_to_list (store one_key_store))) = 1%nat.
Proof.
  split; [reflexivity|].
  destruct (ListKeys_lists_the_keys one_key_store
              (map_to_list (store one_key_store)) (reflexivity _))
    as (Hnd & Hlen & _).
  split; [exact Hnd|]. exact Hlen.
Defined.

Lemma apply_store_op_consistent (last : Z) (eks : EncryptedKeyStore)
    (op : StoreOp) :
  map_Forall (λ k d, CertID d = k ∧ k ≠ "" ∧
                     t_ns (CreatedAt d) ≤ t_ns (UpdatedAt d) ∧
                     t_ns (UpdatedAt d) ≤ last) (store eks) →
  clock_ordered last [op] →
  ∃ last', last ≤ last' ∧
    (∀ rest, clock_ordered last (op :: rest) → clock_ordered last' rest) ∧
    map_Forall (λ k d, CertID d = k ∧ k ≠ "" ∧
                       t_ns (CreatedAt d) ≤ t_ns (UpdatedAt d) ∧
                       t_ns (UpdatedAt d) ≤ last')
      (store (apply_store_op eks op)).
Proof.
  intros HI Hop. destruct op as [certID ek iv hm now|certID]; cbn in *.
  - destruct Hop as [Hnow _]. exists (t_ns now). split; [done|].
    split; [by intros rest [_ ?]|].
    assert (Hold : map_Forall
              (λ k d, CertID d = k ∧ k ≠ "" ∧
                      t_ns (CreatedAt d) ≤ t_ns (UpdatedAt d) ∧
                      t_ns (UpdatedAt d) ≤ t_ns now) (store eks)).
    { intros k d Hd. destruct (HI k d Hd) as (? & ? & ? & ?).
      repeat split; [done..|lia]. }
    unfold StoreKey. destruct (String.eqb_spec certID ""); [done|].
    destruct (store eks !! certID) as [existing|] eqn:He; cbn.
    + apply map_Forall_insert_2; [|done]. cbn.
      destruct (HI _ _ He) as (? & ? & ? & ?). repeat split; [done..|lia|lia].
    + apply map_Forall_insert_2; [|done]. cbn. repeat split; [done|lia|lia].
  - exists last. split; [lia|]. split; [done|].
    unfold DeleteKey. destruct (store eks !! certID); cbn; [|done].
    by apply map_Forall_delete.
Qed.

(** X17.  From the empty store, whatever sequence of [StoreKey] and [DeleteKey]
    calls is made under a clock that does not go back, every record is
    filed under its own, non-empty certificate identifier and was created
    no later than it was last updated. *)
Theorem store_stays_consistent (ops : list StoreOp) (start : Z) :
  clock_ordered start ops →
  store_consistent (foldl apply_store_op NewEncryptedKeyStore ops).
Proof.
  intros Hclock.
  assert (Hgen : ∀ ops last eks,
    map_Forall (λ k d, CertID d = k ∧ k ≠ "" ∧
                       t_ns (CreatedAt d) ≤ t_ns (UpdatedAt d) ∧
                       t_ns (UpdatedAt d) ≤ last) (store eks) →
    clock_ordered last ops →
    store_consistent (foldl apply_store_op eks ops)).
  { clear. induction ops as [|op ops IH]; intros last eks HI Hc.
    - intros k d Hd. destruct (HI k d Hd) as (? & ? & ? & _). done.
    - cbn [foldl].
      assert (Hop : clock_ordered last [op]).
      { destruct op; cbn in *; [|done]. by destruct Hc. }
      destruct (apply_store_op_consistent last eks op HI Hop)
        as (last' & _ & Hrest & HI').
      apply (IH last'); [done|]. by apply Hrest. }
  apply (Hgen ops start); [|done]. apply map_Forall_empty.
Qed.

Lemma store_stays_consistent_witness :
  clock_ordered 0
    [OpStoreKey "100" [] [] [] (mkTime 3 0); OpStoreKey "100" [] [] [] (mkTime 9 0);
     OpDeleteKey "7"; OpStoreKey "" [] [] [] (mkTime 9 0)] ∧
  store_consistent
    (foldl apply_store_op NewEncryptedKeyStore
       [OpStoreKey "100" [] [] [] (mkTime 3 0);
        OpStoreKey "100" [] [] [] (mkTime 9 0);
        OpDeleteKey "7"; OpStoreKey "" [] [] [] (mkTime 9 0)]).
Proof.
  assert (H : clock_ordered 0
    [OpStoreKey "100" [] [] [] (mkTime 3 0); OpStoreKey "100" [] [] [] (mkTime 9 0);
     OpDeleteKey "7"; OpStoreKey "" [] [] [] (mkTime 9 0)]).
  { cbn. lia. }
  split; [exact H|]. exact (store_stays_consistent _ 0 H).
Defined.

(** ** PKCS#7 padding *)

Lemma Z_of_byte_of_Z (n : Z) : 0 ≤ n < 256 → Z_of_byte (byte_of_Z n) = n.
Proof.
  intros Hn. unfold Z_of_byte, byte_of_Z. rewrite Z.mod_small by done.
  destruct (Byte.of_N (Z.to_N n)) as [b|] eqn:Hb; cbn.
  - apply Byte.to_of_N in Hb. rewrite Hb. lia.
  - apply Byte.of_N_None_iff in Hb. lia.
Qed.

Lemma Z_of_byte_range (b : byte) : 0 ≤ Z_of_byte b < 256.
Proof.
  unfold Z_of_byte. pose proof (Byte.to_N_bounded b). lia.
Qed.

Lemma byte_of_Z_of_byte (b : byte) : byte_of_Z (Z_of_byte b) = b.
Proof.
  unfold byte_of_Z. rewrite Z.mod_small by apply Z_of_byte_range.
  unfold Z_of_byte. rewrite N2Z.id, Byte.of_to_N. done.
Qed.

Lemma forallb_eqb_replicate (b : byte) (l : list byte) :
  forallb (λ x, Byte.eqb x b) l = true ↔ l = replicate (length l) b.
Proof.
  induction l as [|x l IH]; cbn; [done|].
  rewrite andb_true_iff, IH. split.
  - intros [Hx <-]. apply Byte.byte_dec_bl in Hx. by subst.
  - intros [= -> Hl]. split; [by apply Byte.byte_dec_lb|done].
Qed.

(** The number of padding bytes that [pkcs7Pad] appends. *)
Lemma pkcs7Pad_returns (data : list byte) (blockSize : Z) :
  0 < blockSize →
  ∃ padding, 1 ≤ padding ≤ blockSize ∧
    (Z.of_nat (length data) + padding) mod blockSize = 0 ∧
    pkcs7Pad data blockSize
      = Returns (data ++ replicate (Z.to_nat padding) (byte_of_Z padding)).
Proof.
  intros Hbs. unfold pkcs7Pad.
  destruct (Z.eqb_spec blockSize 0); [lia|].
  rewrite Z.rem_mod_nonneg by lia.
  pose proof (Z.mod_pos_bound (Z.of_nat (length data)) blockSize Hbs) as Hr.
  pose proof (Z_div_mod_eq_full (Z.of_nat (length data)) blockSize) as Hq.
  set (r := Z.of_nat (length data) mod blockSize) in *.
  set (q := Z.of_nat (length data) / blockSize) in *.
  exists (blockSize - r). split; [lia|]. split.
  - replace (Z.of_nat (length data) + (blockSize - r))
      with ((q + 1) * blockSize) by lia.
    apply Z.mod_mul. lia.
  - destruct (Z.ltb_spec (blockSize - r) 0); [lia|done].
Qed.

(** X18.  [pkcs7Pad] appends between one byte and a whole block, and what it
    returns is made of whole blocks, for every positive block size. *)
Theorem pkcs7Pad_fills_blocks (data : list byte) (blockSize : Z) :
  0 < blockSize →
  ∃ padded, pkcs7Pad data blockSize = Returns padded ∧
    Z.of_nat (length padded) mod blockSize = 0 ∧
    Z.of_nat (length data) < Z.of_nat (length padded)
      ≤ Z.of_nat (length data) + blockSize ∧
    take (length data) padded = data.
Proof.
  intros Hbs.
  destruct (pkcs7Pad_returns data blockSize Hbs) as (p & Hp & Hmod & Hpad).
  eexists. split; [exact Hpad|].
  rewrite length_app, length_replicate, Nat2Z.inj_add, Z2Nat.id by lia.
  split; [done|]. split; [lia|]. by rewrite take_app_length.
Qed.

Lemma pkcs7Pad_fills_blocks_witness :
  0 < BlockSize ∧
  ∃ padded, pkcs7Pad toy_key16 BlockSize = Returns padded ∧
            length padded = 32%nat.
Proof.
  assert (H : 0 < BlockSize) by reflexivity.
  split; [exact H|].
  destruct (pkcs7Pad_fills_blocks toy_key16 BlockSize H)
    as (padded & Hpad & _).
  exists padded. split; [exact Hpad|].
  vm_compute in Hpad. injection Hpad as <-. reflexivity.
Defined.

Lemma pkcs7Unpad_padded (data : list byte) (blockSize padding : Z) :
  1 ≤ padding ≤ blockSize → padding ≤ 255 →
  pkcs7Unpad (data ++ replicate (Z.to_nat padding) (byte_of_Z padding))
    blockSize = Returns (Ok data).
Proof.
  intros Hp H255. unfold pkcs7Unpad.
  assert (Hrep : replicate (Z.to_nat padding) (byte_of_Z padding)
                 = replicate (Z.to_nat (padding - 1)) (byte_of_Z padding)
                   ++ [byte_of_Z padding]).
  { replace (Z.to_nat padding) with (S (Z.to_nat (padding - 1))) by lia.
    by rewrite replicate_S_end. }
  rewrite Hrep at 1. rewrite app_assoc, last_snoc.
  rewrite Z_of_byte_of_Z by lia.
  destruct (Z.ltb_spec blockSize padding); [lia|].
  destruct (Z.eqb_spec padding 0); [lia|]. cbn [orb].
  rewrite length_app, length_replicate, Nat2Z.inj_add, Z2Nat.id by lia.
  destruct (Z.ltb_spec (Z.of_nat (length data) + padding) padding); [lia|].
  replace (Z.to_nat (Z.of_nat (length data) + padding - padding))
    with (length data) by lia.
  rewrite drop_app_length, take_app_length.
  rewrite (proj2 (forallb_eqb_replicate _ _)); [done|].
  by rewrite length_replicate.
Qed.

(** X19.  Padding round trip: for every block size from 1 to 255, [pkcs7Unpad]
    gives back what [pkcs7Pad] was given.  The bound is sharp: with a block
    size of 256 and data made of whole blocks the padding byte wraps to 0
    and [pkcs7Unpad] rejects what [pkcs7Pad] returned. *)
Theorem pkcs7Unpad_pkcs7Pad (data : list byte) (blockSize : Z) :
  (1 ≤ blockSize ≤ 255 →
   ∃ padded, pkcs7Pad data blockSize = Returns padded ∧
             pkcs7Unpad padded blockSize = Returns (Ok data)) ∧
  (Z.of_nat (length data) mod 256 = 0 →
   ∃ padded, pkcs7Pad data 256 = Returns padded ∧
             pkcs7Unpad padded 256 = Returns (Err "invalid padding")).
Proof.
  split.
  - intros Hbs.
    destruct (pkcs7Pad_returns data blockSize) as (p & Hp & _ & Hpad); [lia|].
    eexists. split; [exact Hpad|]. apply pkcs7Unpad_padded; lia.
  - intros Hmod.
    destruct (pkcs7Pad_returns data 256) as (p & Hp & Hpm & Hpad); [lia|].
    apply Zmod_divides in Hmod as [c Hc]; [|lia].
    apply Zmod_divides in Hpm as [d Hd]; [|lia].
    assert (p = 256) as -> by lia.
    eexists. split; [exact Hpad|]. unfold pkcs7Unpad.
    change (Z.to_nat 256) with (S 255).
    rewrite replicate_S_end, app_assoc, last_snoc. reflexivity.
Qed.

Lemma pkcs7Unpad_pkcs7Pad_witness :
  1 ≤ BlockSize ≤ 255 ∧
  ∃ padded, pkcs7Pad toy_data BlockSize = Returns padded ∧
            pkcs7Unpad padded BlockSize = Returns (Ok toy_data).
Proof.
  assert (H : 1 ≤ BlockSize ≤ 255) by (unfold BlockSize; lia).
  split; [exact H|].
  exact (proj1 (pkcs7Unpad_pkcs7Pad toy_data BlockSize) H).
Defined.

Lemma pkcs7Unpad_panics_short (data : list byte) (blockSize : Z) :
  pkcs7Unpad data blockSize = Panics →
  ∃ b, last data = Some b ∧ Z_of_byte b ≤ blockSize ∧
       Z.of_nat (length data) < Z_of_byte b.
Proof.
  unfold pkcs7Unpad. destruct (last data) as [b|]; [|done].
  destruct (Z.ltb_spec blockSize (Z_of_byte b)); cbn [orb]; [done|].
  destruct (Z_of_byte b =? 0); [done|].
  destruct (Z.ltb_spec (Z.of_nat (length data)) (Z_of_byte b)).
  - intros _. by exists b.
  - by destruct (forallb _ _).
Qed.

(** X20.  What [pkcs7Unpad] accepts: when it returns data, its input was that
    data followed by [padding] bytes of value [padding], for a [padding]
    between 1 and the block size.  It panics exactly on a non-empty input
    whose last byte is an admissible padding length larger than the
    input. *)
Theorem pkcs7Unpad_accepts (data : list byte) (blockSize : Z) :
  (∀ out, pkcs7Unpad data blockSize = Returns (Ok out) →
     ∃ padding, 1 ≤ padding ≤ blockSize ∧ padding ≤ 255 ∧
       data = out ++ replicate (Z.to_nat padding) (byte_of_Z padding)) ∧
  (pkcs7Unpad data blockSize = Panics ↔
   ∃ b, last data = Some b ∧ 1 ≤ Z_of_byte b ≤ blockSize ∧
        Z.of_nat (length data) < Z_of_byte b).
Proof.
  unfold pkcs7Unpad. destruct (last data) as [b|] eqn:Hlast.
  2:{ split; [done|]. split; [done|]. by intros (b & ? & _). }
  pose proof (Z_of_byte_range b) as Hrange.
  set (p := Z_of_byte b) in *.
  destruct (Z.ltb_spec blockSize p) as [Hgt|Hle]; cbn [orb].
  { split; [done|]. split; [done|]. intros (b' & [= <-] & ? & _). lia. }
  destruct (Z.eqb_spec p 0) as [H0|Hn0].
  { split; [done|]. split; [done|]. intros (b' & [= <-] & ? & _). lia. }
  destruct (Z.ltb_spec (Z.of_nat (length data)) p) as [Hshort|Hlong].
  { split; [done|]. split; [|done]. intros _. exists b. repeat split; lia. }
  set (n := Z.to_nat (Z.of_nat (length data) - p)).
  destruct (forallb _ (drop n data)) eqn:Hall.
  - split.
    + intros out [= <-]. exists p. split; [lia|]. split; [lia|].
      apply forallb_eqb_replicate in Hall.
      rewrite length_drop in Hall.
      replace (length data - n)%nat with (Z.to_nat p) in Hall by lia.
      rewrite <- Hall. by rewrite take_drop.
    + split; [done|]. intros (b' & [= <-] & _ & ?). lia.
  - split; [done|]. split; [done|]. intros (b' & [= <-] & _ & ?). lia.
Qed.

Lemma pkcs7Unpad_accepts_witness :
  pkcs7Unpad (list_byte_of_string "abc" ++ [Byte.x02; Byte.x02]) BlockSize
    = Returns (Ok (list_byte_of_string "abc")) ∧
  pkcs7Unpad [Byte.x05] BlockSize = Panics ∧
  ∃ padding, 1 ≤ padding ≤ BlockSize ∧ padding ≤ 255 ∧
    list_byte_of_string "abc" ++ [Byte.x02; Byte.x02]
      = list_byte_of_string "abc" ++ replicate (Z.to_nat padding) (byte_of_Z padding).
Proof.
  assert (H : pkcs7Unpad (list_byte_of_string "abc" ++ [Byte.x02; Byte.x02])
                BlockSize = Returns (Ok (list_byte_of_string "abc")))
    by reflexivity.
  split; [exact H|]. split; [reflexivity|].
  exact (proj1 (pkcs7Unpad_accepts _ BlockSize) _ H).
Defined.

(** ** AES-CBC *)

Section cbc_props.
Context `{GoCBC} (Hlaws : cbc_laws).

Lemma NewCipher_Ok (key : list byte) :
  length key ∈ [16; 24; 32]%nat → NewCipher key = Ok key.
Proof. intros Hk. unfold NewCipher. by rewrite bool_decide_eq_true_2. Qed.

(** X21.  AES-CBC round trip: under a key of 16, 24 or 32 bytes and a vector of
    16 bytes, [AESCBCEncrypt] returns a ciphertext made of whole blocks and
    longer than the plaintext, and [AESCBCDecrypt] gives the plaintext
    back. *)
Theorem AESCBCDecrypt_AESCBCEncrypt (plaintext key iv : list byte) :
  length key ∈ [16; 24; 32]%nat → length iv = 16%nat →
  ∃ ciphertext,
    AESCBCEncrypt plaintext key iv = Returns (Ok ciphertext) ∧
    Z.of_nat (length ciphertext) mod 16 = 0 ∧
    (length plaintext < length ciphertext)%nat ∧
    AESCBCDecrypt ciphertext key iv = Returns (Ok plaintext).
Proof.
  intros Hk Hiv. destruct Hlaws as (Hlen_e & Hlen_d & Hround).
  unfold AESCBCEncrypt, AESCBCDecrypt. rewrite NewCipher_Ok by done.
  destruct (pkcs7Pad_returns plaintext BlockSize) as (p & Hp & Hmod & Hpad);
    [done|].
  rewrite Hpad, Hiv. cbn [Z.of_nat Pos.of_succ_nat Pos.succ Z.eqb BlockSize
                           Pos.eqb negb].
  set (padded := plaintext ++ replicate (Z.to_nat p) (byte_of_Z p)).
  assert (Hpl : Z.of_nat (length padded) = Z.of_nat (length plaintext) + p).
  { unfold padded. rewrite length_app, length_replicate. lia. }
  unfold CryptBlocks. rewrite Hpl, Hmod. cbn [Z.eqb].
  eexists. split; [done|]. rewrite Hlen_e, Hpl.
  split; [exact Hmod|]. split; [lia|].
  unfold BlockSize in *. rewrite Hmod. cbn [Z.eqb negb].
  rewrite Hround by (done || by rewrite Hpl).
  apply pkcs7Unpad_padded; lia.
Qed.

(** X22.  [AESCBCDecrypt] never panics: whatever the ciphertext, the key and the
    vector, it returns a plaintext or an error; in particular what reaches
    [pkcs7Unpad] is empty or at least a block long. *)
Theorem AESCBCDecrypt_never_panics (ciphertext key iv : list byte) :
  AESCBCDecrypt ciphertext key iv ≠ Panics.
Proof.
  destruct Hlaws as (_ & Hlen_d & _).
  unfold AESCBCDecrypt. destruct (NewCipher key) as [block|e]; [|done].
  destruct (Z.of_nat (length iv) =? BlockSize); [|done]. cbn [negb].
  destruct (Z.eqb_spec (Z.of_nat (length ciphertext) mod BlockSize) 0)
    as [Hmod|]; [|done].
  cbn [negb]. unfold CryptBlocks. rewrite Hmod. cbn [Z.eqb].
  intros Hpanic.
  apply pkcs7Unpad_panics_short in Hpanic as (b & Hlast & Hb & Hshort).
  rewrite Hlen_d in Hshort.
  assert (Hne : length ciphertext ≠ 0%nat).
  { intros H0. assert (Hnil : cbc_decrypt block iv ciphertext = []).
    { apply length_zero_iff_nil. by rewrite Hlen_d. }
    by rewrite Hnil in Hlast. }
  unfold BlockSize in *.
  apply Zmod_divides in Hmod as [c Hc]; lia.
Qed.
End cbc_props.

Lemma toy_flip_flip (b : byte) : toy_flip (toy_flip b) = b.
Proof.
  unfold toy_flip. pose proof (Z_of_byte_range b).
  rewrite Z_of_byte_of_Z by lia.
  replace (255 - (255 - Z_of_byte b)) with (Z_of_byte b) by lia.
  apply byte_of_Z_of_byte.
Qed.

Lemma toy_cbc_laws : @cbc_laws toy_cbc.
Proof.
  split; [|split]; intros key iv src; cbn.
  - apply length_fmap.
  - apply length_fmap.
  - intros _ _ _. rewrite <- list_fmap_compose. rewrite <- (list_fmap_id src) at 2.
    apply list_fmap_ext. intros _ b _. apply toy_flip_flip.
Qed.

Lemma AESCBCDecrypt_AESCBCEncrypt_witness :
  @cbc_laws toy_cbc ∧ length toy_key16 ∈ [16; 24; 32]%nat ∧
  length toy_key16 = 16%nat ∧
  ∃ ciphertext,
    @AESCBCEncrypt toy_cbc toy_data toy_key16 toy_key16
      = Returns (Ok ciphertext) ∧
    Z.of_nat (length ciphertext) mod 16 = 0 ∧
    (length toy_data < length ciphertext)%nat ∧
    @AESCBCDecrypt toy_cbc ciphertext toy_key16 toy_key16
      = Returns (Ok toy_data).
Proof.
  assert (H1 : length toy_key16 ∈ [16; 24; 32]%nat) by (by left).
  assert (H2 : length toy_key16 = 16%nat) by reflexivity.
  split; [exact toy_cbc_laws|]. split; [exact H1|]. split; [exact H2|].
  exact (@AESCBCDecrypt_AESCBCEncrypt toy_cbc toy_cbc_laws toy_data toy_key16
           toy_key16 H1 H2).
Defined.

Lemma AESCBCDecrypt_never_panics_witness :
  @cbc_laws toy_cbc ∧
  @AESCBCDecrypt toy_cbc [Byte.x05] toy_key16 toy_key16 ≠ Panics.
Proof.
  split; [exact toy_cbc_laws|].
  exact (@AESCBCDecrypt_never_panics toy_cbc toy_cbc_laws [Byte.x05]
           toy_key16 toy_key16).
Defined.

(** ** Verification before decryption *)

(** X23.  [VerifyAndDecrypt] checks the MAC first: a MAC that is not the
    HMAC of ciphertext and nonce under the HMAC key is rejected with the
    MAC error, whatever the rest; and it returns data exactly when the MAC
    is that HMAC, the encryption key has an AES length, the nonce has 12
    bytes and GCM opens the ciphertext to that data. *)
Theorem VerifyAndDecrypt_checks_MAC_first `{GoCrypto}
    (ciphertext nonce mac : list byte) (keypair : KeyPair) (d : list byte) :
  (mac ≠ hmac_sha256 (HMACKey keypair) (ciphertext ++ nonce) →
   VerifyAndDecrypt ciphertext nonce mac keypair
     = Err "HMAC verification failed") ∧
  (VerifyAndDecrypt ciphertext nonce mac keypair = Ok d ↔
   mac = hmac_sha256 (HMACKey keypair) (ciphertext ++ nonce) ∧
   length (EncryptionKey keypair) ∈ [16; 24; 32]%nat ∧
   length nonce = 12%nat ∧
   gcm_open (EncryptionKey keypair) nonce ciphertext = Some d).
Proof.
  unfold VerifyAndDecrypt, hmac_Equal, DecryptKey, AESGCMDecrypt, NewCipher,
    NewGCM, NonceSize.
  split.
  - intros Hmac. by rewrite bool_decide_eq_false_2.
  - case_bool_decide as Hmac; cbn [negb].
    2:{ split; [done|]. by intros (Hm & _). }
    case_bool_decide as Hkey.
    2:{ split; [done|]. by intros (_ & Hk & _). }
    destruct (Nat.eqb_spec (length nonce) 12) as [Hn|Hn]; cbn [negb].
    2:{ split; [done|]. by intros (_ & _ & Hl & _). }
    destruct (gcm_open (EncryptionKey keypair) nonce ciphertext) as [p|].
    + split; [by intros [= ->]|]. by intros (_ & _ & _ & [= ->]).
    + split; [done|]. by intros (_ & _ & _ & Ho).
Qed.

Lemma VerifyAndDecrypt_checks_MAC_first_witness :
  list_byte_of_string "forged" ≠
    @hmac_sha256 toy_crypto (HMACKey toy_keypair) ([] ++ []) ∧
  @VerifyAndDecrypt toy_crypto [] [] (list_byte_of_string "forged") toy_keypair
    = Err "HMAC verification failed".
Proof.
  assert (H : list_byte_of_string "forged" ≠
              @hmac_sha256 toy_crypto (HMACKey toy_keypair) ([] ++ []))
    by (vm_compute; discriminate).
  split; [exact H|].
  exact (proj1 (@VerifyAndDecrypt_checks_MAC_first toy_crypto [] []
                  (list_byte_of_string "forged") toy_keypair []) H).
Defined.

(** ** What the encryption helpers return *)

(** X24.  [EncryptAndAuthenticate] takes its nonce from the random source, 12
    bytes that it consumes and nothing more; the ciphertext is the GCM seal
    under that nonce and the MAC is the HMAC of ciphertext followed by
    nonce.  When the encryption key has no AES length it fails without
    reading the random source, with the key size error of [crypto/aes],
    which names the length of the key; when fewer than 12 random bytes are
    delivered it fails with the error of [io.ReadFull]: [EOF] when there
    was none, [unexpected EOF] otherwise. *)
Theorem EncryptAndAuthenticate_shape `{GoCrypto} (data : list byte)
    (keypair : KeyPair) (rand : RandReader) :
  (∀ ciphertext nonce mac rand',
     EncryptAndAuthenticate data keypair rand
       = (Ok (ciphertext, nonce, mac), rand') →
     nonce = take 12 rand ∧ length nonce = 12%nat ∧ rand' = drop 12 rand ∧
     ciphertext = gcm_seal (EncryptionKey keypair) nonce data ∧
     mac = hmac_sha256 (HMACKey keypair) (ciphertext ++ nonce)) ∧
  (length (EncryptionKey keypair) ∉ [16; 24; 32]%nat →
   EncryptAndAuthenticate data keypair rand
     = (Err ("crypto/aes: invalid key size "
             +:+ pretty (length (EncryptionKey keypair))), rand)) ∧
  (length (EncryptionKey keypair) ∈ [16; 24; 32]%nat →
   (length rand < 12)%nat →
   (EncryptAndAuthenticate data keypair rand).1
     = Err (if decide (rand = []) then "EOF" else "unexpected EOF")).
Proof.
  unfold EncryptAndAuthenticate, EncryptKey, AESGCMEncrypt, NewCipher, NewGCM,
    ReadFull, KeySizeError.
  split; [|split].
  - intros ciphertext nonce mac rand'.
    case_bool_decide as Hkey; [|done].
    case_decide as Hr; [|by destruct rand]. intros [= <- <- <- <-].
    repeat split. rewrite length_take. lia.
  - intros Hkey. by rewrite bool_decide_eq_false_2.
  - intros Hkey Hr. rewrite bool_decide_eq_true_2 by done.
    rewrite decide_False by lia. by destruct rand.
Qed.

Lemma EncryptAndAuthenticate_shape_witness :
  (∃ ciphertext nonce mac rand',
     @EncryptAndAuthenticate toy_crypto toy_data toy_keypair toy_rand
       = (Ok (ciphertext, nonce, mac), rand') ∧
     nonce = take 12 toy_rand ∧ length nonce = 12%nat ∧
     rand' = drop 12 toy_rand) ∧
  @EncryptAndAuthenticate toy_crypto toy_data
    (mkKeyPair (list_byte_of_string "short") []) toy_rand
    = (Err "crypto/aes: invalid key size 5", toy_rand) ∧
  (@EncryptAndAuthenticate toy_crypto toy_data toy_keypair []).1 = Err "EOF" ∧
  (@EncryptAndAuthenticate toy_crypto toy_data toy_keypair (take 3 toy_rand)).1
    = Err "unexpected EOF".
Proof.
  split; [|split; [|split]].
  - destruct (@EncryptAndAuthenticate toy_crypto toy_data toy_keypair toy_rand)
      as [[[[ct nonce] mac]|e] rand'] eqn:He; [|by vm_compute in He].
    exists ct, nonce, mac, rand'. split; [reflexivity|].
    destruct (proj1 (@EncryptAndAuthenticate_shape toy_crypto toy_data
                       toy_keypair toy_rand) ct nonce mac rand' He)
      as (Hn & Hl & Hr & _).
    split; [exact Hn|]. split; [exact Hl|]. exact Hr.
  - apply (proj1 (proj2 (@EncryptAndAuthenticate_shape toy_crypto toy_data
                           (mkKeyPair (list_byte_of_string "short") [])
                           toy_rand))).
    apply (bool_decide_eq_false_1 _). vm_compute. reflexivity.
  - apply (proj2 (proj2 (@EncryptAndAuthenticate_shape toy_crypto toy_data
                           toy_keypair []))).
    + apply (bool_decide_unpack _). vm_compute. exact I.
    + cbn. lia.
  - apply (proj2 (proj2 (@EncryptAndAuthenticate_shape toy_crypto toy_data
                           toy_keypair (take 3 toy_rand)))).
    + apply (bool_decide_unpack _). vm_compute. exact I.
    + vm_compute. lia.
Defined.

(** X25.  [DeriveKeyFromPassword] cuts the 64 bytes of argon2id in two: the
    encryption key and the HMAC key have 32 bytes each and, one after the
    other, are the derived key. *)
Theorem DeriveKeyFromPassword_halves `{GoCrypto} (password : string)
    (salt : list byte) :
  argon2_IDKey_length →
  length (EncryptionKey (DeriveKeyFromPassword password salt)) = 32%nat ∧
  length (HMACKey (DeriveKeyFromPassword password salt)) = 32%nat ∧
  EncryptionKey (DeriveKeyFromPassword password salt)
    ++ HMACKey (DeriveKeyFromPassword password salt)
  = argon2_IDKey (list_byte_of_string password) salt 1 (64 * 1024) 4 64.
Proof.
  intros Hlen. unfold DeriveKeyFromPassword. cbn [EncryptionKey HMACKey].
  rewrite length_take, length_drop, Hlen, take_drop. repeat split; lia.
Qed.

Lemma DeriveKeyFromPassword_halves_witness :
  @argon2_IDKey_length toy_crypto ∧
  length (EncryptionKey (@DeriveKeyFromPassword toy_crypto "p" [])) = 32%nat ∧
  length (HMACKey (@DeriveKeyFromPassword toy_crypto "p" [])) = 32%nat.
Proof.
  split; [exact toy_argon2_length|].
  destruct (@DeriveKeyFromPassword_halves toy_crypto "p" [] toy_argon2_length)
    as (H1 & H2 & _).
  split; [exact H1|exact H2].
Defined.

(** ** The answers of the revocation endpoint *)

(** X26.  The revocation endpoint answers 405, 401, 400 or 403 without changing
    the revocation manager, or 200, and then the certificate named in the
    request is revoked. *)
Theorem handleCertificateRevoke_answers (fuel : nat) (clock : Clock)
    (rm : RevocationManager) (n : nat) (r : Request) (status : Z)
    (st' : RevocationManager * nat) :
  handleCertificateRevoke fuel clock rm n r = Some (status, st') →
  (status ∈ [StatusMethodNotAllowed; StatusUnauthorized; StatusBadRequest;
             StatusForbidden] ∧ st' = (rm, n)) ∨
  (status = StatusOK ∧ Method r = "POST" ∧
   ∃ req, Body r = Some req ∧ IsRevoked st'.1 (CertificateID req) = true).
Proof.
  unfold handleCertificateRevoke.
  destruct (String.eqb_spec (Method r) "POST") as [Hm|Hm]; cbn [negb].
  2:{ intros [= <- <-]. left. split; [|done]. unfold StatusMethodNotAllowed, StatusUnauthorized, StatusBadRequest, StatusForbidden. set_solver. }
  destruct (PeerCertificates r) as [[|cert rest]|].
  1,3: intros [= <- <-]; left; split; [|done]; unfold StatusMethodNotAllowed, StatusUnauthorized, StatusBadRequest, StatusForbidden; set_solver.
  destruct (Body r) as [req|].
  2:{ intros [= <- <-]. left. split; [|done]. unfold StatusMethodNotAllowed, StatusUnauthorized, StatusBadRequest, StatusForbidden. set_solver. }
  destruct (negb _ && _).
  { intros [= <- <-]. left. split; [|done]. unfold StatusMethodNotAllowed, StatusUnauthorized, StatusBadRequest, StatusForbidden. set_solver. }
  destruct (RevokeChildren req).
  - unfold RevokeWithChildren.
    destruct (revokeRecursive fuel (referrerMapping rm) clock
                (CertificateID req) (revokedCerts rm, n)) as [st|] eqn:Hrun;
      [|done].
    cbn. intros [= <- <-]. right. split; [done|]. split; [done|].
    exists req. split; [done|]. unfold IsRevoked. cbn.
    apply bool_decide_eq_true.
    eapply revokeRecursive_reaches; [exact Hrun|apply rtc_refl].
  - intros [= <- <-]. right. split; [done|]. split; [done|].
    exists req. split; [done|]. unfold IsRevoked, Revoke. cbn.
    apply bool_decide_eq_true. rewrite lookup_insert_eq. by eexists.
Qed.

Lemma handleCertificateRevoke_answers_witness :
  ∃ st', handleCertificateRevoke 1 unix_clock referred_registry 0
           (mkRequest "POST" (Some [referred_cert])
              (Some (mkRevokeRequest "200" true)))
         = Some (StatusOK, st') ∧
         IsRevoked st'.1 "200" = true.
Proof.
  destruct (handleCertificateRevoke 1 unix_clock referred_registry 0
              (mkRequest "POST" (Some [referred_cert])
                 (Some (mkRevokeRequest "200" true))))
    as [[status st']|] eqn:H; [|by vm_compute in H].
  assert (Hs : status = StatusOK)
    by (vm_compute in H; injection H as <- _; reflexivity).
  subst status. exists st'. split; [reflexivity|].
  destruct (handleCertificateRevoke_answers _ _ _ _ _ _ _ H)
    as [[Hbad _]|(_ & _ & req & Hreq & Hrev)].
  - exfalso. apply elem_of_cons in Hbad as [Hbad|Hbad]; [done|].
    apply elem_of_cons in Hbad as [Hbad|Hbad]; [done|].
    apply elem_of_cons in Hbad as [Hbad|Hbad]; [done|].
    apply elem_of_cons in Hbad as [Hbad|Hbad]; [done|].
    by apply elem_of_nil in Hbad.
  - injection Hreq as <-. exact Hrev.
Defined.

(** ** The streaming endpoint *)

Lemma write_all_true (writes : Transport) (frames : list JObject) :
  ∀ w written written' w',
    write_all writes w frames written = (written', w', true) →
    written' = written ++ frames.
Proof.
  induction frames as [|f frames IH]; intros w written written' w' H; cbn in H.
  - injection H as <- _. by rewrite app_nil_r.
  - destruct (writes w); [|discriminate].
    apply IH in H. by rewrite H, <- app_assoc.
Qed.

Lemma write_all_false (writes : Transport) (frames : list JObject) :
  ∀ w written written' w',
    write_all writes w frames written = (written', w', false) →
    ∃ done, written' = written ++ done ∧ done `prefix_of` frames ∧
            done ≠ frames.
Proof.
  induction frames as [|f frames IH]; intros w written written' w' H; cbn in H.
  - discriminate.
  - destruct (writes w).
    + apply IH in H as (done & -> & Hpre & Hne).
      exists (f :: done). rewrite <- app_assoc. split; [done|].
      split; [by apply prefix_cons|]. intros [= E]. by apply Hne.
    + injection H as <- _. exists []. rewrite app_nil_r.
      split; [done|]. split; [apply prefix_nil|done].
Qed.

Lemma same_messages_refl {C} (bm : BinManager C) : same_messages bm bm.
Proof. by repeat split. Qed.

Lemma same_messages_trans {C} (bm1 bm2 bm3 : BinManager C) :
  same_messages bm1 bm2 → same_messages bm2 bm3 → same_messages bm1 bm3.
Proof.
  intros (H1 & H2 & H3) (K1 & K2 & K3).
  split; [congruence|]. split; [congruence|].
  intros id. by rewrite K3, H3.
Qed.

Lemma same_messages_recent {C} (bm bm' : BinManager C) (binID : Z) (now : Time) :
  same_messages bm bm' →
  GetRecentMessages bm' binID now = GetRecentMessages bm binID now.
Proof.
  intros (_ & Hr & Hm). specialize (Hm binID). unfold GetRecentMessages.
  rewrite Hr.
  destruct (bins bm' !! binID) as [b'|], (bins bm !! binID) as [b|];
    cbn in Hm; unfold Bin_GetRecentMessages; rewrite ?Hm; try done.
  - by rewrite <- Hm.
Qed.

Lemma Subscribe_same_messages {C} (bm : BinManager C) (binID : Z)
    (clientID : string) (client : C) :
  same_messages bm (Subscribe bm binID clientID client).
Proof.
  destruct (Subscribe_mask bm binID clientID client) as [Hm Hr].
  split; [done|]. split; [done|].
  intros id. rewrite Subscribe_bins.
  destruct (decide (id = binID)) as [->|Hne].
  - rewrite lookup_insert_eq. cbn. by destruct (bins bm !! binID).
  - by rewrite lookup_insert_ne.
Qed.

Lemma Subscribe_filed {C} (bm : BinManager C) (binID : Z)
    (clientID : string) (client : C) :
  filed (Subscribe bm binID clientID client) binID clientID client.
Proof.
  unfold filed. rewrite Subscribe_bins, lookup_insert_eq. cbn.
  by rewrite lookup_insert_eq.
Qed.

Lemma Subscribe_keeps_filed {C} (bm : BinManager C) (binID id : Z)
    (clientID : string) (client : C) :
  filed bm id clientID client →
  filed (Subscribe bm binID clientID client) id clientID client.
Proof.
  unfold filed. intros H. rewrite Subscribe_bins.
  destruct (decide (id = binID)) as [->|Hne].
  - rewrite lookup_insert_eq. cbn. by rewrite lookup_insert_eq.
  - by rewrite lookup_insert_ne.
Qed.

Lemma subscribe_all_snoc {C} (bm : BinManager C) (binIDs : list Z) (binID : Z)
    (clientID : string) (client : C) :
  subscribe_all bm (binIDs ++ [binID]) clientID client
  = Subscribe (subscribe_all bm binIDs clientID client) binID clientID client.
Proof. unfold subscribe_all. by rewrite foldl_app. Qed.

Lemma subscribe_all_spec {C} (bm : BinManager C) (clientID : string)
    (client : C) (binIDs : list Z) :
  same_messages bm (subscribe_all bm binIDs clientID client) ∧
  (∀ id, id ∈ binIDs →
     filed (subscribe_all bm binIDs clientID client) id clientID client) ∧
  (∀ id, id ∉ binIDs →
     bins (subscribe_all bm binIDs clientID client) !! id = bins bm !! id).
Proof.
  induction binIDs as [|binID binIDs IH] using rev_ind.
  - split; [apply same_messages_refl|]. split; [|done].
    intros id Hin. by apply elem_of_nil in Hin.
  - destruct IH as (Hsame & Hfiled & Hout). rewrite subscribe_all_snoc.
    split; [|split].
    + eapply same_messages_trans; [exact Hsame|apply Subscribe_same_messages].
    + intros id Hin. apply elem_of_app in Hin as [Hin|Hin].
      * apply Subscribe_keeps_filed. by apply Hfiled.
      * apply list_elem_of_singleton in Hin as ->. apply Subscribe_filed.
    + intros id Hnin. rewrite Subscribe_bins, lookup_insert_ne.
      * apply Hout. intros Hin. apply Hnin, elem_of_app. by left.
      * intros ->. apply Hnin, elem_of_app. right. by apply list_elem_of_singleton.
Qed.

Lemma replays_same {C} (clock : Clock) (bm bm' : BinManager C) (binIDs : list Z) :
  same_messages bm bm' →
  ∀ k, replays clock bm' k binIDs = replays clock bm k binIDs.
Proof.
  intros Hsame. induction binIDs as [|id binIDs IH]; intros k; cbn; [done|].
  by rewrite IH, (same_messages_recent bm bm').
Qed.

(** The loop over the requested bins, when it runs to its end. *)
Lemma subscribe_each_Subscribed {C} (clock : Clock) (writes : Transport)
    (clientID : string) (client : C) (binIDs : list Z) :
  ∀ (bm : BinManager C) k w written bm' cid written' k' w',
    subscribe_each clock writes clientID client binIDs bm k w written
      = Subscribed bm' cid written' k' w' →
    bm' = subscribe_all bm binIDs clientID client ∧ cid = clientID ∧
    written' = written ++ replays clock bm k binIDs ∧
    k' = (k + length binIDs)%nat.
Proof.
  induction binIDs as [|binID binIDs IH];
    intros bm k w written bm' cid written' k' w' H; cbn in H.
  - injection H as <- <- <- <- _. rewrite app_nil_r.
    repeat split; try done; cbn; lia.
  - destruct (write_all _ _ _ _) as [[wr w1] [|]] eqn:Hw; [|discriminate].
    apply write_all_true in Hw. apply IH in H as (-> & -> & -> & ->).
    split; [done|]. split; [done|]. split; [|cbn; lia].
    rewrite Hw, <- app_assoc. cbn [replays]. f_equal.
    rewrite (replays_same clock bm (Subscribe bm binID clientID client));
      [|apply Subscribe_same_messages].
    by rewrite (same_messages_recent bm (Subscribe bm binID clientID client))
      by apply Subscribe_same_messages.
Qed.

(** The loop over the requested bins, when a write fails. *)
Lemma subscribe_each_Returned {C} (clock : Clock) (writes : Transport)
    (clientID : string) (client : C) (binIDs : list Z) :
  ∀ (bm : BinManager C) k w written bm' written',
    subscribe_each clock writes clientID client binIDs bm k w written
      = Returned bm' written' →
    ∃ visited rest done,
      binIDs = visited ++ rest ∧ visited ≠ [] ∧
      bm' = subscribe_all bm visited clientID client ∧
      written' = written ++ done ∧
      done `prefix_of` replays clock bm k visited ∧
      done ≠ replays clock bm k visited.
Proof.
  induction binIDs as [|binID binIDs IH];
    intros bm k w written bm' written' H; cbn in H; [discriminate|].
  pose proof (Subscribe_same_messages bm binID clientID client) as Hsame.
  rewrite (same_messages_recent _ _ binID (clock k) Hsame) in H.
  destruct (write_all _ _ _ _) as [[wr w1] [|]] eqn:Hw.
  - apply write_all_true in Hw.
    apply IH in H as (visited & rest & done & -> & _ & -> & -> & Hpre & Hne).
    rewrite (replays_same clock _ _ visited Hsame) in Hpre, Hne.
    exists (binID :: visited), rest,
      ((MarshalJSON <$> GetRecentMessages bm binID (clock k)) ++ done).
    split; [done|]. split; [done|]. split; [done|].
    split; [by rewrite Hw, <- app_assoc|].
    cbn [replays]. split; [by apply prefix_app|].
    intros E. by apply app_inv_head in E.
  - injection H as <- <-.
    apply write_all_false in Hw as (done & -> & Hpre & Hne).
    exists [binID], binIDs, done. cbn [replays]. rewrite app_nil_r.
    by repeat split.
Qed.

(** X27.  A connection that is taken to the inbound loop was subscribed
    and answered in full: its first frame was a ["subscribe"] request; the
    handle is filed, under the identifier of the request or under the fresh
    one when the request names none, in every bin of the request; no other
    bin of the table is touched and no message is added or lost; and the
    frames written are the recent messages of the requested bins as they
    stood before the request, bin after bin in the order of the request
    (the clock being read once for each bin), followed by one
    acknowledgement that carries the identifier and the number of bins. *)
Theorem handleWebSocket_subscribes {C} (clock : Clock) (writes : Transport)
    (uuid : string) (client : C) (bm : BinManager C) (k w : nat)
    (first : option SubscriptionMsg) (bm' : BinManager C) (clientID : string)
    (written : list JObject) (k' w' : nat) :
  subscription_phase clock writes uuid client bm k w first
    = Subscribed bm' clientID written k' w' →
  ∃ m, first = Some m ∧ Type_ m = "subscribe" ∧
    clientID = (if String.eqb (ClientID m) "" then uuid else ClientID m) ∧
    (∀ binID, binID ∈ BinIDs m → filed bm' binID clientID client) ∧
    (∀ binID, binID ∉ BinIDs m → bins bm' !! binID = bins bm !! binID) ∧
    (∀ binID now,
       GetRecentMessages bm' binID now = GetRecentMessages bm binID now) ∧
    written = replays clock bm k (BinIDs m)
              ++ [subscribe_ack clientID (length (BinIDs m))
                    (clock (k + length (BinIDs m))%nat)].
Proof.
  unfold subscription_phase. intros H.
  destruct first as [m|]; [|discriminate]. exists m. split; [done|].
  destruct (String.eqb (Type_ m) "subscribe") eqn:Hty; cbn in H;
    [|discriminate].
  apply String.eqb_eq in Hty. split; [done|].
  destruct (subscribe_each _ _ _ _ _ _ _ _ _) as [bm1 cid wr k1 w1|] eqn:He;
    [|discriminate].
  apply subscribe_each_Subscribed in He as (-> & -> & -> & ->).
  destruct (writes w1); [|discriminate].
  injection H as <- <- <- _ _.
  destruct (subscribe_all_spec bm
              (if String.eqb (ClientID m) "" then uuid else ClientID m)
              client (BinIDs m)) as (Hsame & Hfiled & Hout).
  split; [done|]. split; [done|]. split; [done|].
  split; [|done]. intros binID now. by apply same_messages_recent.
Qed.

Lemma handleWebSocket_subscribes_witness :
  ∃ (bm' : BinManager WsClient) clientID written k' w',
    subscription_phase replay_clock (λ _, true) "c-1" open_client
      replay_manager 0 0 (Some subscribe_request)
      = Subscribed bm' clientID written k' w' ∧
    clientID = "c-1" ∧ length written = 3%nat ∧
    filed bm' 0x3000 "c-1" open_client.
Proof.
  destruct (subscription_phase replay_clock (λ _, true) "c-1" open_client
              replay_manager 0 0 (Some subscribe_request))
    as [bm' clientID written k' w'|] eqn:H; [|by vm_compute in H].
  exists bm', clientID, written, k', w'. split; [reflexivity|].
  destruct (handleWebSocket_subscribes _ _ _ _ _ _ _ _ _ _ _ _ _ H)
    as (m & Hm & _ & Hid & Hfiled & _ & _ & Hwr).
  injection Hm as <-. cbn in Hid. subst clientID.
  split; [reflexivity|]. split; [by rewrite Hwr|].
  apply Hfiled. cbn. right. by left.
Defined.

(** X28.  When a write fails after a well-formed request, the handler
    returns with the subscription standing: the bins of the request that the
    loop had reached, among them the first, keep the handle filed under
    the identifier, and nothing unsubscribes it; the other bins are as they
    were; what was written is a part of the replay of the bins reached, and
    holds no acknowledgement. *)
Theorem handleWebSocket_gives_up {C} (clock : Clock) (writes : Transport)
    (uuid : string) (client : C) (bm : BinManager C) (k w : nat)
    (m : SubscriptionMsg) (bm' : BinManager C) (written : list JObject) :
  Type_ m = "subscribe" →
  subscription_phase clock writes uuid client bm k w (Some m)
    = Returned bm' written →
  let clientID := if String.eqb (ClientID m) "" then uuid else ClientID m in
  ∃ visited rest,
    BinIDs m = visited ++ rest ∧
    (BinIDs m ≠ [] → visited ≠ []) ∧
    (∀ binID, binID ∈ visited → filed bm' binID clientID client) ∧
    (∀ binID, binID ∉ visited → bins bm' !! binID = bins bm !! binID) ∧
    written `prefix_of` replays clock bm k visited.
Proof.
  intros Hty H clientID. unfold subscription_phase in H.
  rewrite Hty in H. cbn in H. fold clientID in H.
  destruct (subscribe_each _ _ _ _ _ _ _ _ _) as [bm1 cid wr k1 w1|bm1 wr] eqn:He.
  - apply subscribe_each_Subscribed in He as (-> & -> & -> & ->).
    destruct (writes w1); [discriminate|]. injection H as <- <-.
    destruct (subscribe_all_spec bm clientID client (BinIDs m))
      as (_ & Hfiled & Hout).
    exists (BinIDs m), []. rewrite app_nil_r. by repeat split.
  - injection H as <- <-.
    apply subscribe_each_Returned in He
      as (visited & rest & done & Hids & Hne & -> & -> & Hpre & _).
    destruct (subscribe_all_spec bm clientID client visited)
      as (_ & Hfiled & Hout).
    exists visited, rest. by repeat split.
Qed.

Lemma handleWebSocket_gives_up_witness :
  ∃ (bm' : BinManager WsClient) written,
    subscription_phase replay_clock (breaks_at 1) "c-1" open_client
      replay_manager 0 0 (Some subscribe_request) = Returned bm' written ∧
    filed bm' 0x2000 "c-1" open_client.
Proof.
  destruct (subscription_phase replay_clock (breaks_at 1) "c-1" open_client
              replay_manager 0 0 (Some subscribe_request))
    as [|bm' written] eqn:H; [by vm_compute in H|].
  exists bm', written. split; [reflexivity|].
  destruct (handleWebSocket_gives_up _ _ _ _ _ _ _ subscribe_request _ _
              eq_refl H)
    as (visited & rest & Hids & Hne & Hfiled & _).
  destruct visited as [|binID visited]; [by destruct Hne|].
  injection Hids as <- _. apply Hfiled. by left.
Defined.

(** X29.  The end of a connection unsubscribes the identifier from every
    bin of its request and does nothing else: in those bins no handle is
    filed under the identifier any more, whichever connection filed it;
    the other subscribers and the messages of every bin stay; and every
    bin of the table stays in the table, the ones the subscription created
    included. *)
Theorem unsubscribe_all_clears {C} (bm : BinManager C) (binIDs : list Z)
    (clientID : string) :
  let bm' := unsubscribe_all bm binIDs clientID in
  (∀ binID, binID ∈ binIDs →
     (bins bm' !! binID ≫= λ b, Clients b !! clientID) = None) ∧
  (∀ binID other, other ≠ clientID →
     (bins bm' !! binID ≫= λ b, Clients b !! other)
     = (bins bm !! binID ≫= λ b, Clients b !! other)) ∧
  (∀ binID, binID ∉ binIDs → bins bm' !! binID = bins bm !! binID) ∧
  (∀ binID, Messages <$> bins bm' !! binID = Messages <$> bins bm !! binID) ∧
  currentMask bm' = currentMask bm ∧ retention bm' = retention bm.
Proof.
  cbn. unfold unsubscribe_all.
  induction binIDs as [|binID binIDs IH] using rev_ind; cbn.
  - repeat split; try done. intros id Hin. by apply elem_of_nil in Hin.
  - rewrite foldl_app. cbn.
    destruct IH as (Hclear & Hothers & Hout & Hmsgs & Hmask & Hret).
    set (bm1 := foldl _ bm binIDs) in *.
    assert (Hstep : ∀ id,
      bins (Unsubscribe bm1 binID clientID) !! id
      = if decide (id = binID)
        then (λ b, RemoveClient b clientID) <$> bins bm1 !! id
        else bins bm1 !! id).
    { intros id. unfold Unsubscribe.
      destruct (bins bm1 !! binID) as [b|] eqn:Hb; cbn.
      - destruct (decide (id = binID)) as [->|Hne].
        + by rewrite lookup_insert_eq, Hb.
        + by rewrite lookup_insert_ne.
      - destruct (decide (id = binID)) as [->|Hne]; [by rewrite Hb|done]. }
    assert (Hset : currentMask (Unsubscribe bm1 binID clientID) = currentMask bm1
                   ∧ retention (Unsubscribe bm1 binID clientID) = retention bm1).
    { unfold Unsubscribe. by destruct (bins bm1 !! binID). }
    split; [|split; [|split; [|split]]].
    + intros id Hin. rewrite Hstep.
      destruct (decide (id = binID)) as [->|Hne].
      * destruct (bins bm1 !! binID) as [b|]; cbn; [|done].
        by rewrite lookup_delete_eq.
      * apply Hclear. apply elem_of_app in Hin as [Hin|Hin]; [done|].
        by apply list_elem_of_singleton in Hin.
    + intros id other Hne. rewrite Hstep, <- Hothers by done.
      destruct (decide (id = binID)) as [->|_]; [|done].
      destruct (bins bm1 !! binID) as [b|]; cbn; [|done].
      by rewrite lookup_delete_ne.
    + intros id Hnin. rewrite Hstep, decide_False.
      * apply Hout. intros Hin. apply Hnin, elem_of_app. by left.
      * intros ->. apply Hnin, elem_of_app. right.
        by apply list_elem_of_singleton.
    + intros id. rewrite Hstep, <- Hmsgs.
      destruct (decide (id = binID)) as [->|_]; [|done].
      by destruct (bins bm1 !! binID).
    + destruct Hset as [-> ->]. by split.
Qed.

Lemma unsubscribe_all_clears_witness :
  (bins (unsubscribe_all
           (subscribe_all replay_manager [0x2000; 0x3000] "c-1" open_client)
           [0x2000; 0x3000] "c-1") !! 0x3000
     ≫= λ b, Clients b !! "c-1") = None.
Proof.
  apply (proj1 (unsubscribe_all_clears
                  (subscribe_all replay_manager [0x2000; 0x3000] "c-1"
                     open_client) [0x2000; 0x3000] "c-1")).
  right. by left.
Defined.
